(** * fishhook: rebinding of Mach-O symbol pointers, a shallow embedding

    The development follows [fishhook.c] for the LP64 configuration
    ([#ifdef __LP64__]): pointers and [uintptr_t] are 64 bits wide,
    [section_t] is [struct section_64], [nlist_t] is [struct nlist_64]
    (16 bytes, [n_un.n_strx] first) and [uint] is a 32-bit counter.

    Integers of the program are values of [Z]; every place where the C
    arithmetic is performed modulo a power of two has the reduction written
    out ([wrap32], [wrap64]).

    A process is a record: the pointer-sized cells of its address space, the
    read-only views used to load [uint32_t] values and C strings, the
    protection of its mapped regions, the blocks handed out by [malloc], the
    images known to the dynamic loader and the global registry chain.
    Pointer cells are the only memory the program writes; the link-edit
    tables, the strings and the load commands are read through views that
    stores into pointer cells do not change.

    The program is embedded twice over the same process.  The first
    embedding, the cell model, has no access violations and an [mprotect]
    that is exact to the byte: a store succeeds whatever the protection of
    its address.  The module [Machine] repeats the patcher and the pass
    over an image with stores that need a writable address and an
    [mprotect] that works on whole pages and can fail.  A run the machine
    completes is a run of the cell model on the pointer cells
    ([machine_perform_refines]); under the access rights spelled out in
    [Machine.pass_safe] and [Machine.image_safe] the machine completes the
    run of the cell model ([machine_perform_follows],
    [machine_image_pass_follows]).

    A function that may fail to return (a [uint] counter that wraps below a
    64-bit bound, a read outside an array) yields an [option]; [None] is
    "no normal return".

    The definitions come first: the program, then the predicates and the
    sample process used in the statements.  The lemmas follow, grouped by
    the property they establish. *)

From Stdlib Require Import ZArith String Ascii Bool List Lia.
Import ListNotations.
Local Open Scope Z_scope.

(* ================================================================== *)
(** * Machine arithmetic *)

Definition wrap32 (x : Z) : Z := x mod 2 ^ 32.
Definition wrap64 (x : Z) : Z := x mod 2 ^ 64.

(** [p + i] on a pointer [p] to objects of [scale] bytes. *)
Definition ptr_add (p scale i : Z) : Z := wrap64 (p + scale * i).

Definition NULL : Z := 0.

(* ================================================================== *)
(** * Constants of the platform headers

    [fishhook.c] takes these from [<mach-o/loader.h>], [<mach-o/nlist.h>],
    [<mach/vm_prot.h>] and [<sys/mman.h>]; the values are those of the
    Darwin ABI. *)

Module Darwin.
Definition SEG_LINKEDIT : string := "__LINKEDIT".
Definition SEG_DATA : string := "__DATA".
Definition SEG_DATA_CONST : string := "__DATA_CONST".

Definition SECTION_TYPE : Z := 0xff.
Definition S_NON_LAZY_SYMBOL_POINTERS : Z := 0x6.
Definition S_LAZY_SYMBOL_POINTERS : Z := 0x7.

Definition INDIRECT_SYMBOL_LOCAL : Z := 0x80000000.
Definition INDIRECT_SYMBOL_ABS : Z := 0x40000000.

Definition VM_PROT_READ : Z := 0x1.
Definition VM_PROT_WRITE : Z := 0x2.
Definition VM_PROT_EXECUTE : Z := 0x4.

Definition PROT_READ : Z := 0x1.
Definition PROT_WRITE : Z := 0x2.
Definition PROT_EXEC : Z := 0x4.

Definition sizeof_pointer : Z := 8.
Definition sizeof_uint32 : Z := 4.
Definition sizeof_nlist : Z := 16.
End Darwin.
Import Darwin.

(* ================================================================== *)
(** * Data model *)

(** Modelled from the spec: [struct rebinding] is declared in [fishhook.h],
    which is not part of the sources at hand.  A rebinding request is the
    triple of a symbol name (the characters before the terminating NUL), the
    replacement pointer and the output slot [replaced], the address of a
    pointer cell, which is [NULL] when the caller does not want the previous pointer. *)
Record rebinding : Type := mkRebinding {
  name : string;
  replacement : Z;
  replaced : Z
}.

(** [struct rebindings_entry]: one registered batch.  [entry_addr] is the
    address of the node itself, [rebindings_addr] the address of the copied
    array, [rebindings] its contents; the [next] field is the tail of the
    list that holds the node. *)
Record rebindings_entry : Type := mkEntry {
  entry_addr : Z;
  rebindings_addr : Z;
  rebindings : list rebinding;
  rebindings_nel : Z
}.

(** The value of a [struct rebindings_entry *] that points to a chain. *)
Definition entry_ptr (chain : list rebindings_entry) : Z :=
  match chain with
  | [] => NULL
  | e :: _ => entry_addr e
  end.

(** [section_t]: the fields read by the program. *)
Record section_t : Type := mkSection {
  sectname : string;
  sect_segname : string;
  addr : Z;
  size : Z;
  flags : Z;
  reserved1 : Z
}.

(** [segment_command_t] followed by its [nsects] section headers. *)
Record segment_command_t : Type := mkSegment {
  segname : string;
  vmaddr : Z;
  fileoff : Z;
  sections : list section_t
}.

Record symtab_command : Type := mkSymtab {
  symoff : Z;
  stroff : Z
}.

Record dysymtab_command : Type := mkDysymtab {
  indirectsymoff : Z;
  nindirectsyms : Z
}.

(** A load command, discriminated by its [cmd] field. *)
Inductive load_command : Type :=
| LC_SEGMENT_ARCH_DEPENDENT (seg : segment_command_t)
| LC_SYMTAB (c : symtab_command)
| LC_DYSYMTAB (c : dysymtab_command)
| LC_other (cmd : Z).

(** [struct mach_header] at address [header_addr], followed by its [ncmds]
    load commands. *)
Record mach_header : Type := mkHeader {
  header_addr : Z;
  commands : list load_command
}.

(** The process. *)
Record process : Type := mkProcess {
  ptr_at : Z -> Z;            (* the [void *] stored at an address *)
  u32_at : Z -> Z;            (* the [uint32_t] stored at an address *)
  cstr_at : Z -> string;      (* the NUL-terminated string at an address *)
  vm_prot : Z -> option Z;    (* protection of the region at an address *)
  allocated : Z -> bool;      (* blocks obtained from [malloc], not yet freed *)
  dladdr : Z -> bool;         (* [dladdr(addr, &info) != 0] *)
  images : list (mach_header * Z);   (* dyld: loaded images with their slide *)
  add_image_funcs : nat;      (* dyld: registrations of [_rebind_symbols_for_image] *)
  _rebindings_head : list rebindings_entry
}.

Definition set_ptr_at (f : Z -> Z) (st : process) : process :=
  mkProcess f (u32_at st) (cstr_at st) (vm_prot st) (allocated st) (dladdr st)
            (images st) (add_image_funcs st) (_rebindings_head st).

Definition set_vm_prot (f : Z -> option Z) (st : process) : process :=
  mkProcess (ptr_at st) (u32_at st) (cstr_at st) f (allocated st) (dladdr st)
            (images st) (add_image_funcs st) (_rebindings_head st).

Definition set_allocated (f : Z -> bool) (st : process) : process :=
  mkProcess (ptr_at st) (u32_at st) (cstr_at st) (vm_prot st) f (dladdr st)
            (images st) (add_image_funcs st) (_rebindings_head st).

Definition set_images (l : list (mach_header * Z)) (st : process) : process :=
  mkProcess (ptr_at st) (u32_at st) (cstr_at st) (vm_prot st) (allocated st)
            (dladdr st) l (add_image_funcs st) (_rebindings_head st).

Definition set_add_image_funcs (n : nat) (st : process) : process :=
  mkProcess (ptr_at st) (u32_at st) (cstr_at st) (vm_prot st) (allocated st)
            (dladdr st) (images st) n (_rebindings_head st).

Definition set_rebindings_head (c : list rebindings_entry) (st : process) : process :=
  mkProcess (ptr_at st) (u32_at st) (cstr_at st) (vm_prot st) (allocated st)
            (dladdr st) (images st) (add_image_funcs st) c.

(* ================================================================== *)
(** * Memory and the kernel *)

(** The store of the pointer [v] into the cell at address [a] in the cell
    model; [Machine.store] is the store that needs a writable address. *)
Definition store_ptr (a v : Z) (st : process) : process :=
  set_ptr_at (fun x => if x =? a then v else ptr_at st x) st.

(** A [uint32_t] load. *)
Definition load_u32 (st : process) (a : Z) : Z := wrap32 (u32_at st a).

(** The block a successful [malloc] returned at [p] becomes live; a [NULL]
    result changes nothing. *)
Definition malloc_returns (p : Z) (st : process) : process :=
  if p =? NULL then st
  else set_allocated (fun x => if x =? p then true else allocated st x) st.

(** [free(p)]; [free(NULL)] does nothing. *)
Definition free (p : Z) (st : process) : process :=
  if p =? NULL then st
  else set_allocated (fun x => if x =? p then false else allocated st x) st.

(** [mprotect(start, len, prot)] in the cell model: the range gets
    protection [prot].  The rounding of the range to page boundaries and
    the failure of the call are in [Machine.mprotect]. *)
Definition mprotect (start len prot : Z) (st : process) : process :=
  set_vm_prot
    (fun x => if (start <=? x) && (x <? start + len) then Some prot
              else vm_prot st x) st.

(** [get_protection]: [vm_region_64] either reports the protection of the
    region ([KERN_SUCCESS]) or fails, in which case [VM_PROT_READ] is
    assumed. *)
Definition get_protection (sectionStart : Z) (st : process) : Z :=
  match vm_prot st sectionStart with
  | Some protection => protection
  | None => VM_PROT_READ
  end.

(* ================================================================== *)
(** * Control flow *)

(** What one iteration of a loop body leaves behind: go on with the next
    iteration, or leave the loop ([goto symbol_loop]). *)
Inductive flow (S : Type) : Type :=
| Continue (s : S)
| Break (s : S).
Arguments Continue {S} s.
Arguments Break {S} s.

Definition flow_state {S : Type} (f : flow S) : S :=
  match f with Continue s | Break s => s end.

(** [for (uint i = i0; i < n; i++) body], where [n] may be wider than the
    32-bit counter: the increment wraps.  [fuel] bounds the number of
    iterations that are run; [None] when it does not suffice. *)
Fixpoint for_uint {S : Type} (fuel : nat) (n : Z)
         (body : Z -> S -> option (flow S)) (i : Z) (s : S) : option (flow S) :=
  match fuel with
  | O => None
  | Datatypes.S fuel' =>
      if i <? n then
        match body i s with
        | Some (Continue s') => for_uint fuel' n body (wrap32 (i + 1)) s'
        | Some (Break s') => Some (Break s')
        | None => None
        end
      else Some (Continue s)
  end.

(** The fuel given to a loop bounded by [n]: one test more than [n]
    iterations.  It is enough whenever the loop ends: see
    [entry_loop_fuel_adequate] and [slot_loop_fuel_adequate]. *)
Definition loop_fuel (n : Z) : nat := Datatypes.S (Z.to_nat n).

(* ================================================================== *)
(** * The registry *)

(** [prepend_rebindings].  [new_entry] and [new_array] are the results of
    the two calls of [malloc] ([NULL] on failure); the second call only
    happens when the first one succeeded.  The result is the status, the new
    value of [*rebindings_head] and the process. *)
Definition prepend_rebindings (new_entry new_array : Z)
           (rebindings_head : list rebindings_entry)
           (rebindings : list rebinding) (nel : Z) (st : process)
  : Z * list rebindings_entry * process :=
  let st1 := malloc_returns new_entry st in
  if new_entry =? NULL then (-1, rebindings_head, st1)
  else
    let st2 := malloc_returns new_array st1 in
    if new_array =? NULL then (-1, rebindings_head, free new_entry st2)
    else
      let e := mkEntry new_entry new_array
                       (firstn (Z.to_nat nel) rebindings) nel in
      (0, e :: rebindings_head, st2).

(* ================================================================== *)
(** * The patcher *)

(** [symbol_name[0] && symbol_name[1]]. *)
Definition symbol_name_longer_than_1 (symbol_name : string) : bool :=
  match symbol_name with
  | String _ (String _ _) => true
  | _ => false
  end.

(** [&symbol_name[1]], for a name that has a first character. *)
Definition symbol_name_from_1 (symbol_name : string) : string :=
  match symbol_name with
  | String _ rest => rest
  | EmptyString => EmptyString
  end.

(** [strcmp(a, b) == 0]. *)
Definition strcmp_eq (a b : string) : bool := String.eqb a b.

(** The test of the inner [if]: the symbol name without its first character
    against the name of a request. *)
Definition name_matches (symbol_name : string) (r : rebinding) : bool :=
  symbol_name_longer_than_1 symbol_name
  && strcmp_eq (symbol_name_from_1 symbol_name) (name r).

(** What is done with a matching request [r] for the slot at address
    [slot]: the output slot receives the current pointer unless it is
    [NULL] or the current pointer already is the replacement; then the slot
    receives the replacement. *)
Definition apply_rebinding (slot : Z) (r : rebinding) (st : process) : process :=
  let st1 :=
    if negb (replaced r =? NULL) && negb (ptr_at st slot =? replacement r)
    then store_ptr (replaced r) (ptr_at st slot) st
    else st in
  store_ptr slot (replacement r) st1.

(** Body of [for (uint j = 0; j < cur->rebindings_nel; j++)]. *)
Definition entry_body (slot : Z) (symbol_name : string) (cur : rebindings_entry)
           (j : Z) (st : process) : option (flow process) :=
  if symbol_name_longer_than_1 symbol_name then
    match nth_error (rebindings cur) (Z.to_nat j) with
    | None => None
    | Some r =>
        if strcmp_eq (symbol_name_from_1 symbol_name) (name r)
        then Some (Break (apply_rebinding slot r st))
        else Some (Continue st)
    end
  else Some (Continue st).

(** [while (cur) { for ... ; cur = cur->next; }], left through
    [goto symbol_loop] by the first match. *)
Fixpoint chain_loop (slot : Z) (symbol_name : string)
         (cur : list rebindings_entry) (st : process) : option process :=
  match cur with
  | [] => Some st
  | e :: next =>
      match for_uint (loop_fuel (rebindings_nel e)) (rebindings_nel e)
                     (entry_body slot symbol_name e) 0 st with
      | Some (Break st') => Some st'
      | Some (Continue st') => chain_loop slot symbol_name next st'
      | None => None
      end
  end.

(** The three reserved values of an indirect symbol table entry. *)
Definition is_sentinel (symtab_index : Z) : bool :=
  (symtab_index =? INDIRECT_SYMBOL_ABS)
  || (symtab_index =? INDIRECT_SYMBOL_LOCAL)
  || (symtab_index =? Z.lor INDIRECT_SYMBOL_LOCAL INDIRECT_SYMBOL_ABS).

(** The symbol name of a slot: [strtab + symtab[symtab_index].n_un.n_strx]. *)
Definition slot_symbol_name (symtab strtab symtab_index : Z) (st : process) : string :=
  let strtab_offset := load_u32 st (ptr_add symtab sizeof_nlist symtab_index) in
  cstr_at st (ptr_add strtab 1 strtab_offset).

(** Body of [for (uint i = 0; i < section->size / sizeof(void * ); i++)]. *)
Definition slot_body (rebindings : list rebindings_entry)
           (symtab strtab indirect_symbol_indices indirect_symbol_bindings : Z)
           (i : Z) (st : process) : option (flow process) :=
  let symtab_index := load_u32 st (ptr_add indirect_symbol_indices sizeof_uint32 i) in
  if is_sentinel symtab_index then Some (Continue st)
  else
    let symbol_name := slot_symbol_name symtab strtab symtab_index st in
    match chain_loop (ptr_add indirect_symbol_bindings sizeof_pointer i)
                     symbol_name rebindings st with
    | Some st' => Some (Continue st')
    | None => None
    end.

(** The [PROT_*] flags computed from [oldProtection]. *)
Definition restored_protection (oldProtection : Z) : Z :=
  let protection := 0 in
  let protection :=
    if Z.land oldProtection VM_PROT_READ =? 0 then protection
    else Z.lor protection PROT_READ in
  let protection :=
    if Z.land oldProtection VM_PROT_WRITE =? 0 then protection
    else Z.lor protection PROT_WRITE in
  let protection :=
    if Z.land oldProtection VM_PROT_EXECUTE =? 0 then protection
    else Z.lor protection PROT_EXEC in
  protection.

(** Number of slots and address of the pointer table of a section. *)
Definition section_slots (section : section_t) : Z := size section / sizeof_pointer.
Definition section_bindings (section : section_t) (slide : Z) : Z :=
  wrap64 (wrap64 slide + addr section).

Definition perform_rebinding_with_section (rebindings : list rebindings_entry)
           (section : section_t) (slide symtab strtab indirect_symtab : Z)
           (st : process) : option process :=
  let isDataConst := strcmp_eq (sect_segname section) SEG_DATA_CONST in
  let indirect_symbol_indices :=
    ptr_add indirect_symtab sizeof_uint32 (reserved1 section) in
  let indirect_symbol_bindings := section_bindings section slide in
  let oldProtection :=
    if isDataConst then get_protection (entry_ptr rebindings) st
    else VM_PROT_READ in
  let st1 :=
    if isDataConst
    then mprotect indirect_symbol_bindings (size section)
                  (Z.lor PROT_READ PROT_WRITE) st
    else st in
  match for_uint (loop_fuel (section_slots section)) (section_slots section)
                 (slot_body rebindings symtab strtab indirect_symbol_indices
                            indirect_symbol_bindings) 0 st1 with
  | Some f =>
      let st2 := flow_state f in
      Some (if isDataConst
            then mprotect indirect_symbol_bindings (size section)
                          (restored_protection oldProtection) st2
            else st2)
  | None => None
  end.

(* ================================================================== *)
(** * One image *)

(** What the first walk over the load commands leaves in
    [linkedit_segment], [symtab_cmd] and [dysymtab_cmd]: each is overwritten
    by every later command of its kind. *)
Record located : Type := mkLocated {
  linkedit_segment : option segment_command_t;
  symtab_cmd : option symtab_command;
  dysymtab_cmd : option dysymtab_command
}.

Definition locate_step (l : located) (cur_seg_cmd : load_command) : located :=
  match cur_seg_cmd with
  | LC_SEGMENT_ARCH_DEPENDENT seg =>
      if strcmp_eq (segname seg) SEG_LINKEDIT
      then mkLocated (Some seg) (symtab_cmd l) (dysymtab_cmd l)
      else l
  | LC_SYMTAB c => mkLocated (linkedit_segment l) (Some c) (dysymtab_cmd l)
  | LC_DYSYMTAB c => mkLocated (linkedit_segment l) (symtab_cmd l) (Some c)
  | LC_other _ => l
  end.

Definition locate (cmds : list load_command) : located :=
  fold_left locate_step cmds (mkLocated None None None).

(** The addresses derived from the located commands. *)
Definition linkedit_base (slide : Z) (seg : segment_command_t) : Z :=
  wrap64 (wrap64 (wrap64 slide + vmaddr seg) - fileoff seg).
Definition symtab_addr (base : Z) (c : symtab_command) : Z := wrap64 (base + symoff c).
Definition strtab_addr (base : Z) (c : symtab_command) : Z := wrap64 (base + stroff c).
Definition indirect_symtab_addr (base : Z) (c : dysymtab_command) : Z :=
  wrap64 (base + indirectsymoff c).

(** Body of [for (uint j = 0; j < cur_seg_cmd->nsects; j++)]. *)
Definition section_body (rebindings : list rebindings_entry)
           (slide symtab strtab indirect_symtab : Z)
           (sect : section_t) (st : process) : option process :=
  let ty := Z.land (flags sect) SECTION_TYPE in
  match (if ty =? S_LAZY_SYMBOL_POINTERS
         then perform_rebinding_with_section rebindings sect slide symtab
                                             strtab indirect_symtab st
         else Some st) with
  | Some st1 =>
      if ty =? S_NON_LAZY_SYMBOL_POINTERS
      then perform_rebinding_with_section rebindings sect slide symtab
                                          strtab indirect_symtab st1
      else Some st1
  | None => None
  end.

Fixpoint sections_loop (rebindings : list rebindings_entry)
         (slide symtab strtab indirect_symtab : Z)
         (sects : list section_t) (st : process) : option process :=
  match sects with
  | [] => Some st
  | sect :: rest =>
      match section_body rebindings slide symtab strtab indirect_symtab sect st with
      | Some st' =>
          sections_loop rebindings slide symtab strtab indirect_symtab rest st'
      | None => None
      end
  end.

(** Body of the second walk over the load commands. *)
Definition command_body (rebindings : list rebindings_entry)
           (slide symtab strtab indirect_symtab : Z)
           (cur_seg_cmd : load_command) (st : process) : option process :=
  match cur_seg_cmd with
  | LC_SEGMENT_ARCH_DEPENDENT seg =>
      if negb (strcmp_eq (segname seg) SEG_DATA)
         && negb (strcmp_eq (segname seg) SEG_DATA_CONST)
      then Some st
      else sections_loop rebindings slide symtab strtab indirect_symtab
                         (sections seg) st
  | _ => Some st
  end.

Fixpoint commands_loop (rebindings : list rebindings_entry)
         (slide symtab strtab indirect_symtab : Z)
         (cmds : list load_command) (st : process) : option process :=
  match cmds with
  | [] => Some st
  | c :: rest =>
      match command_body rebindings slide symtab strtab indirect_symtab c st with
      | Some st' =>
          commands_loop rebindings slide symtab strtab indirect_symtab rest st'
      | None => None
      end
  end.

Definition rebind_symbols_for_image (rebindings : list rebindings_entry)
           (header : mach_header) (slide : Z) (st : process) : option process :=
  if negb (dladdr st (header_addr header)) then Some st
  else
    let l := locate (commands header) in
    match symtab_cmd l, dysymtab_cmd l, linkedit_segment l with
    | Some sc, Some dc, Some le =>
        if wrap32 (nindirectsyms dc) =? 0 then Some st
        else
          let base := linkedit_base slide le in
          commands_loop rebindings slide (symtab_addr base sc)
                        (strtab_addr base sc) (indirect_symtab_addr base dc)
                        (commands header) st
    | _, _, _ => Some st
    end.

(* ================================================================== *)
(** * Entry points and the loader *)

Definition _rebind_symbols_for_image (header : mach_header) (slide : Z)
           (st : process) : option process :=
  rebind_symbols_for_image (_rebindings_head st) header slide st.

(** The registered function applied to a sequence of images, in order. *)
Fixpoint for_each_image (imgs : list (mach_header * Z)) (st : process)
  : option process :=
  match imgs with
  | [] => Some st
  | (header, slide) :: rest =>
      match _rebind_symbols_for_image header slide st with
      | Some st' => for_each_image rest st'
      | None => None
      end
  end.

(** [_dyld_register_func_for_add_image(_rebind_symbols_for_image)]: dyld
    records the function and calls it at once for every image already
    loaded. *)
Definition _dyld_register_func_for_add_image (st : process) : option process :=
  for_each_image (images st)
                 (set_add_image_funcs (Datatypes.S (add_image_funcs st)) st).

(** dyld maps a further image: every registered function is called for
    it. *)
Fixpoint call_add_image_funcs (n : nat) (header : mach_header) (slide : Z)
         (st : process) : option process :=
  match n with
  | O => Some st
  | Datatypes.S n' =>
      match _rebind_symbols_for_image header slide st with
      | Some st' => call_add_image_funcs n' header slide st'
      | None => None
      end
  end.

Definition dyld_add_image (header : mach_header) (slide : Z) (st : process)
  : option process :=
  call_add_image_funcs (add_image_funcs st) header slide
                       (set_images (images st ++ [(header, slide)]) st).

Definition rebind_symbols_image (new_entry new_array : Z)
           (header : mach_header) (slide : Z)
           (rebindings : list rebinding) (rebindings_nel : Z)
           (st : process) : option (Z * process) :=
  let rebindings_head : list rebindings_entry := [] in
  let '(retval, rebindings_head, st1) :=
    prepend_rebindings new_entry new_array rebindings_head rebindings
                       rebindings_nel st in
  match rebind_symbols_for_image rebindings_head header slide st1 with
  | Some st2 =>
      let st3 :=
        match rebindings_head with
        | e :: _ => free (rebindings_addr e) st2
        | [] => st2
        end in
      Some (retval, free (entry_ptr rebindings_head) st3)
  | None => None
  end.

Definition rebind_symbols (new_entry new_array : Z)
           (rebindings : list rebinding) (rebindings_nel : Z)
           (st : process) : option (Z * process) :=
  let '(retval, head, st1) :=
    prepend_rebindings new_entry new_array (_rebindings_head st) rebindings
                       rebindings_nel st in
  let st2 := set_rebindings_head head st1 in
  if retval <? 0 then Some (retval, st2)
  else
    match
      (match _rebindings_head st2 with
       | _ :: [] => _dyld_register_func_for_add_image st2
       | _ => for_each_image (images st2) st2
       end)
    with
    | Some st3 => Some (retval, st3)
    | None => None
    end.

(* ================================================================== *)
(** * Predicates and specification-side definitions *)

(** A registry node is well formed when its array has [rebindings_nel]
    elements and the count fits the [uint] counter of the scan. *)
Definition wf_entry (e : rebindings_entry) : Prop :=
  rebindings_nel e = Z.of_nat (length (rebindings e))
  /\ rebindings_nel e < 2 ^ 32.

(** The requests of a chain in the order of the scan. *)
Definition chain_requests (chain : list rebindings_entry) : list rebinding :=
  concat (map rebindings chain).

(** Lookup as the specification words it: the first request, newest batch
    first and in the order of the batch, whose name matches. *)
Definition spec_lookup (symbol_name : string) (batches : list (list rebinding))
  : option rebinding :=
  find (name_matches symbol_name) (concat batches).

(** Everything of a process except its pointer cells and its protections. *)
Definition env_of (st : process) :=
  (u32_at st, cstr_at st, allocated st, dladdr st, images st,
   add_image_funcs st, _rebindings_head st).

(** The sections of an image whose slot counts fit the counter. *)
Definition command_fits (c : load_command) : Prop :=
  match c with
  | LC_SEGMENT_ARCH_DEPENDENT seg =>
      Forall (fun s => section_slots s < 2 ^ 32) (sections seg)
  | _ => True
  end.

Definition image_fits (header : mach_header) : Prop :=
  Forall command_fits (commands header).

Definition has_linkedit (cmds : list load_command) : Prop :=
  exists seg, In (LC_SEGMENT_ARCH_DEPENDENT seg) cmds
              /\ segname seg = SEG_LINKEDIT.

Definition has_symtab (cmds : list load_command) : Prop :=
  exists c, In (LC_SYMTAB c) cmds.

Definition has_dysymtab (cmds : list load_command) : Prop :=
  exists c, In (LC_DYSYMTAB c) cmds.

(** The status and the pointers found at some addresses after a call. *)
Definition probe (addrs : list Z) (res : option (Z * process))
  : option (Z * list Z) :=
  match res with
  | Some (retval, st) => Some (retval, map (ptr_at st) addrs)
  | None => None
  end.

(** A call made in the process an earlier call left behind. *)
Definition and_then (res : option (Z * process))
           (call : process -> option (Z * process)) : option (Z * process) :=
  match res with
  | Some (_, st) => call st
  | None => None
  end.

(** The protections found at some addresses after a call. *)
Definition probe_prot (addrs : list Z) (res : option (Z * process))
  : option (list (option Z)) :=
  match res with
  | Some (_, st) => Some (map (vm_prot st) addrs)
  | None => None
  end.

(* ================================================================== *)
(** * A sample process

    One image, loaded with slide [0x4000].  Its [__DATA_CONST,__got]
    section has two slots, bound to [_close] and [_open]; its
    [__DATA,__la_symbol_ptr] section has three slots, bound to [_open], to a
    locally defined symbol and to [_write].  The registry nodes live on the
    heap, which is mapped read-write; [__DATA_CONST] is mapped read-only. *)

Module Sample.
Fixpoint assoc {A : Type} (l : list (Z * A)) (d : A) (a : Z) : A :=
  match l with
  | [] => d
  | (k, v) :: rest => if a =? k then v else assoc rest d a
  end.

Definition slide : Z := 0x4000.

Definition got : section_t :=
  mkSection "__got" "__DATA_CONST" 0x100004000 16 S_NON_LAZY_SYMBOL_POINTERS 0.
Definition la_symbol_ptr : section_t :=
  mkSection "__la_symbol_ptr" "__DATA" 0x100008000 24 S_LAZY_SYMBOL_POINTERS 2.

Definition text_seg : segment_command_t := mkSegment "__TEXT" 0x100000000 0 [].
Definition data_const_seg : segment_command_t :=
  mkSegment "__DATA_CONST" 0x100004000 0x4000 [got].
Definition data_seg : segment_command_t :=
  mkSegment "__DATA" 0x100008000 0x8000 [la_symbol_ptr].
Definition linkedit_seg : segment_command_t :=
  mkSegment "__LINKEDIT" 0x10000c000 0xc000 [].

Definition symtab_c : symtab_command := mkSymtab 0xc100 0xc300.
Definition dysymtab_c : dysymtab_command := mkDysymtab 0xc200 5.

Definition header : mach_header :=
  mkHeader 0x100004000
           [LC_SEGMENT_ARCH_DEPENDENT text_seg;
            LC_SEGMENT_ARCH_DEPENDENT data_const_seg;
            LC_SEGMENT_ARCH_DEPENDENT data_seg;
            LC_SEGMENT_ARCH_DEPENDENT linkedit_seg;
            LC_other 0x22;
            LC_SYMTAB symtab_c;
            LC_DYSYMTAB dysymtab_c].

(** Run-time addresses: link-edit base [0x100004000], symbol table
    [0x100010100], indirect symbol table [0x100010200], string table
    [0x100010300]. *)
Definition u32 : Z -> Z :=
  assoc [(0x100010200, 3); (0x100010204, 5);
         (0x100010208, 5); (0x10001020c, INDIRECT_SYMBOL_LOCAL);
         (0x100010210, 7);
         (0x100010130, 2); (0x100010150, 9); (0x100010170, 15)] 0.

Definition cstr : Z -> string :=
  assoc [(0x100010302, "_close"%string); (0x100010309, "_open"%string);
         (0x10001030f, "_write"%string)] EmptyString.

(** The functions of the system library. *)
Definition F_close : Z := 0x7fff20001000.
Definition F_open : Z := 0x7fff20002000.
Definition F_write : Z := 0x7fff20003000.

Definition got_slot (i : Z) : Z := 0x100008000 + 8 * i.
Definition la_slot (i : Z) : Z := 0x10000c000 + 8 * i.

Definition ptrs : Z -> Z :=
  assoc [(got_slot 0, F_close); (got_slot 1, F_open);
         (la_slot 0, F_open); (la_slot 1, 0x100007f00); (la_slot 2, F_write)] 0.

Definition prot (a : Z) : option Z :=
  if (0x100004000 <=? a) && (a <? 0x100008000) then Some 5
  else if (0x100008000 <=? a) && (a <? 0x10000c000) then Some VM_PROT_READ
  else if (0x10000c000 <=? a) && (a <? 0x100010000) then Some 3
  else if (0x100010000 <=? a) && (a <? 0x100014000) then Some VM_PROT_READ
  else if (0x600000000000 <=? a) && (a <? 0x600000100000) then Some 3
  else None.

Definition process0 : process :=
  mkProcess ptrs u32 cstr prot (fun _ => false)
            (fun a => a =? 0x100004000)
            [(header, slide)] 0 [].

(** Output slots in the caller's data and blocks [malloc] may return. *)
Definition O1 : Z := 0x10000d000.
Definition O2 : Z := 0x10000d008.
Definition node1 : Z := 0x600000001000.
Definition array1 : Z := 0x600000001020.
Definition node2 : Z := 0x600000002000.
Definition array2 : Z := 0x600000002020.

(** Replacement functions of the caller. *)
Definition R1 : Z := 0x100005000.
Definition R2 : Z := 0x100006000.
End Sample.

Definition sample_chain : list rebindings_entry :=
  [mkEntry Sample.node1 Sample.array1 [mkRebinding "open" Sample.R1 Sample.O1] 1].

Definition sample_chain_write : list rebindings_entry :=
  [mkEntry Sample.node1 Sample.array1 [mkRebinding "write" Sample.R1 Sample.O1] 1].

Definition sample_entry_write2 : rebindings_entry :=
  mkEntry Sample.node2 Sample.array2 [mkRebinding "write" Sample.R2 Sample.O2] 1.

(** A registration made before the sample image is loaded, then the load
    of the image. *)
Definition registration_then_load : option (Z * process) :=
  and_then
    (rebind_symbols Sample.node1 Sample.array1
                    [mkRebinding "open" Sample.R1 Sample.O1] 1
                    (set_images [] Sample.process0))
    (fun st =>
       match dyld_add_image Sample.header Sample.slide st with
       | Some st' => Some (0, st')
       | None => None
       end).

(** Two registrations for "write" in the sample process, each followed by
    its pass: [R1] with output slot [O1], then [R2] with output slot [O2]. *)
Definition two_registrations : option (Z * process) :=
  and_then
    (rebind_symbols Sample.node1 Sample.array1
                    [mkRebinding "write" Sample.R1 Sample.O1] 1 Sample.process0)
    (rebind_symbols Sample.node2 Sample.array2
                    [mkRebinding "write" Sample.R2 Sample.O2] 1).

(* ================================================================== *)
(** * Whole passes: what is patched and with what *)

(** The test of the second walk on a segment: its name is [__DATA] or
    [__DATA_CONST]. *)
Definition is_data_segment (seg : segment_command_t) : bool :=
  strcmp_eq (segname seg) SEG_DATA || strcmp_eq (segname seg) SEG_DATA_CONST.

(** The test of the second walk on a section: lazy or non-lazy symbol
    pointers. *)
Definition is_pointer_section (sect : section_t) : bool :=
  (Z.land (flags sect) SECTION_TYPE =? S_LAZY_SYMBOL_POINTERS)
  || (Z.land (flags sect) SECTION_TYPE =? S_NON_LAZY_SYMBOL_POINTERS).

(** The sections an image pass hands to the patcher, in the order of the
    load commands. *)
Definition patched_sections (cmds : list load_command) : list section_t :=
  flat_map (fun c =>
              match c with
              | LC_SEGMENT_ARCH_DEPENDENT seg =>
                  if is_data_segment seg
                  then filter is_pointer_section (sections seg)
                  else []
              | _ => []
              end) cmds.

(** One pass of the patcher after the other over a list of sections. *)
Fixpoint passes (rebs : list rebindings_entry)
         (slide symtab strtab indirect_symtab : Z)
         (sects : list section_t) (st : process) : option process :=
  match sects with
  | [] => Some st
  | sect :: rest =>
      match perform_rebinding_with_section rebs sect slide symtab strtab
                                           indirect_symtab st with
      | Some st' => passes rebs slide symtab strtab indirect_symtab rest st'
      | None => None
      end
  end.

(** The request the registry holds for slot [i] of a table: none for a
    reserved entry, otherwise the first request of the chain whose name
    matches the symbol of the slot. *)
Definition slot_match (rebs : list rebindings_entry)
           (symtab strtab indices i : Z) (st : process) : option rebinding :=
  let symtab_index := load_u32 st (ptr_add indices sizeof_uint32 i) in
  if is_sentinel symtab_index then None
  else find (name_matches (slot_symbol_name symtab strtab symtab_index st))
            (chain_requests rebs).

(** The loader holds the callback once when the registry is not empty and
    not at all when it is empty. *)
Definition registered_once (st : process) : Prop :=
  add_image_funcs st
  = match _rebindings_head st with
    | [] => 0%nat
    | _ :: _ => 1%nat
    end.

(** The sample image with its symbol pointer sections moved to a segment
    named [__AUTH_CONST]: the same load commands otherwise. *)
Definition sample_header_text_pointers : mach_header :=
  mkHeader 0x100004000
           [LC_SEGMENT_ARCH_DEPENDENT Sample.text_seg;
            LC_SEGMENT_ARCH_DEPENDENT
              (mkSegment "__AUTH_CONST" 0x100004000 0x4000
                         [Sample.got; Sample.la_symbol_ptr]);
            LC_SEGMENT_ARCH_DEPENDENT
              (mkSegment "__DATA" 0x100008000 0x8000
                         [mkSection "__data" "__DATA" 0x100008000 24 0 0]);
            LC_SEGMENT_ARCH_DEPENDENT Sample.linkedit_seg;
            LC_SYMTAB Sample.symtab_c;
            LC_DYSYMTAB Sample.dysymtab_c].

(** The sample image with a [__got] section of [2^35] bytes: [2^32] slots. *)
Definition sample_header_oversize : mach_header :=
  mkHeader 0x100004000
           [LC_SEGMENT_ARCH_DEPENDENT
              (mkSegment "__DATA_CONST" 0x100004000 0x4000
                         [mkSection "__got" "__DATA_CONST" 0x100004000
                                    0x800000000 S_NON_LAZY_SYMBOL_POINTERS 0]);
            LC_SEGMENT_ARCH_DEPENDENT Sample.linkedit_seg;
            LC_SYMTAB Sample.symtab_c;
            LC_DYSYMTAB Sample.dysymtab_c].

(** A function applied to the state a loop body leaves. *)
Definition flow_map {S : Type} (f : S -> S) (x : flow S) : flow S :=
  match x with
  | Continue s => Continue (f s)
  | Break s => Break (f s)
  end.

(* ================================================================== *)
(** * The machine: pages and access rights

    The definitions above treat [mprotect] as exact to the byte and let
    every store succeed.  The module below follows the same source with the
    kernel closer to what it is: [mprotect] works on whole pages, fails with
    [EINVAL] for a start that is no multiple of the page size and with
    [ENOMEM] for a range with an unmapped page (the program ignores the
    result), and a store into an address that is not writable ends the
    process, so the function does not return.  The page size is a parameter.

    Not represented: the maximum protection of a mapping (on a page
    boundary and within mapped pages [mprotect] succeeds), and faults of
    loads.  The link-edit tables are read through the views of the process;
    a page that can be written can be read on the machines concerned, so
    the loads of a slot are covered by the stores that follow them.  The
    registry is a value: the statements about the machine keep the stores
    clear of the blocks that hold it ([stores_apart]). *)

Module Machine.

(** The write bit of what [vm_prot] holds for an address. *)
Definition writable (p : option Z) : bool :=
  match p with
  | Some protection => Z.testbit protection 1
  | None => false
  end.

(** A store of a pointer; no result when the address cannot be written. *)
Definition store (a v : Z) (st : process) : option process :=
  if writable (vm_prot st a) then Some (store_ptr a v st) else None.

(** What is done with a matching request, as in the cell model, with the
    two stores of the source: [*(replaced) = indirect_symbol_bindings[i]]
    under its guard, then [indirect_symbol_bindings[i] = replacement]. *)
Definition apply_rebinding (slot : Z) (r : rebinding) (st : process)
  : option process :=
  match (if negb (replaced r =? NULL) && negb (ptr_at st slot =? replacement r)
         then store (replaced r) (ptr_at st slot) st
         else Some st) with
  | Some st1 => store slot (replacement r) st1
  | None => None
  end.

(** Body of [for (uint j = 0; j < cur->rebindings_nel; j++)]. *)
Definition entry_body (slot : Z) (symbol_name : string) (cur : rebindings_entry)
           (j : Z) (st : process) : option (flow process) :=
  if symbol_name_longer_than_1 symbol_name then
    match nth_error (rebindings cur) (Z.to_nat j) with
    | None => None
    | Some r =>
        if strcmp_eq (symbol_name_from_1 symbol_name) (name r)
        then match apply_rebinding slot r st with
             | Some st' => Some (Break st')
             | None => None
             end
        else Some (Continue st)
    end
  else Some (Continue st).

(** [while (cur) { for ... ; cur = cur->next; }], left through
    [goto symbol_loop] by the first match. *)
Fixpoint chain_loop (slot : Z) (symbol_name : string)
         (cur : list rebindings_entry) (st : process) : option process :=
  match cur with
  | [] => Some st
  | e :: next =>
      match for_uint (loop_fuel (rebindings_nel e)) (rebindings_nel e)
                     (entry_body slot symbol_name e) 0 st with
      | Some (Break st') => Some st'
      | Some (Continue st') => chain_loop slot symbol_name next st'
      | None => None
      end
  end.

(** Body of [for (uint i = 0; i < section->size / sizeof(void * ); i++)]. *)
Definition slot_body (rebindings : list rebindings_entry)
           (symtab strtab indirect_symbol_indices indirect_symbol_bindings : Z)
           (i : Z) (st : process) : option (flow process) :=
  let symtab_index := load_u32 st (ptr_add indirect_symbol_indices sizeof_uint32 i) in
  if is_sentinel symtab_index then Some (Continue st)
  else
    let symbol_name := slot_symbol_name symtab strtab symtab_index st in
    match chain_loop (ptr_add indirect_symbol_bindings sizeof_pointer i)
                     symbol_name rebindings st with
    | Some st' => Some (Continue st')
    | None => None
    end.

Section Pages.
Variable page_size : Z.

(** The end of the last page a range touches. *)
Definition round_page (a : Z) : Z :=
  page_size * ((a + page_size - 1) / page_size).

(** Every page of the range is mapped (looked up at its first address). *)
Definition mapped_range (start len : Z) (vp : Z -> option Z) : bool :=
  forallb (fun k => match vp (start + page_size * Z.of_nat k) with
                    | Some _ => true
                    | None => false
                    end)
          (seq 0 (Z.to_nat ((round_page (start + len) - start) / page_size))).

(** [mprotect(start, len, _)] succeeds: [start] is a multiple of the page
    size and no page of the range is unmapped.  The kernel checks the whole
    range before it changes any page. *)
Definition mprotect_ok (start len : Z) (vp : Z -> option Z) : bool :=
  (start mod page_size =? 0) && mapped_range start len vp.

(** The protections after [mprotect(start, len, prot)]: on success the
    mapped addresses of the pages of the range carry [prot]; on failure
    nothing changes. *)
Definition protect (start len prot : Z) (vp : Z -> option Z) : Z -> option Z :=
  if mprotect_ok start len vp then
    fun x => if (start <=? x) && (x <? round_page (start + len))
             then match vp x with
                  | Some _ => Some prot
                  | None => None
                  end
             else vp x
  else vp.

(** [mprotect]: the status ([0], or [-1] with [EINVAL] or [ENOMEM]) and the
    process. *)
Definition mprotect (start len prot : Z) (st : process) : Z * process :=
  (if mprotect_ok start len (vm_prot st) then 0 else -1,
   set_vm_prot (protect start len prot (vm_prot st)) st).

(** [perform_rebinding_with_section]: the status of the two calls of
    [mprotect] is dropped, as in the source. *)
Definition perform_rebinding_with_section (rebindings : list rebindings_entry)
           (section : section_t) (slide symtab strtab indirect_symtab : Z)
           (st : process) : option process :=
  let isDataConst := strcmp_eq (sect_segname section) SEG_DATA_CONST in
  let indirect_symbol_indices :=
    ptr_add indirect_symtab sizeof_uint32 (reserved1 section) in
  let indirect_symbol_bindings := section_bindings section slide in
  let oldProtection :=
    if isDataConst then get_protection (entry_ptr rebindings) st
    else VM_PROT_READ in
  let st1 :=
    if isDataConst
    then snd (mprotect indirect_symbol_bindings (size section)
                       (Z.lor PROT_READ PROT_WRITE) st)
    else st in
  match for_uint (loop_fuel (section_slots section)) (section_slots section)
                 (slot_body rebindings symtab strtab indirect_symbol_indices
                            indirect_symbol_bindings) 0 st1 with
  | Some f =>
      let st2 := flow_state f in
      Some (if isDataConst
            then snd (mprotect indirect_symbol_bindings (size section)
                               (restored_protection oldProtection) st2)
            else st2)
  | None => None
  end.

(** The second walk of [rebind_symbols_for_image], section by section and
    command by command, as in the cell model. *)
Definition section_body (rebindings : list rebindings_entry)
           (slide symtab strtab indirect_symtab : Z)
           (sect : section_t) (st : process) : option process :=
  let ty := Z.land (flags sect) SECTION_TYPE in
  match (if ty =? S_LAZY_SYMBOL_POINTERS
         then perform_rebinding_with_section rebindings sect slide symtab
                                             strtab indirect_symtab st
         else Some st) with
  | Some st1 =>
      if ty =? S_NON_LAZY_SYMBOL_POINTERS
      then perform_rebinding_with_section rebindings sect slide symtab
                                          strtab indirect_symtab st1
      else Some st1
  | None => None
  end.

Fixpoint sections_loop (rebindings : list rebindings_entry)
         (slide symtab strtab indirect_symtab : Z)
         (sects : list section_t) (st : process) : option process :=
  match sects with
  | [] => Some st
  | sect :: rest =>
      match section_body rebindings slide symtab strtab indirect_symtab sect st with
      | Some st' =>
          sections_loop rebindings slide symtab strtab indirect_symtab rest st'
      | None => None
      end
  end.

Definition command_body (rebindings : list rebindings_entry)
           (slide symtab strtab indirect_symtab : Z)
           (cur_seg_cmd : load_command) (st : process) : option process :=
  match cur_seg_cmd with
  | LC_SEGMENT_ARCH_DEPENDENT seg =>
      if negb (strcmp_eq (segname seg) SEG_DATA)
         && negb (strcmp_eq (segname seg) SEG_DATA_CONST)
      then Some st
      else sections_loop rebindings slide symtab strtab indirect_symtab
                         (sections seg) st
  | _ => Some st
  end.

Fixpoint commands_loop (rebindings : list rebindings_entry)
         (slide symtab strtab indirect_symtab : Z)
         (cmds : list load_command) (st : process) : option process :=
  match cmds with
  | [] => Some st
  | c :: rest =>
      match command_body rebindings slide symtab strtab indirect_symtab c st with
      | Some st' =>
          commands_loop rebindings slide symtab strtab indirect_symtab rest st'
      | None => None
      end
  end.

Definition rebind_symbols_for_image (rebindings : list rebindings_entry)
           (header : mach_header) (slide : Z) (st : process) : option process :=
  if negb (dladdr st (header_addr header)) then Some st
  else
    let l := locate (commands header) in
    match symtab_cmd l, dysymtab_cmd l, linkedit_segment l with
    | Some sc, Some dc, Some le =>
        if wrap32 (nindirectsyms dc) =? 0 then Some st
        else
          let base := linkedit_base slide le in
          commands_loop rebindings slide (symtab_addr base sc)
                        (strtab_addr base sc) (indirect_symtab_addr base dc)
                        (commands header) st
    | _, _, _ => Some st
    end.

(** One pass of the patcher after the other over a list of sections. *)
Fixpoint passes (rebs : list rebindings_entry)
         (slide symtab strtab indirect_symtab : Z)
         (sects : list section_t) (st : process) : option process :=
  match sects with
  | [] => Some st
  | sect :: rest =>
      match perform_rebinding_with_section rebs sect slide symtab strtab
                                           indirect_symtab st with
      | Some st' => passes rebs slide symtab strtab indirect_symtab rest st'
      | None => None
      end
  end.

(** The protections during the slot loop of a pass over a section. *)
Definition loop_protection (section : section_t) (slide : Z)
           (vp : Z -> option Z) : Z -> option Z :=
  if strcmp_eq (sect_segname section) SEG_DATA_CONST
  then protect (section_bindings section slide) (size section)
               (Z.lor PROT_READ PROT_WRITE) vp
  else vp.

(** Nothing the pass over a section stores can fail: the slots that are
    matched and the output slots of the registry can be written while the
    slot loop runs. *)
Definition pass_safe (rebs : list rebindings_entry) (section : section_t)
           (slide symtab strtab indirect_symtab : Z) (st : process) : Prop :=
  (forall i,
      0 <= i < section_slots section ->
      slot_match rebs symtab strtab
                 (ptr_add indirect_symtab sizeof_uint32 (reserved1 section))
                 i st <> None ->
      writable (loop_protection section slide (vm_prot st)
                  (ptr_add (section_bindings section slide) sizeof_pointer i))
      = true)
  /\ (forall r,
         In r (chain_requests rebs) ->
         replaced r = NULL
         \/ writable (loop_protection section slide (vm_prot st) (replaced r))
            = true).

(** Nothing the passes over a list of sections store can fail: the node at
    the head of the registry, whose protection the tables of [__DATA_CONST]
    are left with, can be written; so can every output slot of the registry;
    and every slot that is matched can be written, or is made writable by
    the first [mprotect] of the pass over its section. *)
Definition image_safe (rebs : list rebindings_entry)
           (slide symtab strtab indirect_symtab : Z) (sects : list section_t)
           (st : process) : Prop :=
  writable (vm_prot st (entry_ptr rebs)) = true
  /\ (forall sect i,
         In sect sects -> 0 <= i < section_slots sect ->
         slot_match rebs symtab strtab
                    (ptr_add indirect_symtab sizeof_uint32 (reserved1 sect))
                    i st <> None ->
         writable (loop_protection sect slide (vm_prot st)
                     (ptr_add (section_bindings sect slide) sizeof_pointer i))
         = true)
  /\ (forall r,
         In r (chain_requests rebs) ->
         replaced r = NULL \/ writable (vm_prot st (replaced r)) = true).
End Pages.

(** The protections of [s] against those of [st]: the same addresses are
    mapped, and what could be written can be written. *)
Definition protections_kept (st s : process) : Prop :=
  (forall x, vm_prot s x = None <-> vm_prot st x = None)
  /\ (forall x, writable (vm_prot st x) = true -> writable (vm_prot s x) = true).
End Machine.

(** Two processes with the same pointer cells and the same surroundings;
    their protections may differ. *)
Definition same_cells (s t : process) : Prop :=
  ptr_at s = ptr_at t /\ env_of s = env_of t.

(** Two loop outcomes of the same kind whose states are related. *)
Definition flow_rel {S T : Type} (Rel : S -> T -> Prop)
           (g : flow S) (h : flow T) : Prop :=
  match g, h with
  | Continue a, Continue b => Rel a b
  | Break a, Break b => Rel a b
  | _, _ => False
  end.

(** The pointer cells at [x] and [y] do not overlap. *)
Definition disjoint_cells (x y : Z) : Prop :=
  x + sizeof_pointer <= y \/ y + sizeof_pointer <= x.

(** The blocks that hold the registry: each node ([struct rebindings_entry],
    24 bytes) and its array of [rebindings_nel] requests
    ([struct rebinding], 24 bytes each). *)
Definition registry_blocks (chain : list rebindings_entry) : list (Z * Z) :=
  flat_map (fun e => [(entry_addr e, 24); (rebindings_addr e, 24 * rebindings_nel e)])
           chain.

(** The pointer cell at [a] lies outside every block of the registry. *)
Definition outside_registry (chain : list rebindings_entry) (a : Z) : Prop :=
  Forall (fun b => a + sizeof_pointer <= fst b \/ fst b + snd b <= a)
         (registry_blocks chain).

(** The cells a pass over a section may store into keep clear of each other
    and of the registry: no output slot overlaps a slot of the table, and
    neither the table nor an output slot reaches into a block of the
    registry.  The registry is a value here; inside these bounds the
    program's copy of it in memory is never written. *)
Definition stores_apart (rebs : list rebindings_entry) (section : section_t)
           (slide : Z) : Prop :=
  (forall r i,
      In r (chain_requests rebs) -> 0 <= i < section_slots section ->
      replaced r = NULL
      \/ disjoint_cells (replaced r)
                        (ptr_add (section_bindings section slide) sizeof_pointer i))
  /\ (forall r, In r (chain_requests rebs) ->
                replaced r = NULL \/ outside_registry rebs (replaced r))
  /\ (forall i, 0 <= i < section_slots section ->
                outside_registry rebs
                  (ptr_add (section_bindings section slide) sizeof_pointer i)).


(** The cell model and the machine side by side: the same pointer cells and
    surroundings, the machine under the protections [vp], the tables as in
    [st0]. *)
Definition side_by_side (vp : Z -> option Z) (st0 s sm : process) : Prop :=
  same_cells s sm /\ vm_prot sm = vp
  /\ u32_at s = u32_at st0 /\ cstr_at s = cstr_at st0.


(** The request for slot [i] of a table as the specification places the
    tables: the entry of the slot in the indirect symbol table at
    [indirect_symtab], [reserved1 + i] entries of four bytes in; its
    [nlist_64] of sixteen bytes in the symbol table at [symtab]; its name at
    the string table offset found there; and then the first request of the
    registry that the name matches.  All addresses are taken modulo [2^64]. *)
Definition spec_slot_request (rebs : list rebindings_entry)
           (symtab strtab indirect_symtab : Z) (section : section_t) (i : Z)
           (st : process) : option rebinding :=
  let entry :=
    u32_at st ((indirect_symtab + 4 * (reserved1 section + i)) mod 2 ^ 64)
    mod 2 ^ 32 in
  if is_sentinel entry then None
  else
    let strx := u32_at st ((symtab + 16 * entry) mod 2 ^ 64) mod 2 ^ 32 in
    find (name_matches (cstr_at st ((strtab + strx) mod 2 ^ 64)))
         (chain_requests rebs).

(** Every table of a list of sections keeps clear of the output slots and
    of the registry. *)
Definition image_stores_apart (rebs : list rebindings_entry)
           (sects : list section_t) (slide : Z) : Prop :=
  forall sect, In sect sects -> stores_apart rebs sect slide.


(** A registry [[e]] of one request [r0] at work on the sections [sects],
    started in [st] with the pointer [F] in every slot the request matches:
    in [s] each of these slots holds [F], or it holds the replacement and
    the output slot holds [F]. *)
Definition single_request_inv (r0 : rebinding) (e : rebindings_entry)
           (slide symtab strtab indirect_symtab : Z) (sects : list section_t)
           (F : Z) (st s : process) : Prop :=
  u32_at s = u32_at st /\ cstr_at s = cstr_at st
  /\ forall sect i,
      In sect sects -> 0 <= i < section_slots sect ->
      slot_match [e] symtab strtab
                 (ptr_add indirect_symtab sizeof_uint32 (reserved1 sect)) i st
      <> None ->
      ptr_at s (ptr_add (section_bindings sect slide) sizeof_pointer i) = F
      \/ (ptr_at s (ptr_add (section_bindings sect slide) sizeof_pointer i)
          = replacement r0
          /\ ptr_at s (replaced r0) = F).


(** The cell at hand lies below the two blocks of [sample_chain]. *)
Ltac far_from_registry :=
  unfold outside_registry;
  change (registry_blocks sample_chain)
    with [(Sample.node1, 24); (Sample.array1, 24 * 1)];
  constructor; [left; vm_compute; discriminate|];
  constructor; [left; vm_compute; discriminate|];
  constructor.


(** Whether a call returned. *)
Definition completes (res : option process) : bool :=
  match res with
  | Some _ => true
  | None => false
  end.

(** The [__got] section of the sample image moved sixteen bytes up: its
    table starts off a page boundary, in the read-only part of the sample
    process; its two slots are still bound to [_close] and [_open]. *)
Definition sample_got_unaligned : section_t :=
  mkSection "__got" "__DATA_CONST" 0x100004010 16 S_NON_LAZY_SYMBOL_POINTERS 0.

(* ================================================================== *)
(** * Loops with a 32-bit counter *)

Lemma wrap32_small (x : Z) : 0 <= x < 2 ^ 32 -> wrap32 x = x.
Proof. intros H. unfold wrap32. apply Z.mod_small. exact H. Qed.

Lemma wrap32_range (x : Z) : 0 <= wrap32 x < 2 ^ 32.
Proof. unfold wrap32. apply Z.mod_pos_bound. lia. Qed.

Lemma wrap64_small (x : Z) : 0 <= x < 2 ^ 64 -> wrap64 x = x.
Proof. intros H. unfold wrap64. apply Z.mod_small. exact H. Qed.

Lemma wrap64_range (x : Z) : 0 <= wrap64 x < 2 ^ 64.
Proof. unfold wrap64. apply Z.mod_pos_bound. lia. Qed.

Section ForUint.
Context {S : Type}.
Variable n : Z.
Variable body : Z -> S -> option (flow S).

Lemma for_uint_unfold (fuel : nat) (i : Z) (s : S) :
  for_uint (Datatypes.S fuel) n body i s
  = if i <? n then
      match body i s with
      | Some (Continue s') => for_uint fuel n body (wrap32 (i + 1)) s'
      | Some (Break s') => Some (Break s')
      | None => None
      end
    else Some (Continue s).
Proof. reflexivity. Qed.

(** More fuel does not change a result. *)
Lemma for_uint_fuel_mono (fuel : nat) :
  forall (extra : nat) (i : Z) (s : S) (r : flow S),
    for_uint fuel n body i s = Some r ->
    for_uint (fuel + extra) n body i s = Some r.
Proof.
  induction fuel as [|fuel IH]; intros extra i s r H; simpl in *.
  - discriminate.
  - destruct (i <? n); [|exact H].
    destruct (body i s) as [[s'|s']|]; try exact H.
    apply IH. exact H.
Qed.

Lemma for_uint_fuel_irrelevant (fuel fuel' : nat) (i : Z) (s : S) (r r' : flow S) :
  for_uint fuel n body i s = Some r ->
  for_uint fuel' n body i s = Some r' ->
  r = r'.
Proof.
  intros H H'.
  apply (for_uint_fuel_mono fuel fuel') in H.
  apply (for_uint_fuel_mono fuel' fuel) in H'.
  rewrite Nat.add_comm in H'. congruence.
Qed.

(** A property kept by every iteration holds when the loop is left. *)
Lemma for_uint_preserves (P : S -> Prop) :
  (forall j s f, P s -> body j s = Some f -> P (flow_state f)) ->
  forall (fuel : nat) (i : Z) (s : S) (r : flow S),
    P s -> for_uint fuel n body i s = Some r -> P (flow_state r).
Proof.
  intros Hbody. induction fuel as [|fuel IH]; intros i s r HP H; simpl in H.
  - discriminate.
  - destruct (i <? n).
    + destruct (body i s) as [[s'|s']|] eqn:Hb; try discriminate.
      * apply (IH _ _ _ (Hbody _ _ _ HP Hb) H).
      * inversion H; subst. apply (Hbody _ _ _ HP Hb).
    + inversion H; subst. exact HP.
Qed.

(** The same with the index in view, for a bound that fits the counter. *)
Lemma for_uint_preserves_indexed (P : S -> Prop) :
  n < 2 ^ 32 ->
  (forall j s f, 0 <= j < n -> P s -> body j s = Some f -> P (flow_state f)) ->
  forall (fuel : nat) (i : Z) (s : S) (r : flow S),
    0 <= i ->
    P s -> for_uint fuel n body i s = Some r -> P (flow_state r).
Proof.
  intros Hn Hbody. induction fuel as [|fuel IH]; intros i s r Hi HP H; simpl in H.
  - discriminate.
  - destruct (i <? n) eqn:Hlt.
    + apply Z.ltb_lt in Hlt.
      destruct (body i s) as [[s'|s']|] eqn:Hb; try discriminate.
      * rewrite wrap32_small in H by lia.
        apply (IH (i + 1) s' r); [lia| |exact H].
        apply (Hbody i s (Continue s')); [lia|exact HP|exact Hb].
      * inversion H; subst.
        apply (Hbody i s (Break s')); [lia|exact HP|exact Hb].
    + inversion H; subst. exact HP.
Qed.

(** A loop whose bound fits the counter and whose body returns does
    return, within [loop_fuel]. *)
Lemma for_uint_returns_from :
  n < 2 ^ 32 ->
  (forall j s, 0 <= j < n -> exists f, body j s = Some f) ->
  forall (k : nat) (i : Z) (s : S),
    0 <= i -> n - i <= Z.of_nat k ->
    exists r, for_uint (Datatypes.S k) n body i s = Some r.
Proof.
  intros Hn Hbody. induction k as [|k IH]; intros i s Hi Hk.
  - simpl. destruct (i <? n) eqn:Hlt.
    + apply Z.ltb_lt in Hlt. lia.
    + eexists; reflexivity.
  - rewrite for_uint_unfold. destruct (i <? n) eqn:Hlt.
    + apply Z.ltb_lt in Hlt.
      destruct (Hbody i s) as [f Hf]; [lia|]. rewrite Hf.
      destruct f as [s'|s'].
      * rewrite wrap32_small by lia. apply IH; lia.
      * eexists; reflexivity.
    + eexists; reflexivity.
Qed.

Lemma for_uint_returns :
  n < 2 ^ 32 ->
  (forall j s, 0 <= j < n -> exists f, body j s = Some f) ->
  forall s, exists r, for_uint (loop_fuel n) n body 0 s = Some r.
Proof.
  intros Hn Hbody s. unfold loop_fuel.
  apply for_uint_returns_from; try assumption; lia.
Qed.

(** A loop whose bound does not fit the counter is never left by the
    test [i < n]: if the body never jumps out, no amount of fuel gives a
    result. *)
Lemma for_uint_diverges :
  2 ^ 32 <= n ->
  (forall j s s', body j s <> Some (Break s')) ->
  forall (fuel : nat) (i : Z) (s : S),
    0 <= i < 2 ^ 32 -> for_uint fuel n body i s = None.
Proof.
  intros Hn Hbody. induction fuel as [|fuel IH]; intros i s Hi; simpl.
  - reflexivity.
  - destruct (i <? n) eqn:Hlt.
    + destruct (body i s) as [[s'|s']|] eqn:Hb.
      * apply IH. apply wrap32_range.
      * exfalso. apply (Hbody _ _ _ Hb).
      * reflexivity.
    + apply Z.ltb_ge in Hlt. lia.
Qed.

(** [loop_fuel] is enough for a bound that fits the counter: a result
    obtained with any fuel is obtained with [loop_fuel]. *)
Lemma for_uint_loop_fuel_from :
  n < 2 ^ 32 ->
  forall (fuel : nat) (i : Z) (s : S) (r : flow S),
    0 <= i ->
    for_uint fuel n body i s = Some r ->
    for_uint (Datatypes.S (Z.to_nat (n - i))) n body i s = Some r.
Proof.
  intros Hn. induction fuel as [|fuel IH]; intros i s r Hi H; [discriminate|].
  rewrite for_uint_unfold in *.
  destruct (i <? n) eqn:Hlt; [|exact H].
  apply Z.ltb_lt in Hlt.
  destruct (body i s) as [[s'|s']|]; try exact H.
  rewrite wrap32_small in * by lia.
  replace (Z.to_nat (n - i)) with (Datatypes.S (Z.to_nat (n - (i + 1)))) by lia.
  apply IH; [lia|exact H].
Qed.

Lemma for_uint_loop_fuel_enough :
  n < 2 ^ 32 ->
  forall (fuel : nat) (s : S) (r : flow S),
    for_uint fuel n body 0 s = Some r ->
    for_uint (loop_fuel n) n body 0 s = Some r.
Proof.
  intros Hn fuel s r H. unfold loop_fuel.
  replace (Z.to_nat n) with (Z.to_nat (n - 0)) by (f_equal; lia).
  apply (for_uint_loop_fuel_from Hn fuel); [lia|exact H].
Qed.

(** The steps of a loop while the body continues without changing the
    state: [k] such iterations from index [i] lead to index [i + k]. *)
Lemma for_uint_skip_continues (s : S) :
  2 ^ 32 <= n ->
  forall (k : nat) (i : Z) (fuel : nat),
    0 <= i < 2 ^ 32 -> i + Z.of_nat k <= 2 ^ 32 ->
    (forall j, i <= j < i + Z.of_nat k -> body j s = Some (Continue s)) ->
    for_uint (k + fuel) n body i s
    = for_uint fuel n body (wrap32 (i + Z.of_nat k)) s.
Proof.
  intros Hn. induction k as [|k IH]; intros i fuel Hi Hk Hc.
  - rewrite Z.add_0_r, wrap32_small by lia. reflexivity.
  - change (Datatypes.S k + fuel)%nat with (Datatypes.S (k + fuel)).
    rewrite for_uint_unfold.
    destruct (i <? n) eqn:Hlt; [|apply Z.ltb_ge in Hlt; lia].
    rewrite Hc by lia.
    destruct (Z.eq_dec (i + 1) (2 ^ 32)) as [E|E].
    + assert (k = O) by lia. subst k. reflexivity.
    + rewrite wrap32_small by lia. rewrite IH by (try lia; intros; apply Hc; lia).
      f_equal. f_equal. lia.
Qed.

(** With a bound that does not fit the counter, a body that leaves the
    state alone when it continues either jumps out (or fails) at a first
    index below [2^32], or continues at every index. *)
Lemma for_uint_first_exit (s : S) :
  (forall j s', body j s = Some (Continue s') -> s' = s) ->
  forall k : nat,
    (forall j, 0 <= j < Z.of_nat k -> body j s = Some (Continue s))
    \/ exists j0, 0 <= j0 < Z.of_nat k
                  /\ (forall j, 0 <= j < j0 -> body j s = Some (Continue s))
                  /\ body j0 s <> Some (Continue s).
Proof.
  intros Hpure. induction k as [|k [IH|(j0 & Hj0 & Hbefore & Hexit)]].
  - left. intros j Hj. lia.
  - destruct (body (Z.of_nat k) s) as [[s'|s']|] eqn:Hb.
    + left. intros j Hj. destruct (Z.eq_dec j (Z.of_nat k)) as [->|Hne].
      * rewrite Hb. f_equal. f_equal. apply (Hpure _ _ Hb).
      * apply IH. lia.
    + right. exists (Z.of_nat k). split; [lia|]. split; [exact IH|].
      rewrite Hb. discriminate.
    + right. exists (Z.of_nat k). split; [lia|]. split; [exact IH|].
      rewrite Hb. discriminate.
  - right. exists j0. split; [lia|]. split; assumption.
Qed.

(** [loop_fuel] is enough also for a bound that does not fit the counter,
    when the body leaves the state alone whenever it continues (the scan of
    a registry node): a result obtained with any fuel is obtained with
    [loop_fuel]. *)
Lemma for_uint_loop_fuel_enough_pure :
  2 ^ 32 <= n ->
  (forall j s s', body j s = Some (Continue s') -> s' = s) ->
  forall (fuel : nat) (s : S) (r : flow S),
    for_uint fuel n body 0 s = Some r ->
    for_uint (loop_fuel n) n body 0 s = Some r.
Proof.
  intros Hn Hpure fuel s r H.
  destruct (for_uint_first_exit s (fun j s' => Hpure j s s') (Z.to_nat (2 ^ 32)))
    as [Hall|(j0 & Hj0 & Hbefore & Hexit)].
  - exfalso.
    assert (Hdiv : forall (f : nat) (i : Z),
               0 <= i < 2 ^ 32 -> for_uint f n body i s = None).
    { induction f as [|f IHf]; intros i Hi; [reflexivity|].
      rewrite for_uint_unfold.
      destruct (i <? n) eqn:Hlt; [|apply Z.ltb_ge in Hlt; lia].
      rewrite Hall by lia. apply IHf. apply wrap32_range. }
    rewrite Hdiv in H by lia. discriminate.
  - assert (Hat : forall f,
               for_uint (Z.to_nat j0 + Datatypes.S f) n body 0 s
               = match body j0 s with
                 | Some (Break s') => Some (Break s')
                 | _ => None
                 end).
    { intros f.
      rewrite (for_uint_skip_continues s Hn (Z.to_nat j0) 0 (Datatypes.S f))
        by (try lia; intros j Hj; apply Hbefore; lia).
      rewrite wrap32_small by lia. replace (0 + Z.of_nat (Z.to_nat j0)) with j0 by lia.
      rewrite for_uint_unfold.
      destruct (j0 <? n) eqn:Hlt; [|apply Z.ltb_ge in Hlt; lia].
      destruct (body j0 s) as [[s'|s']|] eqn:Hb; try reflexivity.
      exfalso. apply Hexit. f_equal. f_equal. apply (Hpure _ _ _ Hb). }
    pose proof (for_uint_fuel_mono fuel (Z.to_nat j0 + 1) 0 s r H) as H1.
    replace (fuel + (Z.to_nat j0 + 1))%nat
      with (Z.to_nat j0 + Datatypes.S fuel)%nat in H1 by lia.
    rewrite Hat in H1.
    unfold loop_fuel.
    replace (Datatypes.S (Z.to_nat n))
      with (Z.to_nat j0 + Datatypes.S (Z.to_nat n - Z.to_nat j0))%nat by lia.
    rewrite Hat. exact H1.
Qed.

End ForUint.

(* ================================================================== *)
(** * The registry lookup *)

Lemma skipn_nth_error_cons {A : Type} (l : list A) :
  forall (i : nat) (x : A),
    nth_error l i = Some x -> skipn i l = x :: skipn (Datatypes.S i) l.
Proof.
  induction l as [|a l IH]; intros [|i] x H; simpl in *; try discriminate.
  - inversion H; reflexivity.
  - apply IH. exact H.
Qed.

Lemma entry_body_matches (slot : Z) (symbol_name : string) (cur : rebindings_entry)
      (j : Z) (st : process) (r : rebinding) :
  nth_error (rebindings cur) (Z.to_nat j) = Some r ->
  entry_body slot symbol_name cur j st
  = Some (if name_matches symbol_name r
          then Break (apply_rebinding slot r st)
          else Continue st).
Proof.
  intros Hr. unfold entry_body, name_matches. rewrite Hr.
  destruct (symbol_name_longer_than_1 symbol_name); simpl; [|reflexivity].
  destruct (strcmp_eq _ _); reflexivity.
Qed.

Lemma entry_loop_from (slot : Z) (symbol_name : string) (e : rebindings_entry)
      (st : process) :
  wf_entry e ->
  forall (k : nat) (j : Z),
    0 <= j -> rebindings_nel e - j <= Z.of_nat k ->
    for_uint (Datatypes.S k) (rebindings_nel e) (entry_body slot symbol_name e) j st
    = Some (match find (name_matches symbol_name)
                       (skipn (Z.to_nat j) (rebindings e)) with
            | Some r => Break (apply_rebinding slot r st)
            | None => Continue st
            end).
Proof.
  intros [Hlen Hfit]. induction k as [|k IH]; intros j Hj Hk;
    rewrite for_uint_unfold; destruct (j <? rebindings_nel e) eqn:Hlt.
  - apply Z.ltb_lt in Hlt. lia.
  - apply Z.ltb_ge in Hlt. rewrite skipn_all2 by lia. reflexivity.
  - apply Z.ltb_lt in Hlt.
    destruct (nth_error (rebindings e) (Z.to_nat j)) as [r|] eqn:Hr.
    + rewrite (entry_body_matches _ _ _ _ _ _ Hr).
      rewrite (skipn_nth_error_cons _ _ _ Hr). cbn [find].
      destruct (name_matches symbol_name r); [reflexivity|].
      cbv beta iota.
      rewrite wrap32_small by lia. rewrite IH by lia.
      replace (Z.to_nat (j + 1)) with (Datatypes.S (Z.to_nat j)) by lia.
      reflexivity.
    + apply nth_error_None in Hr. lia.
  - apply Z.ltb_ge in Hlt. rewrite skipn_all2 by lia. reflexivity.
Qed.

Lemma entry_loop_find (slot : Z) (symbol_name : string) (e : rebindings_entry)
      (st : process) :
  wf_entry e ->
  for_uint (loop_fuel (rebindings_nel e)) (rebindings_nel e)
           (entry_body slot symbol_name e) 0 st
  = Some (match find (name_matches symbol_name) (rebindings e) with
          | Some r => Break (apply_rebinding slot r st)
          | None => Continue st
          end).
Proof.
  intros Hwf. unfold loop_fuel.
  rewrite (entry_loop_from slot symbol_name e st Hwf) by lia.
  reflexivity.
Qed.

Lemma find_app {A : Type} (f : A -> bool) (l1 l2 : list A) :
  find f (l1 ++ l2)
  = match find f l1 with Some x => Some x | None => find f l2 end.
Proof.
  induction l1 as [|a l1 IH]; simpl; [reflexivity|].
  destruct (f a); [reflexivity|exact IH].
Qed.

(** The scan of the chain applies the first matching request of
    [chain_requests], and nothing else. *)
Lemma chain_loop_find (slot : Z) (symbol_name : string) :
  forall (chain : list rebindings_entry) (st : process),
    Forall wf_entry chain ->
    chain_loop slot symbol_name chain st
    = Some (match find (name_matches symbol_name) (chain_requests chain) with
            | Some r => apply_rebinding slot r st
            | None => st
            end).
Proof.
  induction chain as [|e chain IH]; intros st Hwf.
  - reflexivity.
  - inversion Hwf as [|? ? He Hchain]; subst.
    cbn [chain_loop]. rewrite (entry_loop_find _ _ _ _ He).
    unfold chain_requests in *. cbn [map concat]. rewrite find_app.
    destruct (find (name_matches symbol_name) (rebindings e)); [reflexivity|].
    apply IH. exact Hchain.
Qed.

(** A match in the head node wins, whatever follows in the chain. *)
Lemma chain_loop_head_match (slot : Z) (symbol_name : string)
      (e : rebindings_entry) (next : list rebindings_entry) (r : rebinding)
      (st : process) :
  wf_entry e ->
  find (name_matches symbol_name) (rebindings e) = Some r ->
  chain_loop slot symbol_name (e :: next) st = Some (apply_rebinding slot r st).
Proof.
  intros Hwf Hr. cbn [chain_loop].
  rewrite (entry_loop_find _ _ _ _ Hwf), Hr. reflexivity.
Qed.

(** A successful registration yields a well-formed node when the caller's
    array has at least [nel] elements and [nel] fits 32 bits. *)
Lemma prepend_rebindings_wf (new_entry new_array : Z)
      (head : list rebindings_entry) (rebs : list rebinding) (nel : Z)
      (st : process) (head' : list rebindings_entry) (st' : process) :
  0 <= nel <= Z.of_nat (length rebs) -> nel < 2 ^ 32 ->
  Forall wf_entry head ->
  prepend_rebindings new_entry new_array head rebs nel st = (0, head', st') ->
  Forall wf_entry head'.
Proof.
  intros Hnel Hfit Hwf H. unfold prepend_rebindings in H.
  destruct (new_entry =? NULL); [inversion H|].
  destruct (new_array =? NULL); [inversion H|].
  inversion H; subst. constructor; [|exact Hwf].
  split; simpl; [|exact Hfit].
  rewrite length_firstn. lia.
Qed.

(* ================================================================== *)
(** * What a pass can change *)

Lemma env_of_store_ptr (a v : Z) (st : process) :
  env_of (store_ptr a v st) = env_of st.
Proof. reflexivity. Qed.

Lemma env_of_mprotect (start len prot : Z) (st : process) :
  env_of (mprotect start len prot st) = env_of st.
Proof. reflexivity. Qed.

Lemma env_of_apply_rebinding (slot : Z) (r : rebinding) (st : process) :
  env_of (apply_rebinding slot r st) = env_of st.
Proof.
  unfold apply_rebinding.
  destruct (negb (replaced r =? NULL) && negb (ptr_at st slot =? replacement r));
    reflexivity.
Qed.

Lemma vm_prot_apply_rebinding (slot : Z) (r : rebinding) (st : process) :
  vm_prot (apply_rebinding slot r st) = vm_prot st.
Proof.
  unfold apply_rebinding.
  destruct (negb (replaced r =? NULL) && negb (ptr_at st slot =? replacement r));
    reflexivity.
Qed.

(** The cells a matching request writes: the slot and the output slot. *)
Lemma ptr_at_apply_rebinding_other (slot : Z) (r : rebinding) (st : process) (a : Z) :
  a <> slot -> a <> replaced r ->
  ptr_at (apply_rebinding slot r st) a = ptr_at st a.
Proof.
  intros Hs Hr. unfold apply_rebinding.
  destruct (negb (replaced r =? NULL) && negb (ptr_at st slot =? replacement r));
    simpl.
  - destruct (a =? slot) eqn:E1; [apply Z.eqb_eq in E1; contradiction|].
    destruct (a =? replaced r) eqn:E2; [apply Z.eqb_eq in E2; contradiction|].
    reflexivity.
  - destruct (a =? slot) eqn:E1; [apply Z.eqb_eq in E1; contradiction|].
    reflexivity.
Qed.

Lemma ptr_at_apply_rebinding_slot (slot : Z) (r : rebinding) (st : process) :
  ptr_at (apply_rebinding slot r st) slot = replacement r.
Proof.
  unfold apply_rebinding.
  destruct (negb (replaced r =? NULL) && negb (ptr_at st slot =? replacement r));
    simpl; rewrite Z.eqb_refl; reflexivity.
Qed.

Lemma entry_body_cases (slot : Z) (symbol_name : string) (e : rebindings_entry)
      (j : Z) (st : process) (f : flow process) :
  entry_body slot symbol_name e j st = Some f ->
  f = Continue st
  \/ exists r, In r (rebindings e) /\ name_matches symbol_name r = true
               /\ f = Break (apply_rebinding slot r st).
Proof.
  unfold entry_body, name_matches. intros H.
  destruct (symbol_name_longer_than_1 symbol_name); [|inversion H; auto].
  destruct (nth_error (rebindings e) (Z.to_nat j)) as [r|] eqn:Hr; [|discriminate].
  destruct (strcmp_eq _ (name r)) eqn:Hcmp; inversion H; subst; [|auto].
  right. exists r. repeat split; [|exact Hcmp].
  apply (nth_error_In _ _ Hr).
Qed.

Lemma entry_loop_cases (slot : Z) (symbol_name : string) (e : rebindings_entry)
      (st : process) :
  forall (fuel : nat) (j : Z) (f : flow process),
    for_uint fuel (rebindings_nel e) (entry_body slot symbol_name e) j st = Some f ->
    f = Continue st
    \/ exists r, In r (rebindings e) /\ name_matches symbol_name r = true
                 /\ f = Break (apply_rebinding slot r st).
Proof.
  induction fuel as [|fuel IH]; intros j f H; [discriminate|].
  rewrite for_uint_unfold in H.
  destruct (j <? rebindings_nel e); [|inversion H; auto].
  destruct (entry_body slot symbol_name e j st) as [g|] eqn:Hb; [|discriminate].
  destruct (entry_body_cases _ _ _ _ _ _ Hb) as [->|(r & Hin & Hm & ->)].
  - apply (IH _ _ H).
  - inversion H; subst. right. exists r. auto.
Qed.

Lemma chain_loop_cases (slot : Z) (symbol_name : string) :
  forall (chain : list rebindings_entry) (st st' : process),
    chain_loop slot symbol_name chain st = Some st' ->
    st' = st
    \/ exists r, In r (chain_requests chain) /\ name_matches symbol_name r = true
                 /\ st' = apply_rebinding slot r st.
Proof.
  induction chain as [|e chain IH]; intros st st' H; cbn [chain_loop] in H.
  - inversion H; auto.
  - destruct (for_uint _ _ _ _ _) as [f|] eqn:Hf; [|discriminate].
    unfold chain_requests. cbn [map concat].
    destruct (entry_loop_cases _ _ _ _ _ _ _ Hf) as [->|(r & Hin & Hm & ->)].
    + destruct (IH _ _ H) as [->|(r & Hin & Hm & ->)]; [auto|].
      right. exists r. repeat split; [|exact Hm].
      apply in_or_app. right. exact Hin.
    + inversion H; subst. right. exists r. repeat split; [|exact Hm].
      apply in_or_app. left. exact Hin.
Qed.

Lemma slot_body_cases (rebs : list rebindings_entry)
      (symtab strtab indices bindings i : Z) (st : process) (f : flow process) :
  slot_body rebs symtab strtab indices bindings i st = Some f ->
  exists st', f = Continue st' /\
    (st' = st
     \/ is_sentinel (load_u32 st (ptr_add indices sizeof_uint32 i)) = false
        /\ exists r, In r (chain_requests rebs)
             /\ name_matches
                  (slot_symbol_name symtab strtab
                     (load_u32 st (ptr_add indices sizeof_uint32 i)) st) r = true
             /\ st' = apply_rebinding (ptr_add bindings sizeof_pointer i) r st).
Proof.
  unfold slot_body. intros H.
  destruct (is_sentinel _) eqn:Hs.
  - inversion H; subst. eexists; split; [reflexivity|auto].
  - destruct (chain_loop _ _ _ _) as [st'|] eqn:Hc; [|discriminate].
    inversion H; subst. exists st'. split; [reflexivity|].
    destruct (chain_loop_cases _ _ _ _ _ Hc) as [->|(r & Hin & Hm & ->)]; [auto|].
    right. split; [reflexivity|]. exists r. auto.
Qed.

(** The slot loop never jumps out. *)
Lemma slot_body_no_break (rebs : list rebindings_entry)
      (symtab strtab indices bindings i : Z) (st st' : process) :
  slot_body rebs symtab strtab indices bindings i st <> Some (Break st').
Proof.
  intros H. destruct (slot_body_cases _ _ _ _ _ _ _ _ H) as (s & Hs & _).
  discriminate.
Qed.

(** The slot loop keeps everything but pointer cells. *)
Lemma slot_loop_env (rebs : list rebindings_entry)
      (symtab strtab indices bindings n : Z) :
  forall (fuel : nat) (i : Z) (st : process) (f : flow process),
    for_uint fuel n (slot_body rebs symtab strtab indices bindings) i st = Some f ->
    env_of (flow_state f) = env_of st /\ vm_prot (flow_state f) = vm_prot st.
Proof.
  intros fuel i st f H.
  apply (for_uint_preserves n (slot_body rebs symtab strtab indices bindings)
           (fun s => env_of s = env_of st /\ vm_prot s = vm_prot st))
    with (fuel := fuel) (i := i) (s := st); [|auto|exact H].
  intros j s g [He Hp] Hb.
  destruct (slot_body_cases _ _ _ _ _ _ _ _ Hb) as (s' & -> & [->|(_ & r & _ & _ & ->)]);
    cbn [flow_state]; [auto|].
  rewrite env_of_apply_rebinding, vm_prot_apply_rebinding. auto.
Qed.

Lemma perform_rebinding_with_section_env (rebs : list rebindings_entry)
      (section : section_t) (slide symtab strtab indirect_symtab : Z)
      (st st' : process) :
  perform_rebinding_with_section rebs section slide symtab strtab indirect_symtab st
  = Some st' ->
  env_of st' = env_of st.
Proof.
  unfold perform_rebinding_with_section. intros H.
  destruct (for_uint _ _ _ _ _) as [f|] eqn:Hf; [|discriminate].
  apply slot_loop_env in Hf. destruct Hf as [He _].
  inversion H; subst.
  destruct (strcmp_eq (sect_segname section) SEG_DATA_CONST);
    [rewrite env_of_mprotect|]; rewrite He; reflexivity.
Qed.

(* ================================================================== *)
(** * Termination of a pass *)

Lemma chain_loop_returns (slot : Z) (symbol_name : string)
      (chain : list rebindings_entry) (st : process) :
  Forall wf_entry chain ->
  exists st', chain_loop slot symbol_name chain st = Some st'.
Proof.
  intros Hwf. rewrite chain_loop_find by exact Hwf. eexists; reflexivity.
Qed.

Lemma slot_body_returns (rebs : list rebindings_entry)
      (symtab strtab indices bindings i : Z) (st : process) :
  Forall wf_entry rebs ->
  exists f, slot_body rebs symtab strtab indices bindings i st = Some f.
Proof.
  intros Hwf. unfold slot_body.
  destruct (is_sentinel _); [eexists; reflexivity|].
  destruct (chain_loop_returns (ptr_add bindings sizeof_pointer i)
              (slot_symbol_name symtab strtab
                 (load_u32 st (ptr_add indices sizeof_uint32 i)) st) rebs st Hwf)
    as [st' Hst'].
  rewrite Hst'. eexists; reflexivity.
Qed.

(** A pass over a section returns when the registry is well formed and the
    number of slots fits the [uint] counter. *)
Lemma perform_rebinding_with_section_returns (rebs : list rebindings_entry)
      (section : section_t) (slide symtab strtab indirect_symtab : Z)
      (st : process) :
  Forall wf_entry rebs ->
  section_slots section < 2 ^ 32 ->
  exists st',
    perform_rebinding_with_section rebs section slide symtab strtab
                                   indirect_symtab st = Some st'.
Proof.
  intros Hwf Hfit. unfold perform_rebinding_with_section.
  match goal with
  | |- context [for_uint ?fu ?n ?b 0 ?s0] =>
      destruct (for_uint_returns n b Hfit
                  (fun j s1 _ => slot_body_returns _ _ _ _ _ j s1 Hwf) s0) as [f Hf]
  end.
  rewrite Hf. eexists; reflexivity.
Qed.

(** With [2^32] slots or more the counter [i] wraps before it reaches the
    bound: the pass does not return, whatever the fuel. *)
Lemma slot_loop_diverges (rebs : list rebindings_entry)
      (symtab strtab indices bindings n : Z) (fuel : nat) (st : process) :
  2 ^ 32 <= n ->
  for_uint fuel n (slot_body rebs symtab strtab indices bindings) 0 st = None.
Proof.
  intros Hn. apply for_uint_diverges; [exact Hn| |lia].
  intros j s s'. apply slot_body_no_break.
Qed.

Lemma perform_rebinding_with_section_diverges (rebs : list rebindings_entry)
      (section : section_t) (slide symtab strtab indirect_symtab : Z)
      (st : process) :
  2 ^ 32 <= section_slots section ->
  perform_rebinding_with_section rebs section slide symtab strtab
                                 indirect_symtab st = None.
Proof.
  intros Hn. unfold perform_rebinding_with_section.
  rewrite slot_loop_diverges by exact Hn. reflexivity.
Qed.

Section ImagePass.
Variable rebs : list rebindings_entry.
Variables slide symtab strtab indirect_symtab : Z.

(** A property kept by every pass over a section is kept by the walk. *)
Variable P : process -> Prop.
Hypothesis P_section :
  forall sect s s',
    P s ->
    perform_rebinding_with_section rebs sect slide symtab strtab
                                   indirect_symtab s = Some s' ->
    P s'.

Lemma section_body_preserves (sect : section_t) (st st' : process) :
  P st ->
  section_body rebs slide symtab strtab indirect_symtab sect st = Some st' ->
  P st'.
Proof.
  unfold section_body. intros HP H.
  destruct (Z.land (flags sect) SECTION_TYPE =? S_LAZY_SYMBOL_POINTERS).
  - destruct (perform_rebinding_with_section _ _ _ _ _ _ st) as [s1|] eqn:H1;
      [|discriminate].
    apply P_section in H1; [|exact HP].
    destruct (Z.land (flags sect) SECTION_TYPE =? S_NON_LAZY_SYMBOL_POINTERS).
    + apply (P_section _ _ _ H1 H).
    + inversion H; subst. exact H1.
  - destruct (Z.land (flags sect) SECTION_TYPE =? S_NON_LAZY_SYMBOL_POINTERS).
    + apply (P_section _ _ _ HP H).
    + inversion H; subst. exact HP.
Qed.

Lemma sections_loop_preserves :
  forall (sects : list section_t) (st st' : process),
    P st ->
    sections_loop rebs slide symtab strtab indirect_symtab sects st = Some st' ->
    P st'.
Proof.
  induction sects as [|sect rest IH]; intros st st' HP H; cbn [sections_loop] in H.
  - inversion H; subst. exact HP.
  - destruct (section_body _ _ _ _ _ sect st) as [s1|] eqn:H1; [|discriminate].
    apply (IH _ _ (section_body_preserves _ _ _ HP H1) H).
Qed.

Lemma commands_loop_preserves :
  forall (cmds : list load_command) (st st' : process),
    P st ->
    commands_loop rebs slide symtab strtab indirect_symtab cmds st = Some st' ->
    P st'.
Proof.
  induction cmds as [|c rest IH]; intros st st' HP H; cbn [commands_loop] in H.
  - inversion H; subst. exact HP.
  - destruct (command_body _ _ _ _ _ c st) as [s1|] eqn:H1; [|discriminate].
    apply (IH s1 st'); [|exact H].
    unfold command_body in H1. destruct c as [seg| | |]; try (inversion H1; subst; exact HP).
    destruct (negb _ && negb _); [inversion H1; subst; exact HP|].
    apply (sections_loop_preserves _ _ _ HP H1).
Qed.
End ImagePass.

Lemma rebind_symbols_for_image_preserves (P : process -> Prop)
      (rebs : list rebindings_entry) (header : mach_header) (slide : Z) :
  (forall sect symtab strtab indirect_symtab s s',
      P s ->
      perform_rebinding_with_section rebs sect slide symtab strtab
                                     indirect_symtab s = Some s' ->
      P s') ->
  forall st st',
    P st -> rebind_symbols_for_image rebs header slide st = Some st' -> P st'.
Proof.
  intros HP st st' Hst H. unfold rebind_symbols_for_image in H.
  destruct (negb (dladdr st (header_addr header))); [inversion H; subst; exact Hst|].
  destruct (symtab_cmd _) as [sc|]; [|inversion H; subst; exact Hst].
  destruct (dysymtab_cmd _) as [dc|]; [|inversion H; subst; exact Hst].
  destruct (linkedit_segment _) as [le|]; [|inversion H; subst; exact Hst].
  destruct (wrap32 (nindirectsyms dc) =? 0); [inversion H; subst; exact Hst|].
  eapply commands_loop_preserves; [|exact Hst|exact H].
  intros sect s s'. apply HP.
Qed.

Section ImageReturns.
Variable rebs : list rebindings_entry.
Variables slide symtab strtab indirect_symtab : Z.
Hypothesis rebs_wf : Forall wf_entry rebs.

Lemma section_body_returns (sect : section_t) (st : process) :
  section_slots sect < 2 ^ 32 ->
  exists st',
    section_body rebs slide symtab strtab indirect_symtab sect st = Some st'.
Proof.
  intros Hfit. unfold section_body.
  destruct (Z.land (flags sect) SECTION_TYPE =? S_LAZY_SYMBOL_POINTERS).
  - destruct (perform_rebinding_with_section_returns rebs sect slide symtab
                strtab indirect_symtab st rebs_wf Hfit) as [s1 H1].
    rewrite H1.
    destruct (Z.land (flags sect) SECTION_TYPE =? S_NON_LAZY_SYMBOL_POINTERS).
    + apply perform_rebinding_with_section_returns; assumption.
    + eexists; reflexivity.
  - destruct (Z.land (flags sect) SECTION_TYPE =? S_NON_LAZY_SYMBOL_POINTERS).
    + apply perform_rebinding_with_section_returns; assumption.
    + eexists; reflexivity.
Qed.

Lemma sections_loop_returns :
  forall (sects : list section_t) (st : process),
    Forall (fun s => section_slots s < 2 ^ 32) sects ->
    exists st',
      sections_loop rebs slide symtab strtab indirect_symtab sects st = Some st'.
Proof.
  induction sects as [|sect rest IH]; intros st Hfit; cbn [sections_loop].
  - eexists; reflexivity.
  - inversion Hfit as [|? ? Hs Hrest]; subst.
    destruct (section_body_returns sect st Hs) as [s1 H1]. rewrite H1.
    apply IH. exact Hrest.
Qed.

Lemma commands_loop_returns :
  forall (cmds : list load_command) (st : process),
    Forall command_fits cmds ->
    exists st',
      commands_loop rebs slide symtab strtab indirect_symtab cmds st = Some st'.
Proof.
  induction cmds as [|c rest IH]; intros st Hfit; cbn [commands_loop].
  - eexists; reflexivity.
  - inversion Hfit as [|? ? Hc Hrest]; subst.
    assert (exists s1, command_body rebs slide symtab strtab indirect_symtab c st
                       = Some s1) as [s1 H1].
    { unfold command_body. destruct c as [seg| | |]; try (eexists; reflexivity).
      destruct (negb _ && negb _); [eexists; reflexivity|].
      apply sections_loop_returns. exact Hc. }
    rewrite H1. apply IH. exact Hrest.
Qed.
End ImageReturns.

(** [loop_fuel] loses no result of the two loops: what any amount of fuel
    gives, [loop_fuel] gives. *)
Lemma entry_loop_fuel_adequate (slot : Z) (symbol_name : string)
      (e : rebindings_entry) (st : process) (fuel : nat) (r : flow process) :
  for_uint fuel (rebindings_nel e) (entry_body slot symbol_name e) 0 st = Some r ->
  for_uint (loop_fuel (rebindings_nel e)) (rebindings_nel e)
           (entry_body slot symbol_name e) 0 st = Some r.
Proof.
  intros H.
  destruct (Z.lt_ge_cases (rebindings_nel e) (2 ^ 32)) as [Hn|Hn].
  - apply (for_uint_loop_fuel_enough _ _ Hn fuel). exact H.
  - apply (for_uint_loop_fuel_enough_pure _ _ Hn) with (fuel := fuel); [|exact H].
    intros j s s' Hb.
    destruct (entry_body_cases _ _ _ _ _ _ Hb) as [E|(r0 & _ & _ & E)];
      inversion E; reflexivity.
Qed.

Lemma slot_loop_fuel_adequate (rebs : list rebindings_entry)
      (symtab strtab indices bindings n : Z) (st : process)
      (fuel : nat) (r : flow process) :
  for_uint fuel n (slot_body rebs symtab strtab indices bindings) 0 st = Some r ->
  for_uint (loop_fuel n) n (slot_body rebs symtab strtab indices bindings) 0 st
  = Some r.
Proof.
  intros H.
  destruct (Z.lt_ge_cases n (2 ^ 32)) as [Hn|Hn].
  - apply (for_uint_loop_fuel_enough _ _ Hn fuel). exact H.
  - rewrite slot_loop_diverges in H by exact Hn. discriminate.
Qed.

(** The pass over an image returns when the registry is well formed and
    the slot counts of the image fit the counter. *)
Lemma rebind_symbols_for_image_returns (rebs : list rebindings_entry)
      (header : mach_header) (slide : Z) (st : process) :
  Forall wf_entry rebs -> image_fits header ->
  exists st', rebind_symbols_for_image rebs header slide st = Some st'.
Proof.
  intros Hwf Hfit. unfold rebind_symbols_for_image.
  destruct (negb (dladdr st (header_addr header))); [eexists; reflexivity|].
  destruct (symtab_cmd _) as [sc|]; [|eexists; reflexivity].
  destruct (dysymtab_cmd _) as [dc|]; [|eexists; reflexivity].
  destruct (linkedit_segment _) as [le|]; [|eexists; reflexivity].
  destruct (wrap32 (nindirectsyms dc) =? 0); [eexists; reflexivity|].
  apply commands_loop_returns; assumption.
Qed.

Lemma rebind_symbols_for_image_env (rebs : list rebindings_entry)
      (header : mach_header) (slide : Z) (st st' : process) :
  rebind_symbols_for_image rebs header slide st = Some st' ->
  env_of st' = env_of st.
Proof.
  apply (rebind_symbols_for_image_preserves (fun s => env_of s = env_of st));
    [|reflexivity].
  intros sect symtab strtab ind s s' Hs H.
  rewrite (perform_rebinding_with_section_env _ _ _ _ _ _ _ _ H). exact Hs.
Qed.

(* ================================================================== *)
(** * Registration *)

(** C8: when the allocation of the registry node or of the copied request
    array fails, [rebind_symbols] returns the negative status [-1] and the
    global chain head is the one from before the call; no pointer cell, no
    protection and no loader registration has changed, and no block is left
    allocated. *)
Theorem rebind_symbols_allocation_failure
        (new_entry new_array : Z) (rebs : list rebinding) (nel : Z) (st : process) :
  new_entry = NULL \/ new_array = NULL ->
  exists retval st',
    rebind_symbols new_entry new_array rebs nel st = Some (retval, st')
    /\ retval = -1 /\ retval < 0
    /\ _rebindings_head st' = _rebindings_head st
    /\ ptr_at st' = ptr_at st
    /\ vm_prot st' = vm_prot st
    /\ add_image_funcs st' = add_image_funcs st
    /\ (forall x, allocated st' x = true -> allocated st x = true).
Proof.
  intros Hfail. unfold rebind_symbols, prepend_rebindings.
  destruct (new_entry =? NULL) eqn:He.
  - eexists; eexists. split; [reflexivity|].
    unfold malloc_returns. rewrite He. simpl. repeat split; auto; lia.
  - destruct Hfail as [->| ->]; [discriminate He|].
    change (NULL =? NULL) with true. cbv beta iota.
    eexists; eexists. split; [reflexivity|].
    unfold malloc_returns, free. rewrite He.
    change (NULL =? NULL) with true. cbv beta iota.
    repeat split; try lia. simpl.
    intros x. destruct (x =? new_entry); [discriminate|auto].
Qed.

Lemma rebind_symbols_allocation_failure_witness :
  exists retval st',
    rebind_symbols Sample.node1 NULL [mkRebinding "open" Sample.R1 Sample.O1] 1
                   Sample.process0 = Some (retval, st')
    /\ retval = -1 /\ retval < 0
    /\ _rebindings_head st' = _rebindings_head Sample.process0
    /\ ptr_at st' = ptr_at Sample.process0
    /\ vm_prot st' = vm_prot Sample.process0
    /\ add_image_funcs st' = add_image_funcs Sample.process0
    /\ (forall x, allocated st' x = true -> allocated Sample.process0 x = true).
Proof.
  apply rebind_symbols_allocation_failure. right. reflexivity.
Defined.

(* ================================================================== *)
(** * Matching of names *)

Lemma symbol_name_longer_than_1_iff (symbol_name : string) :
  symbol_name_longer_than_1 symbol_name = true
  <-> exists c rest, symbol_name = String c rest /\ rest <> EmptyString.
Proof.
  split.
  - destruct symbol_name as [|c [|c' rest]]; simpl; try discriminate.
    intros _. exists c, (String c' rest). split; [reflexivity|discriminate].
  - intros (c & rest & -> & Hne). destruct rest; [contradiction|reflexivity].
Qed.

Lemma name_matches_iff (symbol_name : string) (r : rebinding) :
  name_matches symbol_name r = true
  <-> exists c rest,
        symbol_name = String c rest /\ rest <> EmptyString /\ rest = name r.
Proof.
  unfold name_matches, strcmp_eq. rewrite andb_true_iff, String.eqb_eq.
  rewrite symbol_name_longer_than_1_iff. split.
  - intros [(c & rest & -> & Hne) Heq]. exists c, rest. auto.
  - intros (c & rest & -> & Hne & Heq). split; [|exact Heq].
    exists c, rest. auto.
Qed.

(** C5: a request at index [j] of a batch is matched exactly when the symbol
    name, with its first character stripped, is a non-empty string equal to
    the name of the request; otherwise the scan goes on with the process
    untouched.  A symbol name of exactly one character matches no request. *)
Theorem symbol_name_matched_without_first_character
        (slot : Z) (symbol_name : string) (cur : rebindings_entry) (j : Z)
        (st : process) (r : rebinding) :
  nth_error (rebindings cur) (Z.to_nat j) = Some r ->
  (entry_body slot symbol_name cur j st = Some (Break (apply_rebinding slot r st))
   <-> exists c rest,
         symbol_name = String c rest /\ rest <> EmptyString /\ rest = name r)
  /\ (entry_body slot symbol_name cur j st = Some (Break (apply_rebinding slot r st))
      \/ entry_body slot symbol_name cur j st = Some (Continue st))
  /\ (forall c : ascii,
         entry_body slot (String c EmptyString) cur j st = Some (Continue st)).
Proof.
  intros Hr. rewrite (entry_body_matches _ _ _ _ _ _ Hr).
  rewrite <- name_matches_iff.
  split; [|split].
  - destruct (name_matches symbol_name r); split; intros H;
      try reflexivity; discriminate.
  - destruct (name_matches symbol_name r); auto.
  - intros c. reflexivity.
Qed.

Lemma symbol_name_matched_without_first_character_witness :
  (entry_body (Sample.la_slot 0) "_open"
              (mkEntry Sample.node1 Sample.array1
                       [mkRebinding "close" Sample.R2 NULL;
                        mkRebinding "open" Sample.R1 Sample.O1] 2)
              1 Sample.process0
   = Some (Break (apply_rebinding (Sample.la_slot 0)
                                  (mkRebinding "open" Sample.R1 Sample.O1)
                                  Sample.process0))
   <-> exists c rest,
         "_open"%string = String c rest /\ rest <> EmptyString
         /\ rest = "open"%string)
  /\ (entry_body (Sample.la_slot 0) "_open"
                 (mkEntry Sample.node1 Sample.array1
                          [mkRebinding "close" Sample.R2 NULL;
                           mkRebinding "open" Sample.R1 Sample.O1] 2)
                 1 Sample.process0
      = Some (Break (apply_rebinding (Sample.la_slot 0)
                                     (mkRebinding "open" Sample.R1 Sample.O1)
                                     Sample.process0))
      \/ entry_body (Sample.la_slot 0) "_open"
                    (mkEntry Sample.node1 Sample.array1
                             [mkRebinding "close" Sample.R2 NULL;
                              mkRebinding "open" Sample.R1 Sample.O1] 2)
                    1 Sample.process0
         = Some (Continue Sample.process0))
  /\ (forall c : ascii,
         entry_body (Sample.la_slot 0) (String c EmptyString)
                    (mkEntry Sample.node1 Sample.array1
                             [mkRebinding "close" Sample.R2 NULL;
                              mkRebinding "open" Sample.R1 Sample.O1] 2)
                    1 Sample.process0
         = Some (Continue Sample.process0)).
Proof.
  apply (symbol_name_matched_without_first_character
           (Sample.la_slot 0) "_open"
           (mkEntry Sample.node1 Sample.array1
                    [mkRebinding "close" Sample.R2 NULL;
                     mkRebinding "open" Sample.R1 Sample.O1] 2)
           1 Sample.process0 (mkRebinding "open" Sample.R1 Sample.O1)).
  reflexivity.
Defined.

(* ================================================================== *)
(** * Sentinel entries of the indirect symbol table *)

Lemma is_sentinel_iff (symtab_index : Z) :
  is_sentinel symtab_index = true
  <-> symtab_index = INDIRECT_SYMBOL_ABS
      \/ symtab_index = INDIRECT_SYMBOL_LOCAL
      \/ symtab_index = Z.lor INDIRECT_SYMBOL_LOCAL INDIRECT_SYMBOL_ABS.
Proof.
  unfold is_sentinel. rewrite !orb_true_iff, !Z.eqb_eq. tauto.
Qed.

(** C6: a slot whose indirect symbol table entry is one of the three
    reserved values is skipped.  Whatever the registry, the symbol table and
    the string table are, the iteration for that slot goes on to the next
    slot with the process exactly as it was: the entry is not used to index
    the symbol table, no name is compared and no pointer cell is written. *)
Theorem sentinel_slot_is_skipped
        (rebs : list rebindings_entry)
        (symtab strtab indirect_symbol_indices indirect_symbol_bindings i : Z)
        (st : process) :
  load_u32 st (ptr_add indirect_symbol_indices sizeof_uint32 i) = INDIRECT_SYMBOL_ABS
  \/ load_u32 st (ptr_add indirect_symbol_indices sizeof_uint32 i) = INDIRECT_SYMBOL_LOCAL
  \/ load_u32 st (ptr_add indirect_symbol_indices sizeof_uint32 i)
     = Z.lor INDIRECT_SYMBOL_LOCAL INDIRECT_SYMBOL_ABS ->
  slot_body rebs symtab strtab indirect_symbol_indices indirect_symbol_bindings i st
  = Some (Continue st)
  /\ forall rebs' symtab' strtab',
      slot_body rebs' symtab' strtab' indirect_symbol_indices
                indirect_symbol_bindings i st
      = slot_body rebs symtab strtab indirect_symbol_indices
                  indirect_symbol_bindings i st.
Proof.
  intros H. apply is_sentinel_iff in H. unfold slot_body. rewrite H.
  split; reflexivity.
Qed.

Lemma sentinel_slot_is_skipped_witness :
  slot_body [mkEntry Sample.node1 Sample.array1
                     [mkRebinding EmptyString Sample.R1 Sample.O1] 1]
            0x100010100 0x100010300 0x100010208 0x10000c000 1 Sample.process0
  = Some (Continue Sample.process0)
  /\ forall rebs' symtab' strtab',
      slot_body rebs' symtab' strtab' 0x100010208 0x10000c000 1 Sample.process0
      = slot_body [mkEntry Sample.node1 Sample.array1
                           [mkRebinding EmptyString Sample.R1 Sample.O1] 1]
                  0x100010100 0x100010300 0x100010208 0x10000c000 1
                  Sample.process0.
Proof.
  apply sentinel_slot_is_skipped. right. left. reflexivity.
Defined.

(* ================================================================== *)
(** * Images without the required commands *)

Lemma locate_step_keeps (l : located) (c : load_command) :
  (linkedit_segment l <> None -> linkedit_segment (locate_step l c) <> None)
  /\ (symtab_cmd l <> None -> symtab_cmd (locate_step l c) <> None)
  /\ (dysymtab_cmd l <> None -> dysymtab_cmd (locate_step l c) <> None).
Proof.
  destruct c as [seg|c|c|k]; simpl; try (repeat split; auto; discriminate).
  destruct (strcmp_eq (segname seg) SEG_LINKEDIT); simpl;
    repeat split; auto; discriminate.
Qed.

Lemma locate_fold_keeps (cmds : list load_command) :
  forall l,
    (linkedit_segment l <> None ->
     linkedit_segment (fold_left locate_step cmds l) <> None)
    /\ (symtab_cmd l <> None -> symtab_cmd (fold_left locate_step cmds l) <> None)
    /\ (dysymtab_cmd l <> None ->
        dysymtab_cmd (fold_left locate_step cmds l) <> None).
Proof.
  induction cmds as [|c cmds IH]; intros l; simpl; [auto|].
  destruct (IH (locate_step l c)) as (H1 & H2 & H3).
  destruct (locate_step_keeps l c) as (K1 & K2 & K3).
  repeat split; auto.
Qed.

(** What the first walk finds is found in the list. *)
Lemma locate_fold_found (cmds : list load_command) :
  forall l,
    (linkedit_segment (fold_left locate_step cmds l) <> None ->
     linkedit_segment l <> None \/ has_linkedit cmds)
    /\ (symtab_cmd (fold_left locate_step cmds l) <> None ->
        symtab_cmd l <> None \/ has_symtab cmds)
    /\ (dysymtab_cmd (fold_left locate_step cmds l) <> None ->
        dysymtab_cmd l <> None \/ has_dysymtab cmds).
Proof.
  unfold has_linkedit, has_symtab, has_dysymtab.
  induction cmds as [|c cmds IH]; intros l; simpl; [auto|].
  destruct (IH (locate_step l c)) as (H1 & H2 & H3).
  repeat split; intros H.
  - destruct (H1 H) as [K|(seg & Hin & Hn)]; [|right; exists seg; auto].
    destruct c as [seg|c|c|k]; simpl in K; auto.
    destruct (strcmp_eq (segname seg) SEG_LINKEDIT) eqn:E; auto.
    right. exists seg. split; [auto|]. apply String.eqb_eq. exact E.
  - destruct (H2 H) as [K|(c' & Hin)]; [|right; exists c'; auto].
    destruct c as [seg|c|c|k]; simpl in K; auto.
    + destruct (strcmp_eq (segname seg) SEG_LINKEDIT); auto.
    + right. exists c. auto.
  - destruct (H3 H) as [K|(c' & Hin)]; [|right; exists c'; auto].
    destruct c as [seg|c|c|k]; simpl in K; auto.
    + destruct (strcmp_eq (segname seg) SEG_LINKEDIT); auto.
    + right. exists c. auto.
Qed.

(** What is in the list is found by the first walk. *)
Lemma locate_present (cmds : list load_command) :
  (has_linkedit cmds -> linkedit_segment (locate cmds) <> None)
  /\ (has_symtab cmds -> symtab_cmd (locate cmds) <> None)
  /\ (has_dysymtab cmds -> dysymtab_cmd (locate cmds) <> None).
Proof.
  unfold locate, has_linkedit, has_symtab, has_dysymtab.
  repeat split.
  - intros (seg & Hin & Hn). apply in_split in Hin.
    destruct Hin as (l1 & l2 & ->). rewrite fold_left_app. cbn [fold_left].
    apply (locate_fold_keeps l2). cbn [locate_step].
    apply String.eqb_eq in Hn. unfold strcmp_eq. rewrite Hn. discriminate.
  - intros (c & Hin). apply in_split in Hin.
    destruct Hin as (l1 & l2 & ->). rewrite fold_left_app. cbn [fold_left].
    apply (locate_fold_keeps l2). discriminate.
  - intros (c & Hin). apply in_split in Hin.
    destruct Hin as (l1 & l2 & ->). rewrite fold_left_app. cbn [fold_left].
    apply (locate_fold_keeps l2). discriminate.
Qed.

Lemma locate_missing (cmds : list load_command) :
  (~ has_linkedit cmds -> linkedit_segment (locate cmds) = None)
  /\ (~ has_symtab cmds -> symtab_cmd (locate cmds) = None)
  /\ (~ has_dysymtab cmds -> dysymtab_cmd (locate cmds) = None).
Proof.
  unfold locate.
  destruct (locate_fold_found cmds (mkLocated None None None)) as (H1 & H2 & H3).
  simpl in H1, H2, H3.
  repeat split; intros Hno.
  - destruct (linkedit_segment _) eqn:E; [|reflexivity].
    destruct H1 as [K|K]; [discriminate|contradiction|contradiction].
  - destruct (symtab_cmd _) eqn:E; [|reflexivity].
    destruct H2 as [K|K]; [discriminate|contradiction|contradiction].
  - destruct (dysymtab_cmd _) eqn:E; [|reflexivity].
    destruct H3 as [K|K]; [discriminate|contradiction|contradiction].
Qed.

(** C7: for an image that lacks the link-edit segment command, the symbol
    table command or the dynamic symbol table command, or whose dynamic
    symbol table command has an indirect symbol count of zero, the pass over
    the image returns and leaves the process as it was; in particular no
    pointer cell is written. *)
Theorem incomplete_image_is_skipped
        (rebs : list rebindings_entry) (header : mach_header) (slide : Z)
        (st : process) :
  ~ has_linkedit (commands header)
  \/ ~ has_symtab (commands header)
  \/ ~ has_dysymtab (commands header)
  \/ (exists dc, dysymtab_cmd (locate (commands header)) = Some dc
                 /\ nindirectsyms dc = 0) ->
  rebind_symbols_for_image rebs header slide st = Some st.
Proof.
  intros H. unfold rebind_symbols_for_image.
  destruct (negb (dladdr st (header_addr header))); [reflexivity|].
  destruct (locate_missing (commands header)) as (L1 & L2 & L3).
  destruct H as [H|[H|[H|(dc & Hdc & Hz)]]].
  - rewrite (L1 H). destruct (symtab_cmd _); [|reflexivity].
    destruct (dysymtab_cmd _); reflexivity.
  - rewrite (L2 H). reflexivity.
  - rewrite (L3 H). destruct (symtab_cmd _); reflexivity.
  - rewrite Hdc, Hz. destruct (symtab_cmd _); [|reflexivity].
    destruct (linkedit_segment _); reflexivity.
Qed.

Lemma incomplete_image_is_skipped_witness :
  rebind_symbols_for_image
    [mkEntry Sample.node1 Sample.array1 [mkRebinding "open" Sample.R1 Sample.O1] 1]
    (mkHeader 0x100004000
              [LC_SEGMENT_ARCH_DEPENDENT Sample.data_seg;
               LC_SEGMENT_ARCH_DEPENDENT Sample.linkedit_seg;
               LC_SYMTAB Sample.symtab_c])
    Sample.slide Sample.process0
  = Some Sample.process0.
Proof.
  apply incomplete_image_is_skipped.
  right. right. left. intros (c & [H|[H|[H|[]]]]); discriminate H.
Defined.

(* ================================================================== *)
(** * Order of the lookup *)

Lemma prepend_rebindings_success (new_entry new_array : Z)
      (head : list rebindings_entry) (rebs : list rebinding) (nel : Z)
      (st : process) (head' : list rebindings_entry) (st' : process) :
  prepend_rebindings new_entry new_array head rebs nel st = (0, head', st') ->
  exists e, head' = e :: head
            /\ rebindings e = firstn (Z.to_nat nel) rebs
            /\ rebindings_nel e = nel
            /\ entry_addr e = new_entry /\ new_entry <> NULL.
Proof.
  unfold prepend_rebindings. intros H.
  destruct (new_entry =? NULL) eqn:He; [inversion H|].
  destruct (new_array =? NULL); [inversion H|].
  inversion H; subst. eexists. repeat split.
  intros Hn. rewrite Hn in He. discriminate He.
Qed.

(** C3: for a slot with symbol name [symbol_name], the scan of a well-formed
    chain applies the first matching request in the order "batches from the
    head of the chain, requests of a batch in their original order", and
    nothing else: it equals the lookup of the specification over the batches
    of the chain.  A successful registration puts its batch at the head of
    the chain, so a match in the newest batch wins over every older one and
    older batches are only consulted when the newest has no match. *)
Theorem lookup_scans_newest_batch_first
        (slot : Z) (symbol_name : string) (chain : list rebindings_entry)
        (st : process) :
  Forall wf_entry chain ->
  chain_loop slot symbol_name chain st
  = Some (match spec_lookup symbol_name (map rebindings chain) with
          | Some r => apply_rebinding slot r st
          | None => st
          end)
  /\ forall new_entry new_array rebs nel st0 chain' st1,
      0 <= nel <= Z.of_nat (length rebs) -> nel < 2 ^ 32 ->
      prepend_rebindings new_entry new_array chain rebs nel st0
      = (0, chain', st1) ->
      map rebindings chain' = firstn (Z.to_nat nel) rebs :: map rebindings chain
      /\ chain_loop slot symbol_name chain' st
         = match find (name_matches symbol_name) (firstn (Z.to_nat nel) rebs) with
           | Some r => Some (apply_rebinding slot r st)
           | None => chain_loop slot symbol_name chain st
           end.
Proof.
  intros Hwf. split; [apply chain_loop_find; exact Hwf|].
  intros new_entry new_array rebs nel st0 chain' st1 Hnel Hfit Hp.
  assert (Hwf' : Forall wf_entry chain')
    by (eapply prepend_rebindings_wf; eassumption).
  destruct (prepend_rebindings_success _ _ _ _ _ _ _ _ Hp)
    as (e & -> & He & _).
  split; [cbn [map]; rewrite He; reflexivity|].
  rewrite (chain_loop_find _ _ _ _ Hwf'), (chain_loop_find _ _ _ _ Hwf).
  unfold chain_requests. cbn [map concat]. rewrite find_app, He.
  destruct (find _ (firstn _ rebs)); reflexivity.
Qed.

Lemma lookup_scans_newest_batch_first_witness :
  chain_loop (Sample.la_slot 2) "_write"
             [mkEntry Sample.node1 Sample.array1
                      [mkRebinding "write" Sample.R1 Sample.O1] 1]
             Sample.process0
  = Some (apply_rebinding (Sample.la_slot 2)
                          (mkRebinding "write" Sample.R1 Sample.O1)
                          Sample.process0)
  /\ map rebindings
         [mkEntry Sample.node2 Sample.array2
                  [mkRebinding "open" Sample.R2 NULL;
                   mkRebinding "write" Sample.R2 Sample.O2] 2;
          mkEntry Sample.node1 Sample.array1
                  [mkRebinding "write" Sample.R1 Sample.O1] 1]
     = [[mkRebinding "open" Sample.R2 NULL;
         mkRebinding "write" Sample.R2 Sample.O2];
        [mkRebinding "write" Sample.R1 Sample.O1]]
  /\ chain_loop (Sample.la_slot 2) "_write"
                [mkEntry Sample.node2 Sample.array2
                         [mkRebinding "open" Sample.R2 NULL;
                          mkRebinding "write" Sample.R2 Sample.O2] 2;
                 mkEntry Sample.node1 Sample.array1
                         [mkRebinding "write" Sample.R1 Sample.O1] 1]
                Sample.process0
     = Some (apply_rebinding (Sample.la_slot 2)
                             (mkRebinding "write" Sample.R2 Sample.O2)
                             Sample.process0).
Proof.
  destruct (lookup_scans_newest_batch_first
              (Sample.la_slot 2) "_write"
              [mkEntry Sample.node1 Sample.array1
                       [mkRebinding "write" Sample.R1 Sample.O1] 1]
              Sample.process0) as [H1 H2].
  - repeat constructor; simpl; lia.
  - split; [exact H1|].
    apply (H2 Sample.node2 Sample.array2
              [mkRebinding "open" Sample.R2 NULL;
               mkRebinding "write" Sample.R2 Sample.O2]
              2 Sample.process0 _
              (malloc_returns Sample.array2
                              (malloc_returns Sample.node2 Sample.process0)));
      [simpl; lia|lia|reflexivity].
Defined.

(* ================================================================== *)
(** * The single-image entry point *)




Lemma env_of_fields (st st' : process) :
  env_of st' = env_of st ->
  allocated st' = allocated st /\ _rebindings_head st' = _rebindings_head st.
Proof. unfold env_of. intros H. inversion H. auto. Qed.

(** What [prepend_rebindings] does to the process: pointer cells, the
    global head and the loader are not touched. *)
Lemma prepend_rebindings_process (new_entry new_array : Z)
      (head : list rebindings_entry) (rebs : list rebinding) (nel : Z)
      (st : process) (retval : Z) (head' : list rebindings_entry) (st' : process) :
  prepend_rebindings new_entry new_array head rebs nel st = (retval, head', st') ->
  ptr_at st' = ptr_at st /\ vm_prot st' = vm_prot st
  /\ _rebindings_head st' = _rebindings_head st
  /\ (retval = 0 \/ retval = -1)
  /\ (retval = -1 ->
      (new_entry = NULL \/ new_array = NULL) /\ head' = head
      /\ forall x, allocated st' x = true -> allocated st x = true)
  /\ (retval = 0 ->
      new_entry <> NULL /\ new_array <> NULL
      /\ head' = mkEntry new_entry new_array (firstn (Z.to_nat nel) rebs) nel :: head
      /\ forall x, allocated st' x = true ->
                   x = new_entry \/ x = new_array \/ allocated st x = true).
Proof.
  unfold prepend_rebindings, malloc_returns, free. intros H.
  destruct (new_entry =? NULL) eqn:He.
  - inversion H; subst. repeat split; auto; try discriminate.
    left. apply Z.eqb_eq. exact He.
  - destruct (new_array =? NULL) eqn:Ha; inversion H; subst; rewrite ?He;
      repeat split; auto; try discriminate.
    + right. apply Z.eqb_eq. exact Ha.
    + simpl. intros x. destruct (x =? new_entry); [discriminate|auto].
    + intros Hn. rewrite Hn in He. discriminate He.
    + intros Hn. rewrite Hn in Ha. discriminate Ha.
    + simpl. intros x.
      destruct (x =? new_array) eqn:E1; [apply Z.eqb_eq in E1; auto|].
      destruct (x =? new_entry) eqn:E2; [apply Z.eqb_eq in E2; auto|auto].
Qed.


Lemma sample_header_fits : image_fits Sample.header.
Proof.
  unfold image_fits, Sample.header.
  repeat constructor; unfold section_slots; simpl; reflexivity.
Qed.


(* ================================================================== *)
(** * Addresses *)

Lemma wrap64_add_l (x y : Z) : wrap64 (wrap64 x + y) = wrap64 (x + y).
Proof. unfold wrap64. apply Zplus_mod_idemp_l. Qed.

Lemma wrap64_sub_l (x y : Z) : wrap64 (wrap64 x - y) = wrap64 (x - y).
Proof. unfold wrap64. apply Zminus_mod_idemp_l. Qed.

Lemma linkedit_base_eq (slide : Z) (seg : segment_command_t) :
  linkedit_base slide seg = (slide + vmaddr seg - fileoff seg) mod 2 ^ 64.
Proof.
  unfold linkedit_base. rewrite wrap64_sub_l.
  replace (wrap64 slide + vmaddr seg - fileoff seg)
    with (wrap64 slide + (vmaddr seg - fileoff seg)) by ring.
  rewrite wrap64_add_l. unfold wrap64. f_equal. ring.
Qed.

Lemma slot_address_eq (section : section_t) (slide i : Z) :
  ptr_add (section_bindings section slide) sizeof_pointer i
  = (slide + addr section + 8 * i) mod 2 ^ 64.
Proof.
  unfold ptr_add, section_bindings, sizeof_pointer.
  rewrite !wrap64_add_l.
  replace (wrap64 slide + addr section + 8 * i)
    with (wrap64 slide + (addr section + 8 * i)) by ring.
  rewrite wrap64_add_l. unfold wrap64. f_equal. ring.
Qed.

Lemma sample_chain_wf : Forall wf_entry sample_chain.
Proof. repeat constructor; simpl; lia. Qed.

(* ================================================================== *)
(** * The cells a pass leaves alone *)

Lemma ptr_add_pointer_inj (b i j : Z) :
  0 <= i < 2 ^ 32 -> 0 <= j < 2 ^ 32 ->
  ptr_add b sizeof_pointer i = ptr_add b sizeof_pointer j -> i = j.
Proof.
  unfold ptr_add, wrap64, sizeof_pointer. intros Hi Hj H.
  pose proof (Z.div_mod (b + 8 * i) (2 ^ 64) ltac:(lia)) as Di.
  pose proof (Z.div_mod (b + 8 * j) (2 ^ 64) ltac:(lia)) as Dj.
  rewrite H in Di.
  assert (E : 8 * i - 8 * j
              = 2 ^ 64 * ((b + 8 * i) / 2 ^ 64 - (b + 8 * j) / 2 ^ 64)) by lia.
  change (2 ^ 32) with 4294967296 in *.
  change (2 ^ 64) with 18446744073709551616 in *.
  lia.
Qed.

(** A cell that is no output slot of the registry, and that is not a slot of
    the table unless that slot carries a reserved value, keeps its pointer
    through the slot loop. *)
Lemma slot_loop_frame (rebs : list rebindings_entry)
      (symtab strtab indices bindings n a : Z) (st : process) :
  n < 2 ^ 32 ->
  (forall i, 0 <= i < n -> ptr_add bindings sizeof_pointer i = a ->
             is_sentinel (load_u32 st (ptr_add indices sizeof_uint32 i)) = true) ->
  (forall r, In r (chain_requests rebs) -> replaced r <> a) ->
  forall (fuel : nat) (f : flow process),
    for_uint fuel n (slot_body rebs symtab strtab indices bindings) 0 st = Some f ->
    ptr_at (flow_state f) a = ptr_at st a.
Proof.
  intros Hn Hslots Hout fuel f H.
  assert (HP : u32_at (flow_state f) = u32_at st
               /\ ptr_at (flow_state f) a = ptr_at st a); [|apply HP].
  apply (for_uint_preserves_indexed n
           (slot_body rebs symtab strtab indices bindings)
           (fun s => u32_at s = u32_at st /\ ptr_at s a = ptr_at st a) Hn)
    with (fuel := fuel) (i := 0) (s := st); [|lia|auto|exact H].
  intros j s g Hj [Hu Hp] Hb.
  destruct (slot_body_cases _ _ _ _ _ _ _ _ Hb)
    as (s' & -> & [->|(Hs & r & Hin & _ & ->)]); cbn [flow_state]; [auto|].
  split.
  - pose proof (env_of_apply_rebinding
                  (ptr_add bindings sizeof_pointer j) r s) as He.
    unfold env_of in He. inversion He. congruence.
  - rewrite ptr_at_apply_rebinding_other; [exact Hp| |].
    + intros Ha. symmetry in Ha. apply (Hslots j Hj) in Ha.
      unfold load_u32 in Hs, Ha. rewrite Hu in Hs. congruence.
    + intros Ha. apply (Hout r Hin). auto.
Qed.

Lemma perform_rebinding_with_section_frame (rebs : list rebindings_entry)
      (section : section_t) (slide symtab strtab indirect_symtab a : Z)
      (st st' : process) :
  (forall i, 0 <= i < section_slots section ->
             ptr_add (section_bindings section slide) sizeof_pointer i = a ->
             is_sentinel
               (load_u32 st
                  (ptr_add (ptr_add indirect_symtab sizeof_uint32 (reserved1 section))
                           sizeof_uint32 i)) = true) ->
  (forall r, In r (chain_requests rebs) -> replaced r <> a) ->
  perform_rebinding_with_section rebs section slide symtab strtab
                                 indirect_symtab st = Some st' ->
  ptr_at st' a = ptr_at st a.
Proof.
  intros Hslots Hout H.
  destruct (Z.lt_ge_cases (section_slots section) (2 ^ 32)) as [Hn|Hn];
    [|rewrite perform_rebinding_with_section_diverges in H by exact Hn;
      discriminate].
  unfold perform_rebinding_with_section in H.
  destruct (for_uint _ _ _ _ _) as [f|] eqn:Hf; [|discriminate].
  apply slot_loop_frame with (a := a) in Hf; try assumption.
  - inversion H; subst.
    destruct (strcmp_eq (sect_segname section) SEG_DATA_CONST); exact Hf.
  - destruct (strcmp_eq (sect_segname section) SEG_DATA_CONST); exact Hslots.
Qed.

(** The pass-level reading of the skip: after a whole pass over the section
    the slot with a reserved value holds the pointer it held before, as long
    as no request of the registry names that very cell as its output slot. *)
Lemma sentinel_slot_keeps_pointer (rebs : list rebindings_entry)
      (section : section_t) (slide symtab strtab indirect_symtab k : Z)
      (st st' : process) :
  0 <= k < section_slots section ->
  is_sentinel
    (load_u32 st
       (ptr_add (ptr_add indirect_symtab sizeof_uint32 (reserved1 section))
                sizeof_uint32 k)) = true ->
  (forall r, In r (chain_requests rebs) ->
             replaced r <> ptr_add (section_bindings section slide) sizeof_pointer k) ->
  perform_rebinding_with_section rebs section slide symtab strtab
                                 indirect_symtab st = Some st' ->
  ptr_at st' (ptr_add (section_bindings section slide) sizeof_pointer k)
  = ptr_at st (ptr_add (section_bindings section slide) sizeof_pointer k).
Proof.
  intros Hk Hs Hout H.
  destruct (Z.lt_ge_cases (section_slots section) (2 ^ 32)) as [Hn|Hn];
    [|rewrite perform_rebinding_with_section_diverges in H by exact Hn;
      discriminate].
  apply (perform_rebinding_with_section_frame _ _ _ _ _ _ _ _ _ ) with (3 := H);
    [|exact Hout].
  intros i Hi Heq. apply ptr_add_pointer_inj in Heq; [|lia|lia].
  subst i. exact Hs.
Qed.

(* ================================================================== *)
(** * Scenarios *)

(** Scenario A end to end: the first registration in the sample process
    subscribes to the loader, which runs the pass over the loaded image.
    Both slots bound to [_open] receive the replacement, the output slot
    holds the original, and the other slots keep their pointers. *)
Example scenario_open_end_to_end :
  probe [Sample.got_slot 0; Sample.got_slot 1;
         Sample.la_slot 0; Sample.la_slot 1; Sample.la_slot 2; Sample.O1]
        (rebind_symbols Sample.node1 Sample.array1
                        [mkRebinding "open" Sample.R1 Sample.O1] 1
                        Sample.process0)
  = Some (0, [Sample.F_close; Sample.R1;
              Sample.R1; 0x100007f00; Sample.F_write; Sample.F_open]).
Proof. vm_compute. reflexivity. Qed.

(** An image loaded after the registration is patched by the function
    registered with the loader. *)
Example image_loaded_later_is_patched :
  probe [Sample.got_slot 1; Sample.la_slot 0; Sample.O1]
        (rebind_symbols Sample.node1 Sample.array1
                        [mkRebinding "open" Sample.R1 Sample.O1] 1
                        (set_images [] Sample.process0))
  = Some (0, [Sample.F_open; Sample.F_open; 0])
  /\ probe [Sample.got_slot 1; Sample.la_slot 0; Sample.O1]
           registration_then_load
     = Some (0, [Sample.R1; Sample.R1; Sample.F_open]).
Proof. split; vm_compute; reflexivity. Qed.

(* ================================================================== *)
(** * The output slot *)

(** The guard of the output slot: what a matching request stores. *)
Lemma apply_rebinding_unfold (slot : Z) (r : rebinding) (st : process) (a : Z) :
  ptr_at (apply_rebinding slot r st) a
  = if a =? slot then replacement r
    else if negb (replaced r =? NULL) && negb (ptr_at st slot =? replacement r)
         then (if a =? replaced r then ptr_at st slot else ptr_at st a)
         else ptr_at st a.
Proof.
  unfold apply_rebinding.
  destruct (negb (replaced r =? NULL) && negb (ptr_at st slot =? replacement r));
    reflexivity.
Qed.

Lemma ptr_at_apply_rebinding_output (slot : Z) (r : rebinding) (st : process) :
  replaced r <> NULL -> ptr_at st slot <> replacement r -> replaced r <> slot ->
  ptr_at (apply_rebinding slot r st) (replaced r) = ptr_at st slot.
Proof.
  intros Hn Hc Hs. rewrite apply_rebinding_unfold.
  apply Z.eqb_neq in Hn, Hc, Hs. rewrite Hn, Hc, Hs, Z.eqb_refl. reflexivity.
Qed.

Lemma ptr_at_apply_rebinding_guarded (slot : Z) (r : rebinding) (st : process) (a : Z) :
  replaced r = NULL \/ ptr_at st slot = replacement r ->
  a <> slot ->
  ptr_at (apply_rebinding slot r st) a = ptr_at st a.
Proof.
  intros Hg Ha. rewrite apply_rebinding_unfold.
  apply Z.eqb_neq in Ha. rewrite Ha.
  destruct Hg as [Hg|Hg]; apply Z.eqb_eq in Hg; rewrite Hg;
    rewrite ?andb_false_r; reflexivity.
Qed.

Lemma ptr_at_apply_rebinding_changed (slot : Z) (r : rebinding) (st : process) (a : Z) :
  a <> slot ->
  ptr_at (apply_rebinding slot r st) a <> ptr_at st a ->
  a = replaced r
  /\ ptr_at (apply_rebinding slot r st) a = ptr_at st slot
  /\ ptr_at st slot <> replacement r.
Proof.
  intros Ha. rewrite apply_rebinding_unfold.
  apply Z.eqb_neq in Ha. rewrite Ha.
  destruct (replaced r =? NULL); cbn [negb andb]; [intros H; contradiction H; reflexivity|].
  destruct (ptr_at st slot =? replacement r) eqn:Hc; cbn [negb];
    [intros H; contradiction H; reflexivity|].
  destruct (a =? replaced r) eqn:Ea; [|intros H; contradiction H; reflexivity].
  intros _. apply Z.eqb_eq in Ea. apply Z.eqb_neq in Hc. auto.
Qed.

(** Applying the same request again changes no cell: the slot already holds
    the replacement, so the output slot is not written. *)
Lemma apply_rebinding_again (slot : Z) (r : rebinding) (st : process) (a : Z) :
  ptr_at (apply_rebinding slot r (apply_rebinding slot r st)) a
  = ptr_at (apply_rebinding slot r st) a.
Proof.
  destruct (Z.eq_dec a slot) as [->|Ha].
  - rewrite !ptr_at_apply_rebinding_slot. reflexivity.
  - apply ptr_at_apply_rebinding_guarded; [|exact Ha].
    right. apply ptr_at_apply_rebinding_slot.
Qed.

(** C2, as stated, fails: after the two registrations the slot bound to
    [_write] holds the newest replacement [R2], and the output slot [O2] of
    that winning request holds [R1], the replacement installed by the first
    registration, not the original [F_write] the slot held before any
    hook. *)
Lemma winning_output_slot_holds_previous_replacement :
  ptr_at Sample.process0 (Sample.la_slot 2) = Sample.F_write
  /\ probe [Sample.la_slot 2; Sample.O2; Sample.O1] two_registrations
     = Some (0, [Sample.R2; Sample.R1; Sample.F_write])
  /\ Sample.R1 <> Sample.F_write
  /\ ~ (exists st, two_registrations = Some (0, st)
                   /\ ptr_at st Sample.O2 = Sample.F_write).
Proof.
  assert (H : probe [Sample.la_slot 2; Sample.O2; Sample.O1] two_registrations
              = Some (0, [Sample.R2; Sample.R1; Sample.F_write]))
    by (vm_compute; reflexivity).
  split; [reflexivity|]. split; [exact H|]. split; [discriminate|].
  intros (st & Hst & HO). rewrite Hst in H. cbn [probe map] in H.
  rewrite HO in H. discriminate H.
Qed.

(** C2, amended.  The output slot is written only when it is not [NULL] and
    the slot does not already hold the replacement of the matched request,
    and what is written is the pointer the slot holds at that moment; a cell
    other than the slot changes only in this way, and repeating the pass
    changes nothing more.  So for a slot that held [F], after a pass with a
    chain whose first match is [r1] and a later pass with a newer batch
    whose match [r2] wins, the slot holds the replacement of [r2], the
    output slot of [r2] holds the replacement of [r1], and the output slot
    of [r1] still holds [F]. *)
Theorem output_slot_receives_displaced_pointer
        (slot : Z) (symbol_name : string) (chain1 : list rebindings_entry)
        (e2 : rebindings_entry) (r1 r2 : rebinding) (st : process) :
  Forall wf_entry (e2 :: chain1) ->
  spec_lookup symbol_name (map rebindings chain1) = Some r1 ->
  find (name_matches symbol_name) (rebindings e2) = Some r2 ->
  ptr_at st slot <> replacement r1 ->
  replacement r1 <> replacement r2 ->
  replaced r1 <> NULL -> replaced r2 <> NULL ->
  replaced r1 <> slot -> replaced r2 <> slot -> replaced r1 <> replaced r2 ->
  (forall r s a,
      a <> slot ->
      ptr_at (apply_rebinding slot r s) a <> ptr_at s a ->
      a = replaced r /\ replaced r <> NULL
      /\ ptr_at (apply_rebinding slot r s) a = ptr_at s slot
      /\ ptr_at s slot <> replacement r)
  /\ exists st1 st2 st3,
      chain_loop slot symbol_name chain1 st = Some st1
      /\ ptr_at st1 slot = replacement r1
      /\ ptr_at st1 (replaced r1) = ptr_at st slot
      /\ chain_loop slot symbol_name (e2 :: chain1) st1 = Some st2
      /\ ptr_at st2 slot = replacement r2
      /\ ptr_at st2 (replaced r2) = replacement r1
      /\ ptr_at st2 (replaced r1) = ptr_at st slot
      /\ chain_loop slot symbol_name (e2 :: chain1) st2 = Some st3
      /\ forall a, ptr_at st3 a = ptr_at st2 a.
Proof.
  intros Hwf H1 H2 HF HR Hn1 Hn2 Hs1 Hs2 Hd.
  split.
  - intros r s a Ha Hch.
    destruct (ptr_at_apply_rebinding_changed slot r s a Ha Hch) as (E1 & E2 & E3).
    repeat split; try assumption.
    intros Hnull. apply Hch. apply ptr_at_apply_rebinding_guarded; auto.
  - inversion Hwf as [|? ? He2 Hwf1]; subst.
    assert (L2 : forall s, chain_loop slot symbol_name (e2 :: chain1) s
                           = Some (apply_rebinding slot r2 s)).
    { intros s. rewrite (chain_loop_find _ _ _ _ Hwf).
      unfold chain_requests. cbn [map concat]. rewrite find_app, H2. reflexivity. }
    assert (L1 : chain_loop slot symbol_name chain1 st
                 = Some (apply_rebinding slot r1 st)).
    { rewrite (chain_loop_find _ _ _ _ Hwf1).
      unfold spec_lookup in H1. unfold chain_requests. rewrite H1. reflexivity. }
    exists (apply_rebinding slot r1 st).
    exists (apply_rebinding slot r2 (apply_rebinding slot r1 st)).
    exists (apply_rebinding slot r2
              (apply_rebinding slot r2 (apply_rebinding slot r1 st))).
    assert (K1 : ptr_at (apply_rebinding slot r1 st) slot = replacement r1)
      by apply ptr_at_apply_rebinding_slot.
    assert (K2 : ptr_at (apply_rebinding slot r1 st) (replaced r1) = ptr_at st slot)
      by (apply ptr_at_apply_rebinding_output; assumption).
    repeat split.
    + exact L1.
    + exact K1.
    + exact K2.
    + apply L2.
    + apply ptr_at_apply_rebinding_slot.
    + rewrite ptr_at_apply_rebinding_output; try assumption.
      rewrite K1. exact HR.
    + rewrite ptr_at_apply_rebinding_other; auto.
    + apply L2.
    + intros a. apply apply_rebinding_again.
Qed.

Lemma output_slot_receives_displaced_pointer_witness :
  exists st1 st2 st3,
    chain_loop (Sample.la_slot 2) "_write" sample_chain_write Sample.process0
    = Some st1
    /\ ptr_at st1 (Sample.la_slot 2) = Sample.R1
    /\ ptr_at st1 Sample.O1 = ptr_at Sample.process0 (Sample.la_slot 2)
    /\ chain_loop (Sample.la_slot 2) "_write"
                  (sample_entry_write2 :: sample_chain_write) st1 = Some st2
    /\ ptr_at st2 (Sample.la_slot 2) = Sample.R2
    /\ ptr_at st2 Sample.O2 = Sample.R1
    /\ ptr_at st2 Sample.O1 = ptr_at Sample.process0 (Sample.la_slot 2)
    /\ chain_loop (Sample.la_slot 2) "_write"
                  (sample_entry_write2 :: sample_chain_write) st2 = Some st3
    /\ forall a, ptr_at st3 a = ptr_at st2 a.
Proof.
  apply (proj2 (output_slot_receives_displaced_pointer
                  (Sample.la_slot 2) "_write" sample_chain_write
                  sample_entry_write2
                  (mkRebinding "write" Sample.R1 Sample.O1)
                  (mkRebinding "write" Sample.R2 Sample.O2)
                  Sample.process0
                  ltac:(repeat constructor; simpl; lia)
                  eq_refl eq_refl
                  ltac:(discriminate) ltac:(discriminate)
                  ltac:(discriminate) ltac:(discriminate)
                  ltac:(discriminate) ltac:(discriminate)
                  ltac:(discriminate))).
Defined.

(* ================================================================== *)
(** * Protection of [__DATA_CONST] *)

(** The protections after a pass over a section: for a section of
    [__DATA_CONST] the table range carries the flags computed from the
    protection found at the address of the registry head (the argument the
    program gives to [get_protection]); every other protection is as
    before. *)
Lemma perform_rebinding_with_section_protection (rebs : list rebindings_entry)
      (section : section_t) (slide symtab strtab indirect_symtab : Z)
      (st st' : process) :
  perform_rebinding_with_section rebs section slide symtab strtab
                                 indirect_symtab st = Some st' ->
  forall a,
    vm_prot st' a
    = if strcmp_eq (sect_segname section) SEG_DATA_CONST
         && ((section_bindings section slide <=? a)
             && (a <? section_bindings section slide + size section))
      then Some (restored_protection (get_protection (entry_ptr rebs) st))
      else vm_prot st a.
Proof.
  unfold perform_rebinding_with_section. intros H a.
  destruct (for_uint _ _ _ _ _) as [f|] eqn:Hf; [|discriminate].
  apply slot_loop_env in Hf. destruct Hf as [_ Hp].
  inversion H; subst. clear H.
  destruct (strcmp_eq (sect_segname section) SEG_DATA_CONST); cbn [andb].
  - cbn [mprotect set_vm_prot vm_prot]. rewrite Hp.
    cbn [mprotect set_vm_prot vm_prot].
    destruct ((section_bindings section slide <=? a)
              && (a <? section_bindings section slide + size section));
      reflexivity.
  - rewrite Hp. reflexivity.
Qed.

Lemma land_single_bit (p k : Z) :
  0 <= k -> Z.land p (2 ^ k) = if Z.testbit p k then 2 ^ k else 0.
Proof.
  intros Hk. apply Z.bits_inj'. intros n Hn.
  rewrite Z.land_spec, Z.pow2_bits_eqb by exact Hk.
  destruct (Z.eqb_spec k n) as [->|Hne].
  - destruct (Z.testbit p n); [|rewrite Z.bits_0; reflexivity].
    rewrite Z.pow2_bits_true by exact Hn. reflexivity.
  - rewrite andb_false_r. destruct (Z.testbit p k); [|rewrite Z.bits_0; reflexivity].
    rewrite Z.pow2_bits_false by exact Hne. reflexivity.
Qed.

(** The translation of the protection keeps the read, write and execute
    bits and nothing else. *)
Lemma restored_protection_bits (oldProtection : Z) :
  restored_protection oldProtection = Z.land oldProtection 7.
Proof.
  assert (B0 : Z.land oldProtection 1
               = if Z.testbit oldProtection 0 then 1 else 0)
    by (apply (land_single_bit oldProtection 0); lia).
  assert (B1 : Z.land oldProtection 2
               = if Z.testbit oldProtection 1 then 2 else 0)
    by (apply (land_single_bit oldProtection 1); lia).
  assert (B2 : Z.land oldProtection 4
               = if Z.testbit oldProtection 2 then 4 else 0)
    by (apply (land_single_bit oldProtection 2); lia).
  assert (B7 : Z.land oldProtection 7
               = Z.lor (Z.land oldProtection 1)
                       (Z.lor (Z.land oldProtection 2) (Z.land oldProtection 4)))
    by (rewrite <- !Z.land_lor_distr_r; reflexivity).
  unfold restored_protection, VM_PROT_READ, VM_PROT_WRITE, VM_PROT_EXECUTE,
    PROT_READ, PROT_WRITE, PROT_EXEC.
  rewrite B7, B0, B1, B2.
  destruct (Z.testbit oldProtection 0), (Z.testbit oldProtection 1),
    (Z.testbit oldProtection 2); reflexivity.
Qed.

(** C1 (fails on the code): the protection a section of [__DATA_CONST] is
    left with is computed from the protection found at the address of the
    registry node, not from the protection the section had.  On the sample
    process the pass over [__DATA_CONST,__got] returns; the table was mapped
    with [VM_PROT_READ] before the pass, the registry node lies in the
    read-write heap, and after the pass the table is mapped with
    [PROT_READ | PROT_WRITE]. *)
Theorem data_const_protection_is_not_restored :
  get_protection (section_bindings Sample.got Sample.slide) Sample.process0
  = VM_PROT_READ
  /\ get_protection (entry_ptr sample_chain) Sample.process0
     = Z.lor VM_PROT_READ VM_PROT_WRITE
  /\ exists st',
      perform_rebinding_with_section sample_chain Sample.got Sample.slide
                                     0x100010100 0x100010300 0x100010200
                                     Sample.process0 = Some st'
      /\ vm_prot Sample.process0 (Sample.got_slot 0) = Some VM_PROT_READ
      /\ vm_prot st' (Sample.got_slot 0) = Some (Z.lor PROT_READ PROT_WRITE)
      /\ vm_prot st' (Sample.got_slot 0)
         <> vm_prot Sample.process0 (Sample.got_slot 0).
Proof.
  split; [reflexivity|]. split; [reflexivity|].
  destruct (perform_rebinding_with_section_returns
              sample_chain Sample.got Sample.slide
              0x100010100 0x100010300 0x100010200 Sample.process0
              sample_chain_wf eq_refl) as [st' Hst'].
  exists st'. split; [exact Hst'|]. split; [reflexivity|].
  rewrite (perform_rebinding_with_section_protection _ _ _ _ _ _ _ _ Hst').
  split; [reflexivity|]. discriminate.
Qed.

(* ================================================================== *)
(** * The second walk as a sequence of passes *)

Lemma passes_app (rebs : list rebindings_entry)
      (slide symtab strtab indirect_symtab : Z) (l1 l2 : list section_t) :
  forall st,
    passes rebs slide symtab strtab indirect_symtab (l1 ++ l2) st
    = match passes rebs slide symtab strtab indirect_symtab l1 st with
      | Some st' => passes rebs slide symtab strtab indirect_symtab l2 st'
      | None => None
      end.
Proof.
  induction l1 as [|sect l1 IH]; intros st; cbn [app passes]; [reflexivity|].
  destruct (perform_rebinding_with_section _ _ _ _ _ _ st); [apply IH|reflexivity].
Qed.

Lemma section_body_as_pass (rebs : list rebindings_entry)
      (slide symtab strtab indirect_symtab : Z) (sect : section_t) (st : process) :
  section_body rebs slide symtab strtab indirect_symtab sect st
  = if is_pointer_section sect
    then perform_rebinding_with_section rebs sect slide symtab strtab
                                        indirect_symtab st
    else Some st.
Proof.
  unfold section_body, is_pointer_section.
  destruct (Z.land (flags sect) SECTION_TYPE =? S_LAZY_SYMBOL_POINTERS) eqn:E.
  - apply Z.eqb_eq in E. rewrite E.
    change (S_LAZY_SYMBOL_POINTERS =? S_NON_LAZY_SYMBOL_POINTERS) with false.
    cbn [orb]. destruct (perform_rebinding_with_section _ _ _ _ _ _ st); reflexivity.
  - cbn [orb].
    destruct (Z.land (flags sect) SECTION_TYPE =? S_NON_LAZY_SYMBOL_POINTERS);
      reflexivity.
Qed.

Lemma sections_loop_as_passes (rebs : list rebindings_entry)
      (slide symtab strtab indirect_symtab : Z) (sects : list section_t) :
  forall st,
    sections_loop rebs slide symtab strtab indirect_symtab sects st
    = passes rebs slide symtab strtab indirect_symtab
             (filter is_pointer_section sects) st.
Proof.
  induction sects as [|sect rest IH]; intros st; cbn [sections_loop filter];
    [reflexivity|].
  rewrite section_body_as_pass.
  destruct (is_pointer_section sect); cbn [passes].
  - destruct (perform_rebinding_with_section _ _ _ _ _ _ st); [apply IH|reflexivity].
  - apply IH.
Qed.

Lemma commands_loop_as_passes (rebs : list rebindings_entry)
      (slide symtab strtab indirect_symtab : Z) (cmds : list load_command) :
  forall st,
    commands_loop rebs slide symtab strtab indirect_symtab cmds st
    = passes rebs slide symtab strtab indirect_symtab (patched_sections cmds) st.
Proof.
  unfold patched_sections.
  induction cmds as [|c rest IH]; intros st; cbn [commands_loop flat_map];
    [reflexivity|].
  rewrite passes_app.
  destruct c as [seg|c|c|k]; cbn [command_body passes]; try apply IH.
  unfold is_data_segment.
  destruct (strcmp_eq (segname seg) SEG_DATA);
    destruct (strcmp_eq (segname seg) SEG_DATA_CONST); cbn [negb andb orb passes];
    try apply IH;
    rewrite sections_loop_as_passes;
    destruct (passes _ _ _ _ _ (filter is_pointer_section (sections seg)) st);
    try reflexivity; apply IH.
Qed.

Lemma rebind_symbols_for_image_cases (rebs : list rebindings_entry)
      (header : mach_header) (slide : Z) (st : process) :
  rebind_symbols_for_image rebs header slide st = Some st
  \/ exists symtab strtab indirect_symtab,
       rebind_symbols_for_image rebs header slide st
       = passes rebs slide symtab strtab indirect_symtab
                (patched_sections (commands header)) st.
Proof.
  unfold rebind_symbols_for_image.
  destruct (negb (dladdr st (header_addr header))); [left; reflexivity|].
  destruct (symtab_cmd _) as [sc|]; [|left; reflexivity].
  destruct (dysymtab_cmd _) as [dc|]; [|left; reflexivity].
  destruct (linkedit_segment _) as [le|]; [|left; reflexivity].
  destruct (wrap32 (nindirectsyms dc) =? 0); [left; reflexivity|].
  right. eexists; eexists; eexists. apply commands_loop_as_passes.
Qed.

(** X1: for an image that [dladdr] knows and that has the three commands
    and a non-zero indirect symbol count, the pass over the image is the
    patcher applied, in the order of the load commands, to the lazy and
    non-lazy symbol pointer sections of the segments named [__DATA] or
    [__DATA_CONST], and to no other section, with the table addresses
    derived from the link-edit segment. *)
Theorem image_pass_is_passes_over_pointer_sections
        (rebs : list rebindings_entry) (header : mach_header) (slide : Z)
        (st : process) (le : segment_command_t) (sc : symtab_command)
        (dc : dysymtab_command) :
  dladdr st (header_addr header) = true ->
  linkedit_segment (locate (commands header)) = Some le ->
  symtab_cmd (locate (commands header)) = Some sc ->
  dysymtab_cmd (locate (commands header)) = Some dc ->
  wrap32 (nindirectsyms dc) <> 0 ->
  rebind_symbols_for_image rebs header slide st
  = passes rebs slide
           (symtab_addr (linkedit_base slide le) sc)
           (strtab_addr (linkedit_base slide le) sc)
           (indirect_symtab_addr (linkedit_base slide le) dc)
           (patched_sections (commands header)) st.
Proof.
  intros Hdl Hle Hsc Hdc Hn. unfold rebind_symbols_for_image.
  rewrite Hdl, Hle, Hsc, Hdc. cbn [negb].
  apply Z.eqb_neq in Hn. rewrite Hn. apply commands_loop_as_passes.
Qed.

Lemma image_pass_is_passes_over_pointer_sections_witness :
  patched_sections (commands Sample.header) = [Sample.got; Sample.la_symbol_ptr]
  /\ rebind_symbols_for_image sample_chain Sample.header Sample.slide
                              Sample.process0
     = passes sample_chain Sample.slide 0x100010100 0x100010300 0x100010200
              [Sample.got; Sample.la_symbol_ptr] Sample.process0.
Proof.
  split; [reflexivity|].
  apply (image_pass_is_passes_over_pointer_sections
           sample_chain Sample.header Sample.slide Sample.process0
           Sample.linkedit_seg Sample.symtab_c Sample.dysymtab_c
           eq_refl eq_refl eq_refl eq_refl).
  discriminate.
Defined.

(** X2: an image none of whose [__DATA] or [__DATA_CONST] segments holds a
    lazy or non-lazy symbol pointer section is left exactly as it was,
    whatever the registry holds; pointer sections of segments with another
    name do not count. *)
Theorem image_without_pointer_sections_is_untouched
        (rebs : list rebindings_entry) (header : mach_header) (slide : Z)
        (st : process) :
  patched_sections (commands header) = [] ->
  rebind_symbols_for_image rebs header slide st = Some st.
Proof.
  intros Hnone.
  destruct (rebind_symbols_for_image_cases rebs header slide st)
    as [H|(sy & str & ind & H)]; [exact H|].
  rewrite H, Hnone. reflexivity.
Qed.

Lemma image_without_pointer_sections_is_untouched_witness :
  rebind_symbols_for_image sample_chain sample_header_text_pointers
                           Sample.slide Sample.process0
  = Some Sample.process0.
Proof.
  apply image_without_pointer_sections_is_untouched. reflexivity.
Defined.

(* ================================================================== *)
(** * Passes over all images *)



Lemma for_each_image_preserves (P : process -> Prop) :
  (forall header slide s s',
      P s ->
      rebind_symbols_for_image (_rebindings_head s) header slide s = Some s' ->
      P s') ->
  forall imgs st st',
    P st -> for_each_image imgs st = Some st' -> P st'.
Proof.
  intros Himg. induction imgs as [|[header slide] rest IH]; intros st st' HP H;
    cbn [for_each_image] in H.
  - inversion H; subst. exact HP.
  - unfold _rebind_symbols_for_image in H.
    destruct (rebind_symbols_for_image _ header slide st) as [s1|] eqn:H1;
      [|discriminate].
    apply (IH s1 st'); [|exact H]. apply (Himg _ _ _ _ HP H1).
Qed.

Lemma for_each_image_env (imgs : list (mach_header * Z)) (st st' : process) :
  for_each_image imgs st = Some st' -> env_of st' = env_of st.
Proof.
  apply (for_each_image_preserves (fun s => env_of s = env_of st)); [|reflexivity].
  intros header slide s s' Hs H.
  rewrite (rebind_symbols_for_image_env _ _ _ _ _ H). exact Hs.
Qed.

Lemma for_each_image_returns :
  forall (imgs : list (mach_header * Z)) (st : process),
    Forall wf_entry (_rebindings_head st) ->
    Forall (fun p => image_fits (fst p)) imgs ->
    exists st', for_each_image imgs st = Some st'.
Proof.
  induction imgs as [|[header slide] rest IH]; intros st Hwf Hfit;
    cbn [for_each_image].
  - eexists; reflexivity.
  - inversion Hfit as [|? ? Hh Hrest]; subst. cbn [fst] in Hh.
    unfold _rebind_symbols_for_image.
    destruct (rebind_symbols_for_image_returns (_rebindings_head st) header
                slide st Hwf Hh) as [s1 H1].
    rewrite H1. apply IH; [|exact Hrest].
    destruct (env_of_fields _ _ (rebind_symbols_for_image_env _ _ _ _ _ H1))
      as [_ Hhead].
    rewrite Hhead. exact Hwf.
Qed.

Lemma env_of_all_fields (st st' : process) :
  env_of st' = env_of st ->
  u32_at st' = u32_at st /\ cstr_at st' = cstr_at st
  /\ allocated st' = allocated st /\ dladdr st' = dladdr st
  /\ images st' = images st /\ add_image_funcs st' = add_image_funcs st
  /\ _rebindings_head st' = _rebindings_head st.
Proof. unfold env_of. intros H. inversion H. repeat split; assumption. Qed.


Lemma sample_images_fit :
  Forall (fun p => image_fits (fst p)) (images Sample.process0).
Proof. constructor; [exact sample_header_fits|constructor]. Qed.


(** X4: the callback is never handed to the loader twice.  If the loader
    holds it once when the registry is not empty and not at all when it is
    empty, the same is true after every call of [rebind_symbols] and of
    [rebind_symbols_image] that returns, with success or with failure. *)
Theorem loader_callback_registered_once
        (new_entry new_array : Z) (rebs : list rebinding) (nel : Z)
        (header : mach_header) (slide : Z) (st : process) :
  registered_once st ->
  (forall retval st',
      rebind_symbols new_entry new_array rebs nel st = Some (retval, st') ->
      registered_once st' /\ (add_image_funcs st' <= 1)%nat)
  /\ (forall retval st',
         rebind_symbols_image new_entry new_array header slide rebs nel st
         = Some (retval, st') ->
         registered_once st' /\ add_image_funcs st' = add_image_funcs st).
Proof.
  intros Hinv.
  assert (Hle : forall s, registered_once s -> (add_image_funcs s <= 1)%nat).
  { intros s Hs. unfold registered_once in Hs. rewrite Hs.
    destruct (_rebindings_head s); lia. }
  split.
  - intros retval st' H. unfold rebind_symbols in H.
    destruct (prepend_rebindings new_entry new_array (_rebindings_head st)
                rebs nel st) as [[r head'] st1] eqn:Hp.
    assert (Hcnt1 : add_image_funcs st1 = add_image_funcs st).
    { unfold prepend_rebindings, malloc_returns, free in Hp.
      destruct (new_entry =? NULL); [inversion Hp; reflexivity|].
      destruct (new_array =? NULL); inversion Hp; reflexivity. }
    destruct (prepend_rebindings_process _ _ _ _ _ _ _ _ _ Hp)
      as (_ & _ & _ & Hret & Hfail & Hok).
    assert (Hgoal : registered_once st'); [|split; [exact Hgoal|apply Hle, Hgoal]].
    destruct Hret as [Hr|Hr]; subst r.
    + destruct (Hok eq_refl) as (_ & _ & -> & _).
      change (0 <? 0) with false in H. cbv beta iota in H.
      cbn [_rebindings_head set_rebindings_head] in H.
      unfold registered_once in *.
      destruct (_rebindings_head st) as [|e0 old] eqn:Hold.
      * unfold _dyld_register_func_for_add_image in H.
        destruct (for_each_image _ _) as [st3|] eqn:H3; [|discriminate].
        inversion H; subst st'.
        destruct (env_of_all_fields _ _ (for_each_image_env _ _ _ H3))
          as (_ & _ & _ & _ & _ & Hc & Hh).
        rewrite Hc, Hh. cbn. rewrite Hcnt1, Hinv. reflexivity.
      * destruct (for_each_image _ _) as [st3|] eqn:H3; [|discriminate].
        inversion H; subst st'.
        destruct (env_of_all_fields _ _ (for_each_image_env _ _ _ H3))
          as (_ & _ & _ & _ & _ & Hc & Hh).
        rewrite Hc, Hh. cbn. rewrite Hcnt1, Hinv. reflexivity.
    + destruct (Hfail eq_refl) as (_ & -> & _).
      change (-1 <? 0) with true in H. cbv beta iota in H.
      inversion H; subst st'. unfold registered_once in *. cbn.
      rewrite Hcnt1. exact Hinv.
  - intros retval st' H.
    assert (Hc : add_image_funcs st' = add_image_funcs st
                 /\ _rebindings_head st' = _rebindings_head st).
    { unfold rebind_symbols_image in H.
      destruct (prepend_rebindings new_entry new_array [] rebs nel st)
        as [[r head'] st1] eqn:Hp.
      assert (Hcnt1 : add_image_funcs st1 = add_image_funcs st
                      /\ _rebindings_head st1 = _rebindings_head st).
      { unfold prepend_rebindings, malloc_returns, free in Hp.
        destruct (new_entry =? NULL); [inversion Hp; split; reflexivity|].
        destruct (new_array =? NULL); inversion Hp; split; reflexivity. }
      destruct (rebind_symbols_for_image head' header slide st1) as [st2|] eqn:H2;
        [|discriminate].
      destruct (env_of_all_fields _ _ (rebind_symbols_for_image_env _ _ _ _ _ H2))
        as (_ & _ & _ & _ & _ & Hc2 & Hh2).
      inversion H; subst st'. unfold free.
      destruct head' as [|e rest]; cbn [entry_ptr];
        repeat match goal with
               | |- context [if ?b then _ else _] => destruct b
               end;
        cbn; rewrite ?Hc2, ?Hh2; exact Hcnt1. }
    destruct Hc as [Hc Hh]. split; [|exact Hc].
    unfold registered_once in *. rewrite Hc, Hh. exact Hinv.
Qed.

Lemma loader_callback_registered_once_witness :
  (forall retval st',
      rebind_symbols Sample.node1 Sample.array1
                     [mkRebinding "open" Sample.R1 Sample.O1] 1 Sample.process0
      = Some (retval, st') ->
      registered_once st' /\ (add_image_funcs st' <= 1)%nat)
  /\ (forall retval st',
         rebind_symbols_image Sample.node1 Sample.array1 Sample.header
                              Sample.slide
                              [mkRebinding "open" Sample.R1 Sample.O1] 1
                              Sample.process0
         = Some (retval, st') ->
         registered_once st'
         /\ add_image_funcs st' = add_image_funcs Sample.process0).
Proof.
  apply (loader_callback_registered_once
           Sample.node1 Sample.array1
           [mkRebinding "open" Sample.R1 Sample.O1] 1
           Sample.header Sample.slide Sample.process0).
  reflexivity.
Defined.

(* ================================================================== *)
(** * Names that occur nowhere *)

(** A pass over a section with a registry none of whose names matches any
    string writes no pointer cell. *)
Lemma perform_rebinding_with_section_no_match (rebs : list rebindings_entry)
      (section : section_t) (slide symtab strtab indirect_symtab : Z)
      (st st' : process) :
  (forall a r, In r (chain_requests rebs) -> name_matches (cstr_at st a) r = false) ->
  perform_rebinding_with_section rebs section slide symtab strtab
                                 indirect_symtab st = Some st' ->
  ptr_at st' = ptr_at st.
Proof.
  intros Hno H. unfold perform_rebinding_with_section in H.
  destruct (for_uint _ _ _ _ _) as [f|] eqn:Hf; [|discriminate].
  assert (Hp : cstr_at (flow_state f) = cstr_at st
               /\ ptr_at (flow_state f) = ptr_at st).
  { match type of Hf with
    | for_uint ?fu ?n ?b 0 ?s0 = _ =>
        apply (for_uint_preserves n b
                 (fun s => cstr_at s = cstr_at st /\ ptr_at s = ptr_at st)) in Hf
    end.
    - exact Hf.
    - intros j s g [Hc Hs] Hb.
      destruct (slot_body_cases _ _ _ _ _ _ _ _ Hb)
        as (s' & -> & [->|(_ & r & Hin & Hm & _)]); [auto|].
      exfalso. unfold slot_symbol_name in Hm. rewrite Hc in Hm.
      rewrite (Hno _ r Hin) in Hm. discriminate.
    - destruct (strcmp_eq (sect_segname section) SEG_DATA_CONST); auto. }
  inversion H; subst.
  destruct (strcmp_eq (sect_segname section) SEG_DATA_CONST); apply Hp.
Qed.

(** What a successful registration runs: the passes over the images of the
    process, with the new node at the head of the registry. *)
Lemma rebind_symbols_success_run
      (new_entry new_array : Z) (rebs : list rebinding) (nel : Z)
      (st : process) :
  new_entry <> NULL -> new_array <> NULL ->
  0 <= nel <= Z.of_nat (length rebs) -> nel < 2 ^ 32 ->
  Forall wf_entry (_rebindings_head st) ->
  Forall (fun p => image_fits (fst p)) (images st) ->
  exists s2 st3,
    rebind_symbols new_entry new_array rebs nel st = Some (0, st3)
    /\ for_each_image (images st) s2 = Some st3
    /\ _rebindings_head s2
       = mkEntry new_entry new_array (firstn (Z.to_nat nel) rebs) nel
         :: _rebindings_head st
    /\ ptr_at s2 = ptr_at st /\ cstr_at s2 = cstr_at st
    /\ u32_at s2 = u32_at st /\ vm_prot s2 = vm_prot st.
Proof.
  intros Hne Hna Hnel Hfit Hwf Himgs.
  unfold rebind_symbols, prepend_rebindings.
  apply Z.eqb_neq in Hne, Hna. rewrite Hne, Hna. cbv beta iota zeta.
  change (0 <? 0) with false. cbv beta iota.
  set (e := mkEntry new_entry new_array (firstn (Z.to_nat nel) rebs) nel).
  set (st2 := set_rebindings_head (e :: _rebindings_head st)
                (malloc_returns new_array (malloc_returns new_entry st))).
  assert (Hhead2 : _rebindings_head st2 = e :: _rebindings_head st) by reflexivity.
  assert (Hsame : images st2 = images st /\ ptr_at st2 = ptr_at st
                  /\ cstr_at st2 = cstr_at st /\ u32_at st2 = u32_at st
                  /\ vm_prot st2 = vm_prot st).
  { unfold st2, malloc_returns. rewrite Hne, Hna. repeat split. }
  destruct Hsame as (Himg2 & Hp2 & Hc2 & Hu2 & Hv2).
  assert (Hwf2 : Forall wf_entry (_rebindings_head st2)).
  { rewrite Hhead2. constructor; [|exact Hwf].
    split; cbn [rebindings rebindings_nel e]; [|exact Hfit].
    rewrite length_firstn. lia. }
  rewrite Hhead2.
  destruct (_rebindings_head st) as [|e0 old] eqn:Hold.
  - unfold _dyld_register_func_for_add_image.
    destruct (for_each_image_returns (images st2)
                (set_add_image_funcs (Datatypes.S (add_image_funcs st2)) st2))
      as [st3 H3]; [exact Hwf2|rewrite Himg2; exact Himgs|].
    rewrite H3.
    exists (set_add_image_funcs (Datatypes.S (add_image_funcs st2)) st2), st3.
    rewrite <- Himg2. repeat split; assumption.
  - destruct (for_each_image_returns (images st2) st2)
      as [st3 H3]; [exact Hwf2|rewrite Himg2; exact Himgs|].
    rewrite H3. exists st2, st3.
    rewrite <- Himg2. repeat split; assumption.
Qed.

(** X5: scenario B.  When no name of the registry, the new batch included,
    is the name without its first character of any string of the process, a
    successful registration returns [0] and changes no pointer cell: neither
    a slot nor an output slot. *)
Theorem registration_of_absent_names_changes_no_pointer
        (new_entry new_array : Z) (rebs : list rebinding) (nel : Z)
        (st : process) :
  new_entry <> NULL -> new_array <> NULL ->
  0 <= nel <= Z.of_nat (length rebs) -> nel < 2 ^ 32 ->
  Forall wf_entry (_rebindings_head st) ->
  Forall (fun p => image_fits (fst p)) (images st) ->
  (forall a r,
      In r (firstn (Z.to_nat nel) rebs)
      \/ In r (chain_requests (_rebindings_head st)) ->
      name_matches (cstr_at st a) r = false) ->
  exists st',
    rebind_symbols new_entry new_array rebs nel st = Some (0, st')
    /\ ptr_at st' = ptr_at st.
Proof.
  intros Hne Hna Hnel Hfit Hwf Himgs Hno.
  destruct (rebind_symbols_success_run new_entry new_array rebs nel st
              Hne Hna Hnel Hfit Hwf Himgs)
    as (s2 & st3 & Hrun & Hfor & Hhead & Hp & Hc & _).
  exists st3. split; [exact Hrun|].
  set (chain := mkEntry new_entry new_array (firstn (Z.to_nat nel) rebs) nel
                :: _rebindings_head st) in *.
  assert (HP : _rebindings_head st3 = chain /\ cstr_at st3 = cstr_at st
               /\ ptr_at st3 = ptr_at st); [|apply HP].
  apply (for_each_image_preserves
           (fun s => _rebindings_head s = chain /\ cstr_at s = cstr_at st
                     /\ ptr_at s = ptr_at st))
    with (imgs := images st) (st := s2); [|auto|exact Hfor].
  intros header slide s s' (Hh & Hcs & Hps) H.
  destruct (env_of_all_fields _ _ (rebind_symbols_for_image_env _ _ _ _ _ H))
    as (_ & Hc' & _ & _ & _ & _ & Hh').
  split; [rewrite Hh'; exact Hh|]. split; [rewrite Hc'; exact Hcs|].
  rewrite Hh in H.
  apply (rebind_symbols_for_image_preserves
           (fun x => cstr_at x = cstr_at st /\ ptr_at x = ptr_at st)
           chain header slide) with (st := s) (st' := s'); [|auto|exact H].
  intros sect sy str ind x x' [Hxc Hxp] Hx.
  destruct (env_of_all_fields _ _ (perform_rebinding_with_section_env
                                     _ _ _ _ _ _ _ _ Hx))
    as (_ & Hxc' & _).
  split; [rewrite Hxc'; exact Hxc|].
  rewrite (perform_rebinding_with_section_no_match _ _ _ _ _ _ _ _ ) with (2 := Hx);
    [exact Hxp|].
  intros a r Hin. rewrite Hxc. apply Hno.
  unfold chain, chain_requests in Hin. cbn [map concat rebindings] in Hin.
  apply in_app_or in Hin. exact Hin.
Qed.

Lemma registration_of_absent_names_changes_no_pointer_witness :
  exists st',
    rebind_symbols Sample.node1 Sample.array1
                   [mkRebinding "read" Sample.R1 Sample.O1] 1 Sample.process0
    = Some (0, st')
    /\ ptr_at st' = ptr_at Sample.process0.
Proof.
  apply (registration_of_absent_names_changes_no_pointer
           Sample.node1 Sample.array1
           [mkRebinding "read" Sample.R1 Sample.O1] 1 Sample.process0).
  - discriminate.
  - discriminate.
  - simpl. lia.
  - lia.
  - constructor.
  - exact sample_images_fit.
  - intros a r [[<-|[]]|[]].
    unfold Sample.process0, Sample.cstr. cbn [cstr_at Sample.assoc].
    repeat match goal with
           | |- context [if ?b then _ else _] => destruct b
           end; reflexivity.
Defined.

(* ================================================================== *)
(** * What a pass leaves in the slots *)

Lemma ptr_at_apply_rebinding_elsewhere (slot : Z) (r : rebinding) (st : process)
      (a : Z) :
  a <> slot -> replaced r = NULL \/ replaced r <> a ->
  ptr_at (apply_rebinding slot r st) a = ptr_at st a.
Proof.
  intros Ha Hr. rewrite apply_rebinding_unfold.
  apply Z.eqb_neq in Ha. rewrite Ha.
  destruct Hr as [Hr|Hr].
  - apply Z.eqb_eq in Hr. rewrite Hr. reflexivity.
  - destruct (negb (replaced r =? NULL) && negb (ptr_at st slot =? replacement r));
      [|reflexivity].
    destruct (a =? replaced r) eqn:E; [|reflexivity].
    apply Z.eqb_eq in E. congruence.
Qed.

Lemma slot_match_env (rebs : list rebindings_entry) (symtab strtab indices i : Z)
      (s st : process) :
  u32_at s = u32_at st -> cstr_at s = cstr_at st ->
  slot_match rebs symtab strtab indices i s
  = slot_match rebs symtab strtab indices i st.
Proof.
  intros Hu Hc. unfold slot_match, slot_symbol_name, load_u32.
  rewrite Hu, Hc. reflexivity.
Qed.

(** With a well-formed registry the iteration for slot [i] applies the
    request [slot_match] finds, if any. *)
Lemma slot_body_match (rebs : list rebindings_entry)
      (symtab strtab indices bindings i : Z) (st : process) :
  Forall wf_entry rebs ->
  slot_body rebs symtab strtab indices bindings i st
  = Some (Continue
            (match slot_match rebs symtab strtab indices i st with
             | Some r => apply_rebinding (ptr_add bindings sizeof_pointer i) r st
             | None => st
             end)).
Proof.
  intros Hwf. unfold slot_body, slot_match.
  destruct (is_sentinel _); [reflexivity|].
  rewrite (chain_loop_find _ _ _ _ Hwf).
  destruct (find _ (chain_requests rebs)); reflexivity.
Qed.

Lemma u32_cstr_apply_rebinding (slot : Z) (r : rebinding) (st : process) :
  u32_at (apply_rebinding slot r st) = u32_at st
  /\ cstr_at (apply_rebinding slot r st) = cstr_at st.
Proof.
  destruct (env_of_all_fields _ _ (env_of_apply_rebinding slot r st))
    as (Hu & Hc & _).
  auto.
Qed.

Section SlotLoop.
Variable rebs : list rebindings_entry.
Variables symtab strtab indices bindings n : Z.
Hypothesis rebs_wf : Forall wf_entry rebs.
Hypothesis n_fits : n < 2 ^ 32.
Hypothesis no_alias :
  forall r i, In r (chain_requests rebs) -> 0 <= i < n ->
              replaced r = NULL \/ replaced r <> ptr_add bindings sizeof_pointer i.

(** The state the slot loop reaches from index [i]: the slots from [i] on
    hold the replacement of their request, or their old pointer when they
    have none; a cell that is none of these slots and no output slot holds
    its old pointer. *)
Lemma slot_loop_post :
  forall (k : nat) (i : Z) (s : process),
    0 <= i -> n - i <= Z.of_nat k ->
    exists s',
      for_uint (Datatypes.S k) n
               (slot_body rebs symtab strtab indices bindings) i s
      = Some (Continue s')
      /\ u32_at s' = u32_at s /\ cstr_at s' = cstr_at s
      /\ (forall j, i <= j < n ->
                    ptr_at s' (ptr_add bindings sizeof_pointer j)
                    = match slot_match rebs symtab strtab indices j s with
                      | Some r => replacement r
                      | None => ptr_at s (ptr_add bindings sizeof_pointer j)
                      end)
      /\ (forall a,
             (forall j, i <= j < n -> a <> ptr_add bindings sizeof_pointer j) ->
             (forall r, In r (chain_requests rebs) ->
                        replaced r = NULL \/ replaced r <> a) ->
             ptr_at s' a = ptr_at s a).
Proof.
  induction k as [|k IH]; intros i s Hi Hk; rewrite for_uint_unfold;
    destruct (i <? n) eqn:Hlt;
    try (apply Z.ltb_ge in Hlt; exists s;
         repeat split; try reflexivity; intros; lia).
  - apply Z.ltb_lt in Hlt. lia.
  - apply Z.ltb_lt in Hlt.
    rewrite (slot_body_match rebs symtab strtab indices bindings i s rebs_wf).
    rewrite wrap32_small by lia.
    set (s1 := match slot_match rebs symtab strtab indices i s with
               | Some r => apply_rebinding (ptr_add bindings sizeof_pointer i) r s
               | None => s
               end).
    assert (Henv1 : u32_at s1 = u32_at s /\ cstr_at s1 = cstr_at s).
    { unfold s1. destruct (slot_match _ _ _ _ i s);
        [apply u32_cstr_apply_rebinding|auto]. }
    assert (Hin1 : forall r, slot_match rebs symtab strtab indices i s = Some r ->
                             In r (chain_requests rebs)).
    { intros r Hr. unfold slot_match in Hr.
      destruct (is_sentinel _); [discriminate|].
      apply find_some in Hr. apply Hr. }
    assert (Hother1 : forall a,
               a <> ptr_add bindings sizeof_pointer i ->
               (forall r, In r (chain_requests rebs) ->
                          replaced r = NULL \/ replaced r <> a) ->
               ptr_at s1 a = ptr_at s a).
    { intros a Ha Hout. unfold s1.
      destruct (slot_match _ _ _ _ i s) as [r|] eqn:Hr; [|reflexivity].
      apply ptr_at_apply_rebinding_elsewhere; [exact Ha|].
      apply Hout. apply Hin1. reflexivity. }
    destruct (IH (i + 1) s1) as (s' & Hrun & Hu & Hc & Hslots & Hframe); try lia.
    destruct Henv1 as [Hu1 Hc1].
    exists s'. split; [exact Hrun|].
    split; [rewrite Hu; exact Hu1|]. split; [rewrite Hc; exact Hc1|].
    split.
    + intros j Hj. destruct (Z.eq_dec j i) as [->|Hne].
      * rewrite Hframe.
        -- unfold s1. destruct (slot_match _ _ _ _ i s) as [r|];
             [apply ptr_at_apply_rebinding_slot|reflexivity].
        -- intros j' Hj' Heq. apply ptr_add_pointer_inj in Heq; lia.
        -- intros r Hr. apply no_alias; [exact Hr|lia].
      * rewrite Hslots by lia.
        rewrite (slot_match_env _ _ _ _ _ _ _ Hu1 Hc1).
        destruct (slot_match _ _ _ _ j s); [reflexivity|].
        apply Hother1.
        -- intros Heq. apply ptr_add_pointer_inj in Heq; lia.
        -- intros r Hr. apply no_alias; [exact Hr|lia].
    + intros a Ha Hout. rewrite Hframe.
      * apply Hother1; [apply Ha; lia|exact Hout].
      * intros j Hj. apply Ha. lia.
      * exact Hout.
Qed.

(** A second run of the slot loop, in the state the first run left, changes
    no pointer cell. *)
Lemma slot_loop_again (s0 : process) :
  (forall j, 0 <= j < n ->
             forall r, slot_match rebs symtab strtab indices j s0 = Some r ->
                       ptr_at s0 (ptr_add bindings sizeof_pointer j) = replacement r) ->
  forall (fuel : nat) (s : process) (f : flow process),
    u32_at s = u32_at s0 -> cstr_at s = cstr_at s0 ->
    (forall a, ptr_at s a = ptr_at s0 a) ->
    for_uint fuel n (slot_body rebs symtab strtab indices bindings) 0 s = Some f ->
    forall a, ptr_at (flow_state f) a = ptr_at s0 a.
Proof.
  intros Hdone fuel s f Hu Hc Hp H.
  assert (HP : u32_at (flow_state f) = u32_at s0
               /\ cstr_at (flow_state f) = cstr_at s0
               /\ forall a, ptr_at (flow_state f) a = ptr_at s0 a); [|apply HP].
  apply (for_uint_preserves_indexed n
           (slot_body rebs symtab strtab indices bindings)
           (fun x => u32_at x = u32_at s0 /\ cstr_at x = cstr_at s0
                     /\ forall a, ptr_at x a = ptr_at s0 a) n_fits)
    with (fuel := fuel) (i := 0) (s := s); [|lia|auto|exact H].
  intros j x g Hj (Hxu & Hxc & Hxp) Hb.
  rewrite (slot_body_match _ _ _ _ _ _ _ rebs_wf) in Hb.
  inversion Hb; subst g. cbn [flow_state]. clear Hb.
  rewrite (slot_match_env _ _ _ _ _ _ _ Hxu Hxc).
  destruct (slot_match rebs symtab strtab indices j s0) as [r|] eqn:Hr;
    [|auto].
  destruct (u32_cstr_apply_rebinding (ptr_add bindings sizeof_pointer j) r x)
    as [Hu' Hc'].
  split; [rewrite Hu'; exact Hxu|]. split; [rewrite Hc'; exact Hxc|].
  assert (Hcur : ptr_at x (ptr_add bindings sizeof_pointer j) = replacement r).
  { rewrite Hxp. apply (Hdone j Hj r Hr). }
  intros a. destruct (Z.eq_dec a (ptr_add bindings sizeof_pointer j)) as [->|Ha].
  - rewrite ptr_at_apply_rebinding_slot, <- Hxp. symmetry. exact Hcur.
  - rewrite ptr_at_apply_rebinding_guarded; [apply Hxp|right; exact Hcur|exact Ha].
Qed.
End SlotLoop.

(** A pass over a section, with what it leaves in the slots and elsewhere. *)
Lemma perform_rebinding_with_section_post (rebs : list rebindings_entry)
      (section : section_t) (slide symtab strtab indirect_symtab : Z)
      (st : process) :
  Forall wf_entry rebs ->
  section_slots section < 2 ^ 32 ->
  (forall r i, In r (chain_requests rebs) -> 0 <= i < section_slots section ->
               replaced r = NULL
               \/ replaced r <> ptr_add (section_bindings section slide)
                                        sizeof_pointer i) ->
  exists st',
    perform_rebinding_with_section rebs section slide symtab strtab
                                   indirect_symtab st = Some st'
    /\ u32_at st' = u32_at st /\ cstr_at st' = cstr_at st
    /\ (forall j, 0 <= j < section_slots section ->
                  ptr_at st' (ptr_add (section_bindings section slide)
                                      sizeof_pointer j)
                  = match slot_match rebs symtab strtab
                                     (ptr_add indirect_symtab sizeof_uint32
                                              (reserved1 section)) j st with
                    | Some r => replacement r
                    | None => ptr_at st (ptr_add (section_bindings section slide)
                                                 sizeof_pointer j)
                    end)
    /\ (forall a,
           (forall j, 0 <= j < section_slots section ->
                      a <> ptr_add (section_bindings section slide)
                                   sizeof_pointer j) ->
           (forall r, In r (chain_requests rebs) ->
                      replaced r = NULL \/ replaced r <> a) ->
           ptr_at st' a = ptr_at st a).
Proof.
  intros Hwf Hfit Halias. unfold perform_rebinding_with_section, loop_fuel.
  match goal with
  | |- context [for_uint _ _ _ 0 ?s0] =>
      destruct (slot_loop_post rebs symtab strtab
                  (ptr_add indirect_symtab sizeof_uint32 (reserved1 section))
                  (section_bindings section slide) (section_slots section)
                  Hwf Hfit Halias (Z.to_nat (section_slots section)) 0 s0)
        as (s' & Hrun & Hu & Hc & Hslots & Hframe); try lia;
      assert (Hs0 : u32_at s0 = u32_at st /\ cstr_at s0 = cstr_at st
                    /\ ptr_at s0 = ptr_at st)
        by (destruct (strcmp_eq (sect_segname section) SEG_DATA_CONST);
            repeat split)
  end.
  destruct Hs0 as (Hu0 & Hc0 & Hp0).
  rewrite Hrun. cbn [flow_state]. eexists. split; [reflexivity|].
  assert (Hfin : forall x,
             ptr_at (if strcmp_eq (sect_segname section) SEG_DATA_CONST
                     then mprotect (section_bindings section slide) (size section)
                                   x s'
                     else s') = ptr_at s'
             /\ u32_at (if strcmp_eq (sect_segname section) SEG_DATA_CONST
                        then mprotect (section_bindings section slide)
                                      (size section) x s'
                        else s') = u32_at s'
             /\ cstr_at (if strcmp_eq (sect_segname section) SEG_DATA_CONST
                         then mprotect (section_bindings section slide)
                                       (size section) x s'
                         else s') = cstr_at s')
    by (intros x; destruct (strcmp_eq (sect_segname section) SEG_DATA_CONST);
        repeat split).
  match goal with
  | |- context [mprotect _ _ ?x s'] => destruct (Hfin x) as (Hp & Hu' & Hc')
  end.
  rewrite Hp, Hu', Hc'.
  split; [rewrite Hu; exact Hu0|]. split; [rewrite Hc; exact Hc0|].
  split.
  - intros j Hj. rewrite (Hslots j Hj).
    rewrite (slot_match_env _ _ _ _ _ _ _ Hu0 Hc0), Hp0. reflexivity.
  - intros a Ha Hout. rewrite (Hframe a Ha Hout), Hp0. reflexivity.
Qed.

Lemma sample_la_no_alias :
  forall r i,
    In r (chain_requests sample_chain) ->
    0 <= i < section_slots Sample.la_symbol_ptr ->
    replaced r = NULL
    \/ replaced r <> ptr_add (section_bindings Sample.la_symbol_ptr Sample.slide)
                             sizeof_pointer i.
Proof.
  intros r i [<-|[]] Hi. right.
  change (section_slots Sample.la_symbol_ptr) with 3 in Hi.
  assert (E : i = 0 \/ i = 1 \/ i = 2) by lia.
  destruct E as [->|[->| ->]]; discriminate.
Qed.

(** In the cell model a pass is idempotent on pointers: a second pass over
    the same section with the same registry, run in the process the first
    pass left, returns and changes no pointer cell.  The slots already hold
    their replacements, so no output slot is overwritten with a
    replacement. *)
Lemma perform_rebinding_with_section_again
        (rebs : list rebindings_entry) (section : section_t)
        (slide symtab strtab indirect_symtab : Z) (st : process) :
  Forall wf_entry rebs ->
  section_slots section < 2 ^ 32 ->
  (forall r i, In r (chain_requests rebs) -> 0 <= i < section_slots section ->
               replaced r = NULL
               \/ replaced r <> ptr_add (section_bindings section slide)
                                        sizeof_pointer i) ->
  exists st1 st2,
    perform_rebinding_with_section rebs section slide symtab strtab
                                   indirect_symtab st = Some st1
    /\ perform_rebinding_with_section rebs section slide symtab strtab
                                      indirect_symtab st1 = Some st2
    /\ forall a, ptr_at st2 a = ptr_at st1 a.
Proof.
  intros Hwf Hfit Halias.
  destruct (perform_rebinding_with_section_post rebs section slide symtab strtab
              indirect_symtab st Hwf Hfit Halias)
    as (st1 & Hrun1 & Hu1 & Hc1 & Hslots1 & _).
  destruct (perform_rebinding_with_section_post rebs section slide symtab strtab
              indirect_symtab st1 Hwf Hfit Halias)
    as (st2 & Hrun2 & _).
  exists st1, st2. split; [exact Hrun1|]. split; [exact Hrun2|].
  unfold perform_rebinding_with_section in Hrun2.
  destruct (for_uint _ _ _ _ _) as [f|] eqn:Hf; [|discriminate].
  assert (Hp : forall a, ptr_at (flow_state f) a = ptr_at st1 a).
  { eapply (slot_loop_again rebs symtab strtab
              (ptr_add indirect_symtab sizeof_uint32 (reserved1 section))
              (section_bindings section slide) (section_slots section)
              Hwf Hfit st1); [| | | |exact Hf].
    - intros j Hj r Hr. rewrite (Hslots1 j Hj).
      rewrite (slot_match_env _ _ _ _ _ _ _ Hu1 Hc1) in Hr. rewrite Hr.
      reflexivity.
    - destruct (strcmp_eq (sect_segname section) SEG_DATA_CONST); reflexivity.
    - destruct (strcmp_eq (sect_segname section) SEG_DATA_CONST); reflexivity.
    - intros a.
      destruct (strcmp_eq (sect_segname section) SEG_DATA_CONST); reflexivity. }
  inversion Hrun2; subst st2. intros a.
  destruct (strcmp_eq (sect_segname section) SEG_DATA_CONST); apply Hp.
Qed.

(* ================================================================== *)
(** * The cells an image pass can write *)




(* ================================================================== *)
(** * A table too long for the counter *)

Lemma passes_diverge (rebs : list rebindings_entry)
      (slide symtab strtab indirect_symtab : Z) (sect : section_t) :
  2 ^ 32 <= section_slots sect ->
  forall sects st,
    In sect sects ->
    passes rebs slide symtab strtab indirect_symtab sects st = None.
Proof.
  intros Hbig. induction sects as [|x rest IH]; intros st Hin; [destruct Hin|].
  cbn [passes]. destruct Hin as [->|Hin].
  - rewrite perform_rebinding_with_section_diverges by exact Hbig. reflexivity.
  - destruct (perform_rebinding_with_section _ _ _ _ _ _ st); [|reflexivity].
    apply IH. exact Hin.
Qed.

(** X11: the slot counter [i] is a 32-bit [uint] compared with the 64-bit
    [size / 8].  For a patched section with [2^32] slots or more the counter
    wraps to [0] before it reaches the bound: the slot loop is never left,
    whatever the number of iterations granted, and the pass over the image
    does not return. *)
Theorem oversized_pointer_section_never_finishes
        (rebs : list rebindings_entry) (header : mach_header) (slide : Z)
        (st : process) (le : segment_command_t) (sc : symtab_command)
        (dc : dysymtab_command) (sect : section_t) :
  dladdr st (header_addr header) = true ->
  linkedit_segment (locate (commands header)) = Some le ->
  symtab_cmd (locate (commands header)) = Some sc ->
  dysymtab_cmd (locate (commands header)) = Some dc ->
  wrap32 (nindirectsyms dc) <> 0 ->
  In sect (patched_sections (commands header)) ->
  2 ^ 32 <= size sect / 8 ->
  rebind_symbols_for_image rebs header slide st = None
  /\ forall (fuel : nat) (symtab strtab indices bindings : Z) (s : process),
      for_uint fuel (size sect / 8)
               (slot_body rebs symtab strtab indices bindings) 0 s = None.
Proof.
  intros Hdl Hle Hsc Hdc Hn Hin Hbig. split.
  - unfold rebind_symbols_for_image. rewrite Hdl, Hle, Hsc, Hdc. cbn [negb].
    apply Z.eqb_neq in Hn. rewrite Hn. rewrite commands_loop_as_passes.
    apply (passes_diverge _ _ _ _ _ sect Hbig). exact Hin.
  - intros fuel symtab strtab indices bindings s.
    apply slot_loop_diverges. exact Hbig.
Qed.

Lemma oversized_pointer_section_never_finishes_witness :
  rebind_symbols_for_image sample_chain sample_header_oversize Sample.slide
                           Sample.process0 = None
  /\ forall (fuel : nat) (symtab strtab indices bindings : Z) (s : process),
      for_uint fuel (0x800000000 / 8)
               (slot_body sample_chain symtab strtab indices bindings) 0 s
      = None.
Proof.
  apply (oversized_pointer_section_never_finishes
           sample_chain sample_header_oversize Sample.slide Sample.process0
           Sample.linkedit_seg Sample.symtab_c Sample.dysymtab_c
           (mkSection "__got" "__DATA_CONST" 0x100004000
                      0x800000000 S_NON_LAZY_SYMBOL_POINTERS 0)
           eq_refl eq_refl eq_refl eq_refl).
  - discriminate.
  - left. reflexivity.
  - discriminate.
Defined.

(* ================================================================== *)
(** * The single-image entry point and the global registry *)

Lemma for_uint_commutes {S : Type} (g : S -> S) (n : Z)
      (body : Z -> S -> option (flow S)) :
  (forall j s, body j (g s) = option_map (flow_map g) (body j s)) ->
  forall (fuel : nat) (i : Z) (s : S),
    for_uint fuel n body i (g s)
    = option_map (flow_map g) (for_uint fuel n body i s).
Proof.
  intros Hbody. induction fuel as [|fuel IH]; intros i s; [reflexivity|].
  rewrite !for_uint_unfold. destruct (i <? n); [|reflexivity].
  rewrite Hbody. destruct (body i s) as [[s'|s']|]; cbn [option_map flow_map];
    [apply IH|reflexivity|reflexivity].
Qed.

Section OtherRegistry.
Variable c : list rebindings_entry.

Lemma apply_rebinding_other_registry (slot : Z) (r : rebinding) (st : process) :
  apply_rebinding slot r (set_rebindings_head c st)
  = set_rebindings_head c (apply_rebinding slot r st).
Proof.
  unfold apply_rebinding. cbn [ptr_at set_rebindings_head].
  destruct (negb (replaced r =? NULL) && negb (ptr_at st slot =? replacement r));
    reflexivity.
Qed.

Lemma entry_body_other_registry (slot : Z) (symbol_name : string)
      (e : rebindings_entry) (j : Z) (st : process) :
  entry_body slot symbol_name e j (set_rebindings_head c st)
  = option_map (flow_map (set_rebindings_head c))
               (entry_body slot symbol_name e j st).
Proof.
  unfold entry_body.
  destruct (symbol_name_longer_than_1 symbol_name); [|reflexivity].
  destruct (nth_error (rebindings e) (Z.to_nat j)) as [r|]; [|reflexivity].
  destruct (strcmp_eq _ (name r)); [|reflexivity].
  cbn [option_map flow_map]. rewrite apply_rebinding_other_registry. reflexivity.
Qed.

Lemma chain_loop_other_registry (slot : Z) (symbol_name : string) :
  forall (chain : list rebindings_entry) (st : process),
    chain_loop slot symbol_name chain (set_rebindings_head c st)
    = option_map (set_rebindings_head c) (chain_loop slot symbol_name chain st).
Proof.
  induction chain as [|e chain IH]; intros st; cbn [chain_loop]; [reflexivity|].
  rewrite (for_uint_commutes (set_rebindings_head c) _ _
             (entry_body_other_registry slot symbol_name e)).
  destruct (for_uint _ _ _ 0 st) as [[s'|s']|]; cbn [option_map flow_map];
    [apply IH|reflexivity|reflexivity].
Qed.

Lemma slot_body_other_registry (rebs : list rebindings_entry)
      (symtab strtab indices bindings i : Z) (st : process) :
  slot_body rebs symtab strtab indices bindings i (set_rebindings_head c st)
  = option_map (flow_map (set_rebindings_head c))
               (slot_body rebs symtab strtab indices bindings i st).
Proof.
  unfold slot_body, slot_symbol_name, load_u32.
  cbn [u32_at cstr_at set_rebindings_head].
  destruct (is_sentinel _); [reflexivity|].
  rewrite chain_loop_other_registry.
  destruct (chain_loop _ _ rebs st); reflexivity.
Qed.

Lemma perform_rebinding_with_section_other_registry
      (rebs : list rebindings_entry) (section : section_t)
      (slide symtab strtab indirect_symtab : Z) (st : process) :
  perform_rebinding_with_section rebs section slide symtab strtab
                                 indirect_symtab (set_rebindings_head c st)
  = option_map (set_rebindings_head c)
               (perform_rebinding_with_section rebs section slide symtab strtab
                                               indirect_symtab st).
Proof.
  unfold perform_rebinding_with_section.
  destruct (strcmp_eq (sect_segname section) SEG_DATA_CONST).
  - change (mprotect (section_bindings section slide) (size section)
                     (Z.lor PROT_READ PROT_WRITE) (set_rebindings_head c st))
      with (set_rebindings_head c
              (mprotect (section_bindings section slide) (size section)
                        (Z.lor PROT_READ PROT_WRITE) st)).
    rewrite (for_uint_commutes (set_rebindings_head c) _ _
               (slot_body_other_registry rebs symtab strtab _ _)).
    destruct (for_uint _ _ _ 0 _) as [[s'|s']|]; reflexivity.
  - rewrite (for_uint_commutes (set_rebindings_head c) _ _
               (slot_body_other_registry rebs symtab strtab _ _)).
    destruct (for_uint _ _ _ 0 _) as [[s'|s']|]; reflexivity.
Qed.

Lemma passes_other_registry (rebs : list rebindings_entry)
      (slide symtab strtab indirect_symtab : Z) :
  forall (sects : list section_t) (st : process),
    passes rebs slide symtab strtab indirect_symtab sects
           (set_rebindings_head c st)
    = option_map (set_rebindings_head c)
                 (passes rebs slide symtab strtab indirect_symtab sects st).
Proof.
  induction sects as [|sect rest IH]; intros st; cbn [passes]; [reflexivity|].
  rewrite perform_rebinding_with_section_other_registry.
  destruct (perform_rebinding_with_section _ _ _ _ _ _ st); cbn [option_map];
    [apply IH|reflexivity].
Qed.

Lemma rebind_symbols_for_image_other_registry (rebs : list rebindings_entry)
      (header : mach_header) (slide : Z) (st : process) :
  rebind_symbols_for_image rebs header slide (set_rebindings_head c st)
  = option_map (set_rebindings_head c)
               (rebind_symbols_for_image rebs header slide st).
Proof.
  unfold rebind_symbols_for_image. cbn [dladdr set_rebindings_head].
  destruct (negb (dladdr st (header_addr header))); [reflexivity|].
  destruct (symtab_cmd _) as [sc|]; [|reflexivity].
  destruct (dysymtab_cmd _) as [dc|]; [|reflexivity].
  destruct (linkedit_segment _) as [le|]; [|reflexivity].
  destruct (wrap32 (nindirectsyms dc) =? 0); [reflexivity|].
  rewrite !commands_loop_as_passes. apply passes_other_registry.
Qed.
Lemma malloc_returns_other_registry (p : Z) (st : process) :
  malloc_returns p (set_rebindings_head c st)
  = set_rebindings_head c (malloc_returns p st).
Proof. unfold malloc_returns. destruct (p =? NULL); reflexivity. Qed.

Lemma free_other_registry (p : Z) (st : process) :
  free p (set_rebindings_head c st) = set_rebindings_head c (free p st).
Proof. unfold free. destruct (p =? NULL); reflexivity. Qed.

Lemma prepend_rebindings_other_registry (new_entry new_array : Z)
      (head : list rebindings_entry) (rebs : list rebinding) (nel : Z)
      (st : process) :
  prepend_rebindings new_entry new_array head rebs nel (set_rebindings_head c st)
  = let '(retval, head', st') :=
      prepend_rebindings new_entry new_array head rebs nel st in
    (retval, head', set_rebindings_head c st').
Proof.
  unfold prepend_rebindings.
  rewrite !malloc_returns_other_registry, free_other_registry.
  destruct (new_entry =? NULL); [reflexivity|].
  destruct (new_array =? NULL); reflexivity.
Qed.
End OtherRegistry.

(** X12: [rebind_symbols_image] does not consult the global registry.
    Run in a process that differs only by the registry [c] it holds, the
    call returns the same status and leaves the same process, apart from
    that registry, which it hands back unchanged: requests registered
    through [rebind_symbols] are not applied by the single-image entry
    point. *)
Theorem rebind_symbols_image_ignores_global_registry
        (c : list rebindings_entry) (new_entry new_array : Z)
        (header : mach_header) (slide : Z) (rebs : list rebinding) (nel : Z)
        (st : process) :
  rebind_symbols_image new_entry new_array header slide rebs nel
                       (set_rebindings_head c st)
  = match rebind_symbols_image new_entry new_array header slide rebs nel st with
    | Some (retval, st') => Some (retval, set_rebindings_head c st')
    | None => None
    end.
Proof.
  unfold rebind_symbols_image.
  rewrite prepend_rebindings_other_registry.
  destruct (prepend_rebindings new_entry new_array [] rebs nel st)
    as [[retval head'] st1].
  rewrite rebind_symbols_for_image_other_registry.
  destruct (rebind_symbols_for_image head' header slide st1) as [st2|];
    [|reflexivity].
  cbn [option_map]. destruct head' as [|e rest];
    rewrite <- ?free_other_registry; reflexivity.
Qed.

(* ================================================================== *)
(** * What a pass stores in output slots *)

Section OutputSlots.
Variable rebs : list rebindings_entry.
Variables symtab strtab indices bindings n : Z.
Hypothesis rebs_wf : Forall wf_entry rebs.
Hypothesis n_fits : n < 2 ^ 32.
Hypothesis no_alias :
  forall r i, In r (chain_requests rebs) -> 0 <= i < n ->
              replaced r = NULL \/ replaced r <> ptr_add bindings sizeof_pointer i.

(** A cell outside the table either keeps its pointer through the slot
    loop, or it is the output slot of the request matched for some slot and
    ends with the pointer that slot held when the loop started. *)
Lemma slot_loop_output_slots :
  forall (k : nat) (i : Z) (s : process),
    0 <= i -> n - i <= Z.of_nat k ->
    exists s',
      for_uint (Datatypes.S k) n
               (slot_body rebs symtab strtab indices bindings) i s
      = Some (Continue s')
      /\ forall a,
          (forall j, i <= j < n -> a <> ptr_add bindings sizeof_pointer j) ->
          ptr_at s' a = ptr_at s a
          \/ exists j r,
              i <= j < n
              /\ slot_match rebs symtab strtab indices j s = Some r
              /\ replaced r = a /\ replaced r <> NULL
              /\ ptr_at s' a = ptr_at s (ptr_add bindings sizeof_pointer j)
              /\ ptr_at s (ptr_add bindings sizeof_pointer j) <> replacement r.
Proof.
  induction k as [|k IH]; intros i s Hi Hk; rewrite for_uint_unfold;
    destruct (i <? n) eqn:Hlt;
    try (apply Z.ltb_ge in Hlt; exists s; split; [reflexivity|]; intros; left;
         reflexivity).
  - apply Z.ltb_lt in Hlt. lia.
  - apply Z.ltb_lt in Hlt.
    rewrite (slot_body_match rebs symtab strtab indices bindings i s rebs_wf).
    rewrite wrap32_small by lia.
    set (s1 := match slot_match rebs symtab strtab indices i s with
               | Some r => apply_rebinding (ptr_add bindings sizeof_pointer i) r s
               | None => s
               end).
    assert (Henv1 : u32_at s1 = u32_at s /\ cstr_at s1 = cstr_at s).
    { unfold s1. destruct (slot_match _ _ _ _ i s);
        [apply u32_cstr_apply_rebinding|auto]. }
    destruct Henv1 as [Hu1 Hc1].
    assert (Hin1 : forall r, slot_match rebs symtab strtab indices i s = Some r ->
                             In r (chain_requests rebs)).
    { intros r Hr. unfold slot_match in Hr.
      destruct (is_sentinel _); [discriminate|].
      apply find_some in Hr. apply Hr. }
    destruct (IH (i + 1) s1) as (s' & Hrun & Hout); try lia.
    exists s'. split; [exact Hrun|].
    intros a Ha.
    assert (Hfirst : ptr_at s1 a = ptr_at s a
                     \/ exists r,
                         slot_match rebs symtab strtab indices i s = Some r
                         /\ replaced r = a /\ replaced r <> NULL
                         /\ ptr_at s1 a
                            = ptr_at s (ptr_add bindings sizeof_pointer i)
                         /\ ptr_at s (ptr_add bindings sizeof_pointer i)
                            <> replacement r).
    { unfold s1. destruct (slot_match _ _ _ _ i s) as [r|] eqn:Hr; [|left; reflexivity].
      destruct (Z.eq_dec
                  (ptr_at (apply_rebinding (ptr_add bindings sizeof_pointer i) r s) a)
                  (ptr_at s a)) as [E|E]; [left; exact E|].
      right. exists r.
      destruct (ptr_at_apply_rebinding_changed
                  (ptr_add bindings sizeof_pointer i) r s a) as (E1 & E2 & E3);
        [apply Ha; lia|exact E|].
      repeat split; auto.
      intros Hnull. apply E.
      apply ptr_at_apply_rebinding_guarded; [left; exact Hnull|apply Ha; lia]. }
    destruct (Hout a (fun j Hj => Ha j ltac:(lia)))
      as [Hkeep|(j & r & Hj & Hm & Hrep & Hnn & Hval & Hneq)].
    + rewrite Hkeep.
      destruct Hfirst as [E|(r & Hm & Hrep & Hnn & Hval & Hneq)]; [left; exact E|].
      right. exists i, r. repeat split; auto; lia.
    + right. exists j, r.
      rewrite (slot_match_env _ _ _ _ _ _ _ Hu1 Hc1) in Hm.
      assert (Hsame : ptr_at s1 (ptr_add bindings sizeof_pointer j)
                      = ptr_at s (ptr_add bindings sizeof_pointer j)).
      { unfold s1. destruct (slot_match _ _ _ _ i s) as [r0|] eqn:Hr0;
          [|reflexivity].
        apply ptr_at_apply_rebinding_elsewhere.
        - intros Heq. apply ptr_add_pointer_inj in Heq; lia.
        - apply no_alias; [apply Hin1; reflexivity|lia]. }
      rewrite Hsame in Hval, Hneq.
      repeat split; auto; lia.
Qed.
End OutputSlots.

(** What a pass stores outside the table, in the cell model: a cell that is
    not a slot of the table either holds the pointer it held before, or it
    is the non-null output slot of the request matched for some slot of the
    table and holds the pointer that slot held before the pass, which
    differs from the replacement of that request. *)
Lemma perform_rebinding_with_section_output_slots
        (rebs : list rebindings_entry) (section : section_t)
        (slide symtab strtab indirect_symtab : Z) (st : process) :
  Forall wf_entry rebs ->
  section_slots section < 2 ^ 32 ->
  (forall r i, In r (chain_requests rebs) -> 0 <= i < section_slots section ->
               replaced r = NULL
               \/ replaced r <> ptr_add (section_bindings section slide)
                                        sizeof_pointer i) ->
  exists st',
    perform_rebinding_with_section rebs section slide symtab strtab
                                   indirect_symtab st = Some st'
    /\ forall a,
        (forall j, 0 <= j < section_slots section ->
                   a <> ptr_add (section_bindings section slide)
                                sizeof_pointer j) ->
        ptr_at st' a = ptr_at st a
        \/ exists j r,
            0 <= j < section_slots section
            /\ slot_match rebs symtab strtab
                          (ptr_add indirect_symtab sizeof_uint32
                                   (reserved1 section)) j st = Some r
            /\ replaced r = a /\ replaced r <> NULL
            /\ ptr_at st' a
               = ptr_at st (ptr_add (section_bindings section slide)
                                    sizeof_pointer j)
            /\ ptr_at st (ptr_add (section_bindings section slide)
                                  sizeof_pointer j) <> replacement r.
Proof.
  intros Hwf Hfit Halias. unfold perform_rebinding_with_section, loop_fuel.
  match goal with
  | |- context [for_uint _ _ _ 0 ?s0] =>
      destruct (slot_loop_output_slots rebs symtab strtab
                  (ptr_add indirect_symtab sizeof_uint32 (reserved1 section))
                  (section_bindings section slide) (section_slots section)
                  Hwf Hfit Halias (Z.to_nat (section_slots section)) 0 s0)
        as (s' & Hrun & Hout); try lia;
      assert (Hs0 : u32_at s0 = u32_at st /\ cstr_at s0 = cstr_at st
                    /\ ptr_at s0 = ptr_at st)
        by (destruct (strcmp_eq (sect_segname section) SEG_DATA_CONST);
            repeat split)
  end.
  destruct Hs0 as (Hu0 & Hc0 & Hp0).
  rewrite Hrun. cbn [flow_state]. eexists. split; [reflexivity|].
  intros a Ha.
  assert (Hfin : forall x,
             ptr_at (if strcmp_eq (sect_segname section) SEG_DATA_CONST
                     then mprotect (section_bindings section slide) (size section)
                                   x s'
                     else s') = ptr_at s')
    by (intros x; destruct (strcmp_eq (sect_segname section) SEG_DATA_CONST);
        reflexivity).
  rewrite Hfin.
  destruct (Hout a Ha) as [E|(j & r & Hj & Hm & Hrep & Hnn & Hval & Hneq)].
  - left. rewrite E, Hp0. reflexivity.
  - right. exists j, r.
    rewrite (slot_match_env _ _ _ _ _ _ _ Hu0 Hc0) in Hm.
    rewrite Hp0 in Hval, Hneq. repeat split; auto; lia.
Qed.


(* ================================================================== *)
(** * Pages and access rights *)

Lemma protect_cases (ps start len prot : Z) (vp : Z -> option Z) (x : Z) :
  Machine.protect ps start len prot vp x = vp x
  \/ (Machine.mprotect_ok ps start len vp = true
      /\ start <= x < Machine.round_page ps (start + len)
      /\ vp x <> None
      /\ Machine.protect ps start len prot vp x = Some prot).
Proof.
  unfold Machine.protect.
  destruct (Machine.mprotect_ok ps start len vp) eqn:Hok; [|left; reflexivity].
  destruct ((start <=? x) && (x <? Machine.round_page ps (start + len))) eqn:Hr;
    [|left; reflexivity].
  destruct (vp x) eqn:Hx; [|left; reflexivity].
  right. apply andb_true_iff in Hr. destruct Hr as [H1 H2].
  apply Z.leb_le in H1. apply Z.ltb_lt in H2.
  repeat split; try assumption. discriminate.
Qed.

(** [mprotect] neither maps nor unmaps an address. *)
Lemma protect_mapped (ps start len prot : Z) (vp : Z -> option Z) (x : Z) :
  Machine.protect ps start len prot vp x = None <-> vp x = None.
Proof.
  destruct (protect_cases ps start len prot vp x) as [E|(_ & _ & Hm & E)];
    rewrite E; [tauto|].
  split; [discriminate|]. intros H. contradiction.
Qed.

Lemma protect_in_range (ps start len prot : Z) (vp : Z -> option Z) (x : Z) :
  Machine.mprotect_ok ps start len vp = true ->
  start <= x < Machine.round_page ps (start + len) ->
  vp x <> None ->
  Machine.protect ps start len prot vp x = Some prot.
Proof.
  intros Hok [H1 H2] Hm. unfold Machine.protect. rewrite Hok.
  apply Z.leb_le in H1. apply Z.ltb_lt in H2. rewrite H1, H2. cbn [andb].
  destruct (vp x); [reflexivity|contradiction].
Qed.

Lemma protect_outside (ps start len prot : Z) (vp : Z -> option Z) (x : Z) :
  ~ (start <= x < Machine.round_page ps (start + len)) ->
  Machine.protect ps start len prot vp x = vp x.
Proof.
  intros Hout.
  destruct (protect_cases ps start len prot vp x) as [E|(_ & Hin & _)];
    [exact E|contradiction].
Qed.

Lemma protect_failed (ps start len prot : Z) (vp : Z -> option Z) :
  Machine.mprotect_ok ps start len vp = false ->
  Machine.protect ps start len prot vp = vp.
Proof. intros H. unfold Machine.protect. rewrite H. reflexivity. Qed.

(** A protection with the write bit keeps what could be written writable. *)
Lemma protect_writable (ps start len prot : Z) (vp : Z -> option Z) (x : Z) :
  Z.testbit prot 1 = true ->
  Machine.writable (vp x) = true ->
  Machine.writable (Machine.protect ps start len prot vp x) = true.
Proof.
  intros Hw Hx.
  destruct (protect_cases ps start len prot vp x) as [E|(_ & _ & _ & E)];
    rewrite E; [exact Hx|exact Hw].
Qed.

Lemma forallb_pointwise {A : Type} (f g : A -> bool) (l : list A) :
  (forall x, f x = g x) -> forallb f l = forallb g l.
Proof.
  intros H. induction l as [|a l IH]; [reflexivity|].
  cbn [forallb]. rewrite H, IH. reflexivity.
Qed.

(** Whether [mprotect] succeeds depends on the addresses that are mapped,
    not on their protections. *)
Lemma mprotect_ok_ext (ps start len : Z) (vp vp' : Z -> option Z) :
  (forall x, vp x = None <-> vp' x = None) ->
  Machine.mprotect_ok ps start len vp = Machine.mprotect_ok ps start len vp'.
Proof.
  intros H. unfold Machine.mprotect_ok, Machine.mapped_range. f_equal.
  apply forallb_pointwise. intros k.
  specialize (H (start + ps * Z.of_nat k)).
  destruct (vp (start + ps * Z.of_nat k)), (vp' (start + ps * Z.of_nat k));
    try reflexivity.
  - destruct H as [_ H]. discriminate (H eq_refl).
  - destruct H as [H _]. discriminate (H eq_refl).
Qed.

Lemma mprotect_ok_protect (ps start len s l p : Z) (vp : Z -> option Z) :
  Machine.mprotect_ok ps start len (Machine.protect ps s l p vp)
  = Machine.mprotect_ok ps start len vp.
Proof. apply mprotect_ok_ext. intros x. apply protect_mapped. Qed.

(** Changing the protection of a range twice leaves the second protection
    there and nothing else changed. *)
Lemma protect_twice (ps start len p q : Z) (vp : Z -> option Z) (x : Z) :
  Machine.protect ps start len q (Machine.protect ps start len p vp) x
  = Machine.protect ps start len q vp x.
Proof.
  unfold Machine.protect at 1 3. rewrite mprotect_ok_protect.
  destruct (Machine.mprotect_ok ps start len vp) eqn:Hok.
  - destruct ((start <=? x) && (x <? Machine.round_page ps (start + len))) eqn:Hr.
    + unfold Machine.protect. rewrite Hok, Hr.
      destruct (vp x); reflexivity.
    + unfold Machine.protect. rewrite Hok, Hr. reflexivity.
  - rewrite protect_failed by exact Hok. reflexivity.
Qed.

(* ================================================================== *)
(** * The machine and the cell model *)

Lemma same_cells_refl (s : process) : same_cells s s.
Proof. split; reflexivity. Qed.

Lemma same_cells_sym (s t : process) : same_cells s t -> same_cells t s.
Proof. intros [H1 H2]. split; symmetry; assumption. Qed.

Lemma same_cells_trans (s t u : process) :
  same_cells s t -> same_cells t u -> same_cells s u.
Proof. intros [H1 H2] [H3 H4]. split; congruence. Qed.

Lemma same_cells_fields (s t : process) :
  same_cells s t -> u32_at s = u32_at t /\ cstr_at s = cstr_at t.
Proof.
  intros [_ He]. destruct (env_of_all_fields _ _ He) as (Hu & Hc & _). auto.
Qed.

Lemma same_cells_store (a v : Z) (s t : process) :
  same_cells s t -> same_cells (store_ptr a v s) (store_ptr a v t).
Proof.
  intros [Hp He]. split.
  - unfold store_ptr. cbn. rewrite Hp. reflexivity.
  - rewrite !env_of_store_ptr. exact He.
Qed.

Lemma same_cells_apply_rebinding (slot : Z) (r : rebinding) (s t : process) :
  same_cells s t ->
  same_cells (apply_rebinding slot r s) (apply_rebinding slot r t).
Proof.
  intros H. unfold apply_rebinding. destruct H as [Hp He]. rewrite Hp.
  destruct (negb (replaced r =? NULL) && negb (ptr_at t slot =? replacement r));
    repeat apply same_cells_store; split; assumption.
Qed.

(** A store that the machine completes is the store of the cell model. *)
Lemma machine_store_inv (a v : Z) (st st' : process) :
  Machine.store a v st = Some st' ->
  Machine.writable (vm_prot st a) = true /\ st' = store_ptr a v st.
Proof.
  unfold Machine.store. destruct (Machine.writable (vm_prot st a));
    [|discriminate].
  intros H. inversion H. auto.
Qed.

Lemma machine_apply_rebinding_inv (slot : Z) (r : rebinding) (st st' : process) :
  Machine.apply_rebinding slot r st = Some st' ->
  st' = apply_rebinding slot r st.
Proof.
  unfold Machine.apply_rebinding, apply_rebinding.
  destruct (negb (replaced r =? NULL) && negb (ptr_at st slot =? replacement r)).
  - destruct (Machine.store (replaced r) (ptr_at st slot) st) as [st1|] eqn:H1;
      [|discriminate].
    apply machine_store_inv in H1. destruct H1 as [_ ->].
    intros H2. apply machine_store_inv in H2. apply H2.
  - intros H2. apply machine_store_inv in H2. apply H2.
Qed.

(** With the slot and the output slot writable the machine performs the
    stores of the cell model. *)
Lemma machine_apply_rebinding_safe (slot : Z) (r : rebinding) (st : process) :
  Machine.writable (vm_prot st slot) = true ->
  replaced r = NULL \/ Machine.writable (vm_prot st (replaced r)) = true ->
  Machine.apply_rebinding slot r st = Some (apply_rebinding slot r st).
Proof.
  intros Hs Ho. unfold Machine.apply_rebinding, apply_rebinding, Machine.store.
  destruct (negb (replaced r =? NULL) && negb (ptr_at st slot =? replacement r))
    eqn:Hg.
  - destruct Ho as [Ho|Ho].
    + apply Z.eqb_eq in Ho. rewrite Ho in Hg. cbn in Hg. discriminate.
    + rewrite Ho. cbn [store_ptr set_ptr_at vm_prot]. rewrite Hs. reflexivity.
  - rewrite Hs. reflexivity.
Qed.

Section Simulation.
Context {S T : Type}.
Variable Rel : S -> T -> Prop.
Variable n : Z.
Variable bS : Z -> S -> option (flow S).
Variable bT : Z -> T -> option (flow T).

(** A loop whose iterations are matched by those of another loop is matched
    by that loop. *)
Lemma for_uint_simulation :
  (forall j s t g, Rel s t -> bS j s = Some g ->
                   exists h, bT j t = Some h /\ flow_rel Rel g h) ->
  forall (fuel : nat) (i : Z) (s : S) (t : T) (g : flow S),
    Rel s t -> for_uint fuel n bS i s = Some g ->
    exists h, for_uint fuel n bT i t = Some h /\ flow_rel Rel g h.
Proof.
  intros Hbody. induction fuel as [|fuel IH]; intros i s t g HR H;
    [discriminate|].
  rewrite for_uint_unfold in H. rewrite for_uint_unfold.
  destruct (i <? n).
  - destruct (bS i s) as [g1|] eqn:Hb; [|discriminate].
    destruct (Hbody _ _ _ _ HR Hb) as (h1 & Hh1 & Hrel). rewrite Hh1.
    destruct g1 as [s1|s1], h1 as [t1|t1]; cbn in Hrel; try contradiction.
    + apply (IH _ _ _ _ Hrel H).
    + inversion H; subst. exists (Break t1). split; [reflexivity|exact Hrel].
  - inversion H; subst. exists (Continue t). split; [reflexivity|exact HR].
Qed.

(** The same with the index in view, for a bound that fits the counter. *)
Lemma for_uint_simulation_indexed :
  n < 2 ^ 32 ->
  (forall j s t g, 0 <= j < n -> Rel s t -> bS j s = Some g ->
                   exists h, bT j t = Some h /\ flow_rel Rel g h) ->
  forall (fuel : nat) (i : Z) (s : S) (t : T) (g : flow S),
    0 <= i ->
    Rel s t -> for_uint fuel n bS i s = Some g ->
    exists h, for_uint fuel n bT i t = Some h /\ flow_rel Rel g h.
Proof.
  intros Hn Hbody. induction fuel as [|fuel IH]; intros i s t g Hi HR H;
    [discriminate|].
  rewrite for_uint_unfold in H. rewrite for_uint_unfold.
  destruct (i <? n) eqn:Hlt.
  - apply Z.ltb_lt in Hlt.
    destruct (bS i s) as [g1|] eqn:Hb; [|discriminate].
    destruct (Hbody i _ _ _ (conj Hi Hlt) HR Hb) as (h1 & Hh1 & Hrel).
    rewrite Hh1.
    destruct g1 as [s1|s1], h1 as [t1|t1]; cbn in Hrel; try contradiction.
    + rewrite wrap32_small in H by lia. rewrite wrap32_small by lia.
      apply (IH (i + 1) _ _ _ ltac:(lia) Hrel H).
    + inversion H; subst. exists (Break t1). split; [reflexivity|exact Hrel].
  - inversion H; subst. exists (Continue t). split; [reflexivity|exact HR].
Qed.
End Simulation.

(** ** A run the machine completes is a run of the cell model *)

Lemma machine_entry_body_refines (slot : Z) (symbol_name : string)
      (e : rebindings_entry) (j : Z) (sm s : process) (g : flow process) :
  same_cells sm s ->
  Machine.entry_body slot symbol_name e j sm = Some g ->
  exists h, entry_body slot symbol_name e j s = Some h /\ flow_rel same_cells g h.
Proof.
  intros HR. unfold Machine.entry_body, entry_body.
  destruct (symbol_name_longer_than_1 symbol_name).
  - destruct (nth_error (rebindings e) (Z.to_nat j)) as [r|]; [|discriminate].
    destruct (strcmp_eq (symbol_name_from_1 symbol_name) (name r)).
    + destruct (Machine.apply_rebinding slot r sm) as [sm'|] eqn:Ha;
        [|discriminate].
      intros H. inversion H; subst. eexists. split; [reflexivity|]. cbn.
      rewrite (machine_apply_rebinding_inv _ _ _ _ Ha).
      apply same_cells_apply_rebinding. exact HR.
    + intros H. inversion H; subst. eexists. split; [reflexivity|exact HR].
  - intros H. inversion H; subst. eexists. split; [reflexivity|exact HR].
Qed.

Lemma machine_chain_loop_refines (slot : Z) (symbol_name : string) :
  forall (chain : list rebindings_entry) (sm s sm' : process),
    same_cells sm s ->
    Machine.chain_loop slot symbol_name chain sm = Some sm' ->
    exists s', chain_loop slot symbol_name chain s = Some s' /\ same_cells sm' s'.
Proof.
  induction chain as [|e chain IH]; intros sm s sm' HR H;
    cbn [Machine.chain_loop chain_loop] in *.
  - inversion H; subst. exists s. split; [reflexivity|exact HR].
  - destruct (for_uint _ _ (Machine.entry_body slot symbol_name e) 0 sm)
      as [g|] eqn:Hg; [|discriminate].
    destruct (for_uint_simulation same_cells (rebindings_nel e)
                (Machine.entry_body slot symbol_name e)
                (entry_body slot symbol_name e)
                (fun j a b g0 HR0 => machine_entry_body_refines slot symbol_name
                                       e j a b g0 HR0)
                _ _ _ _ _ HR Hg) as (h & Hh & Hrel).
    rewrite Hh. destruct g as [a|a], h as [b|b]; cbn in Hrel; try contradiction.
    + apply (IH _ _ _ Hrel H).
    + inversion H; subst. exists b. split; [reflexivity|exact Hrel].
Qed.

Lemma machine_slot_body_refines (rebs : list rebindings_entry)
      (symtab strtab indices bindings i : Z) (sm s : process) (g : flow process) :
  same_cells sm s ->
  Machine.slot_body rebs symtab strtab indices bindings i sm = Some g ->
  exists h, slot_body rebs symtab strtab indices bindings i s = Some h
            /\ flow_rel same_cells g h.
Proof.
  intros HR. destruct (same_cells_fields _ _ HR) as [Hu Hc].
  unfold Machine.slot_body, slot_body, slot_symbol_name, load_u32.
  rewrite Hu, Hc.
  destruct (is_sentinel _).
  - intros H. inversion H; subst. eexists. split; [reflexivity|exact HR].
  - destruct (Machine.chain_loop _ _ _ sm) as [sm'|] eqn:Hl; [|discriminate].
    destruct (machine_chain_loop_refines _ _ _ _ _ _ HR Hl) as (s' & Hs' & HR').
    rewrite Hs'. intros H. inversion H; subst.
    eexists. split; [reflexivity|exact HR'].
Qed.

(** The machine's stores leave the protections and the surroundings. *)
Lemma machine_apply_rebinding_prot (slot : Z) (r : rebinding) (st st' : process) :
  Machine.apply_rebinding slot r st = Some st' ->
  vm_prot st' = vm_prot st /\ env_of st' = env_of st.
Proof.
  intros H. rewrite (machine_apply_rebinding_inv _ _ _ _ H).
  split; [apply vm_prot_apply_rebinding|apply env_of_apply_rebinding].
Qed.

Lemma machine_chain_loop_prot (slot : Z) (symbol_name : string) :
  forall (chain : list rebindings_entry) (st st' : process),
    Machine.chain_loop slot symbol_name chain st = Some st' ->
    vm_prot st' = vm_prot st /\ env_of st' = env_of st.
Proof.
  induction chain as [|e chain IH]; intros st st' H; cbn [Machine.chain_loop] in H.
  - inversion H; subst. auto.
  - destruct (for_uint _ _ _ _ _) as [g|] eqn:Hg; [|discriminate].
    assert (Hg' : vm_prot (flow_state g) = vm_prot st
                  /\ env_of (flow_state g) = env_of st).
    { apply (for_uint_preserves (rebindings_nel e)
               (Machine.entry_body slot symbol_name e)
               (fun x => vm_prot x = vm_prot st /\ env_of x = env_of st))
        with (fuel := loop_fuel (rebindings_nel e)) (i := 0) (s := st);
        [|auto|exact Hg].
      intros j x f [Hp He] Hb. unfold Machine.entry_body in Hb.
      destruct (symbol_name_longer_than_1 symbol_name);
        [|inversion Hb; subst; auto].
      destruct (nth_error (rebindings e) (Z.to_nat j)) as [r|]; [|discriminate].
      destruct (strcmp_eq (symbol_name_from_1 symbol_name) (name r));
        [|inversion Hb; subst; auto].
      destruct (Machine.apply_rebinding slot r x) as [x'|] eqn:Ha; [|discriminate].
      inversion Hb; subst. cbn [flow_state].
      destruct (machine_apply_rebinding_prot _ _ _ _ Ha) as [Hp' He'].
      split; congruence. }
    destruct g as [a|a]; cbn [flow_state] in Hg'.
    + destruct (IH _ _ H) as [Hp He]. destruct Hg'. split; congruence.
    + inversion H; subst. exact Hg'.
Qed.

Lemma machine_slot_loop_prot (rebs : list rebindings_entry)
      (symtab strtab indices bindings n : Z) :
  forall (fuel : nat) (i : Z) (st : process) (g : flow process),
    for_uint fuel n (Machine.slot_body rebs symtab strtab indices bindings) i st
    = Some g ->
    vm_prot (flow_state g) = vm_prot st /\ env_of (flow_state g) = env_of st.
Proof.
  intros fuel i st g H.
  apply (for_uint_preserves n
           (Machine.slot_body rebs symtab strtab indices bindings)
           (fun x => vm_prot x = vm_prot st /\ env_of x = env_of st))
    with (fuel := fuel) (i := i) (s := st); [|auto|exact H].
  intros j x f [Hp He] Hb. unfold Machine.slot_body in Hb.
  destruct (is_sentinel _); [inversion Hb; subst; auto|].
  destruct (Machine.chain_loop _ _ _ x) as [x'|] eqn:Hl; [|discriminate].
  inversion Hb; subst. cbn [flow_state].
  destruct (machine_chain_loop_prot _ _ _ _ _ Hl) as [Hp' He'].
  split; congruence.
Qed.

Lemma machine_slot_body_no_break (rebs : list rebindings_entry)
      (symtab strtab indices bindings i : Z) (st st' : process) :
  Machine.slot_body rebs symtab strtab indices bindings i st <> Some (Break st').
Proof.
  unfold Machine.slot_body. destruct (is_sentinel _); [discriminate|].
  destruct (Machine.chain_loop _ _ _ st); discriminate.
Qed.

Lemma same_cells_set_vm_prot (f : Z -> option Z) (s : process) :
  same_cells (set_vm_prot f s) s.
Proof. split; reflexivity. Qed.

Lemma same_cells_mprotect (start len prot : Z) (s : process) :
  same_cells (mprotect start len prot s) s.
Proof. split; reflexivity. Qed.

(** The pass of the machine, when it returns, ends with the pointer cells
    and the surroundings of the pass of the cell model. *)
Lemma machine_perform_refines (ps : Z) (rebs : list rebindings_entry)
      (section : section_t) (slide symtab strtab indirect_symtab : Z)
      (sm s sm' : process) :
  same_cells sm s ->
  Machine.perform_rebinding_with_section ps rebs section slide symtab strtab
                                         indirect_symtab sm = Some sm' ->
  exists s',
    perform_rebinding_with_section rebs section slide symtab strtab
                                   indirect_symtab s = Some s'
    /\ same_cells sm' s'.
Proof.
  intros HR. unfold Machine.perform_rebinding_with_section,
               perform_rebinding_with_section.
  set (c := strcmp_eq (sect_segname section) SEG_DATA_CONST).
  match goal with
  | |- match for_uint _ _ _ 0 ?a with _ => _ end = _ ->
       exists s', match for_uint _ _ _ 0 ?b with _ => _ end = _ /\ _ =>
      assert (HR1 : same_cells a b)
        by (destruct c; [|exact HR];
            apply (same_cells_trans _ sm);
            [apply same_cells_set_vm_prot|];
            apply (same_cells_trans _ s); [exact HR|];
            apply same_cells_sym, same_cells_mprotect);
      destruct (for_uint _ _ _ 0 a) as [g|] eqn:Hg; [|discriminate];
      destruct (for_uint_simulation same_cells (section_slots section)
                  (Machine.slot_body rebs symtab strtab
                     (ptr_add indirect_symtab sizeof_uint32 (reserved1 section))
                     (section_bindings section slide))
                  (slot_body rebs symtab strtab
                     (ptr_add indirect_symtab sizeof_uint32 (reserved1 section))
                     (section_bindings section slide))
                  (fun j x y g0 HR0 =>
                     machine_slot_body_refines rebs symtab strtab _ _ j x y g0 HR0)
                  _ _ _ _ _ HR1 Hg) as (h & Hh & Hrel)
  end.
  rewrite Hh. intros H. inversion H; subst. clear H.
  eexists. split; [reflexivity|].
  assert (Hfl : same_cells (flow_state g) (flow_state h))
    by (destruct g, h; cbn in Hrel; try contradiction; exact Hrel).
  destruct c; [|exact Hfl].
  apply (same_cells_trans _ (flow_state g)); [apply same_cells_set_vm_prot|].
  apply (same_cells_trans _ (flow_state h)); [exact Hfl|].
  apply same_cells_sym, same_cells_mprotect.
Qed.

(** The protections the pass of the machine leaves. *)
Lemma machine_perform_protection (ps : Z) (rebs : list rebindings_entry)
      (section : section_t) (slide symtab strtab indirect_symtab : Z)
      (st st' : process) :
  Machine.perform_rebinding_with_section ps rebs section slide symtab strtab
                                         indirect_symtab st = Some st' ->
  vm_prot st'
  = if strcmp_eq (sect_segname section) SEG_DATA_CONST
    then Machine.protect ps (section_bindings section slide) (size section)
           (restored_protection (get_protection (entry_ptr rebs) st))
           (Machine.protect ps (section_bindings section slide) (size section)
              (Z.lor PROT_READ PROT_WRITE) (vm_prot st))
    else vm_prot st.
Proof.
  unfold Machine.perform_rebinding_with_section. intros H.
  destruct (for_uint _ _ _ _ _) as [g|] eqn:Hg; [|discriminate].
  apply machine_slot_loop_prot in Hg. destruct Hg as [Hp _].
  inversion H; subst. clear H.
  destruct (strcmp_eq (sect_segname section) SEG_DATA_CONST).
  - cbn [Machine.mprotect snd set_vm_prot vm_prot]. rewrite Hp.
    reflexivity.
  - exact Hp.
Qed.

Lemma machine_perform_env (ps : Z) (rebs : list rebindings_entry)
      (section : section_t) (slide symtab strtab indirect_symtab : Z)
      (st st' : process) :
  Machine.perform_rebinding_with_section ps rebs section slide symtab strtab
                                         indirect_symtab st = Some st' ->
  env_of st' = env_of st.
Proof.
  intros H.
  destruct (machine_perform_refines ps rebs section slide symtab strtab
              indirect_symtab st st st' (same_cells_refl st) H)
    as (s' & Hs' & [_ He]).
  rewrite He. apply (perform_rebinding_with_section_env _ _ _ _ _ _ _ _ Hs').
Qed.

(** ** With writable slots the machine completes the run of the cell model *)

Lemma machine_entry_body_follows (vp : Z -> option Z) (st0 : process)
      (slot : Z) (symbol_name : string) (e : rebindings_entry) (j : Z)
      (s sm : process) (g : flow process) :
  (forall r, In r (rebindings e) -> name_matches symbol_name r = true ->
             Machine.writable (vp slot) = true
             /\ (replaced r = NULL \/ Machine.writable (vp (replaced r)) = true)) ->
  side_by_side vp st0 s sm ->
  entry_body slot symbol_name e j s = Some g ->
  exists h, Machine.entry_body slot symbol_name e j sm = Some h
            /\ flow_rel (side_by_side vp st0) g h.
Proof.
  intros Hsafe (HR & Hvp & Hu & Hc). unfold entry_body, Machine.entry_body.
  destruct (symbol_name_longer_than_1 symbol_name) eqn:Hl.
  - destruct (nth_error (rebindings e) (Z.to_nat j)) as [r|] eqn:Hn;
      [|discriminate].
    destruct (strcmp_eq (symbol_name_from_1 symbol_name) (name r)) eqn:Hcmp.
    + intros H. injection H as <-.
      destruct (Hsafe r (nth_error_In _ _ Hn)) as [Hs Ho].
      { unfold name_matches. rewrite Hl, Hcmp. reflexivity. }
      rewrite machine_apply_rebinding_safe by (rewrite Hvp; assumption).
      eexists. split; [reflexivity|]. cbn.
      destruct (u32_cstr_apply_rebinding slot r s) as [Hu' Hc'].
      split; [apply same_cells_apply_rebinding; exact HR|].
      split; [rewrite vm_prot_apply_rebinding; exact Hvp|].
      split; congruence.
    + intros H. injection H as <-. eexists. split; [reflexivity|].
      cbn. repeat split; assumption || apply HR.
  - intros H. injection H as <-. eexists. split; [reflexivity|].
    cbn. repeat split; assumption || apply HR.
Qed.

Lemma machine_chain_loop_follows (vp : Z -> option Z) (st0 : process)
      (slot : Z) (symbol_name : string) :
  forall (chain : list rebindings_entry) (s sm s' : process),
    (forall r, In r (chain_requests chain) -> name_matches symbol_name r = true ->
               Machine.writable (vp slot) = true
               /\ (replaced r = NULL \/ Machine.writable (vp (replaced r)) = true)) ->
    side_by_side vp st0 s sm ->
    chain_loop slot symbol_name chain s = Some s' ->
    exists sm', Machine.chain_loop slot symbol_name chain sm = Some sm'
                /\ side_by_side vp st0 s' sm'.
Proof.
  induction chain as [|e chain IH]; intros s sm s' Hsafe HR H;
    cbn [Machine.chain_loop chain_loop] in *.
  - injection H as <-. exists sm. split; [reflexivity|exact HR].
  - destruct (for_uint _ _ (entry_body slot symbol_name e) 0 s) as [g|] eqn:Hg;
      [|discriminate].
    unfold chain_requests in Hsafe. cbn [map concat] in Hsafe.
    destruct (for_uint_simulation (side_by_side vp st0) (rebindings_nel e)
                (entry_body slot symbol_name e)
                (Machine.entry_body slot symbol_name e)
                (fun j a b g0 HR0 =>
                   machine_entry_body_follows vp st0 slot symbol_name e j a b g0
                     (fun r Hin Hm => Hsafe r (in_or_app _ _ _ (or_introl Hin)) Hm)
                     HR0)
                _ _ _ _ _ HR Hg) as (h & Hh & Hrel).
    rewrite Hh. destruct g as [a|a], h as [b|b]; cbn in Hrel; try contradiction.
    + apply (IH _ _ _ (fun r Hin Hm =>
                         Hsafe r (in_or_app _ _ _ (or_intror Hin)) Hm) Hrel H).
    + injection H as <-. exists b. split; [reflexivity|exact Hrel].
Qed.

Lemma slot_match_some_in (rebs : list rebindings_entry)
      (symtab strtab indices i : Z) (st : process) (r : rebinding) :
  slot_match rebs symtab strtab indices i st = Some r ->
  In r (chain_requests rebs).
Proof.
  unfold slot_match. destruct (is_sentinel _); [discriminate|].
  intros H. apply find_some in H. apply H.
Qed.

Lemma machine_slot_body_follows (vp : Z -> option Z) (st0 : process)
      (rebs : list rebindings_entry)
      (symtab strtab indices bindings i : Z) (s sm : process) (g : flow process) :
  (slot_match rebs symtab strtab indices i st0 <> None ->
   Machine.writable (vp (ptr_add bindings sizeof_pointer i)) = true) ->
  (forall r, In r (chain_requests rebs) ->
             replaced r = NULL \/ Machine.writable (vp (replaced r)) = true) ->
  side_by_side vp st0 s sm ->
  slot_body rebs symtab strtab indices bindings i s = Some g ->
  exists h, Machine.slot_body rebs symtab strtab indices bindings i sm = Some h
            /\ flow_rel (side_by_side vp st0) g h.
Proof.
  intros Hslot Hout HR.
  destruct HR as (HR0 & Hvp & Hu & Hc).
  destruct (same_cells_fields _ _ HR0) as [Hum Hcm].
  unfold slot_body, Machine.slot_body, slot_symbol_name, load_u32.
  rewrite <- Hum, <- Hcm.
  unfold slot_match, slot_symbol_name, load_u32 in Hslot.
  rewrite <- Hu, <- Hc in Hslot.
  destruct (is_sentinel _).
  - intros H. injection H as <-. eexists. split; [reflexivity|].
    cbn. repeat split; assumption || apply HR0.
  - destruct (chain_loop _ _ _ s) as [s'|] eqn:Hl; [|discriminate].
    intros H. injection H as <-.
    match type of Hl with
    | chain_loop ?slot ?nm _ _ = _ =>
        assert (Hs : forall r, In r (chain_requests rebs) ->
                               name_matches nm r = true ->
                               Machine.writable (vp slot) = true
                               /\ (replaced r = NULL
                                   \/ Machine.writable (vp (replaced r)) = true))
    end.
    { intros r Hin Hmatch. split; [|apply Hout, Hin].
      apply Hslot. intros Hnone.
      apply (find_none _ _ Hnone) in Hin. congruence. }
    destruct (machine_chain_loop_follows vp st0 _ _ rebs s sm s' Hs
                (conj HR0 (conj Hvp (conj Hu Hc))) Hl) as (sm' & Hm & HR').
    rewrite Hm. eexists. split; [reflexivity|exact HR'].
Qed.

(** A pass that is safe on the machine ends with the pointer cells and the
    surroundings of the pass of the cell model. *)
Lemma machine_perform_follows (ps : Z) (rebs : list rebindings_entry)
      (section : section_t) (slide symtab strtab indirect_symtab : Z)
      (s sm s' : process) :
  same_cells s sm ->
  Machine.pass_safe ps rebs section slide symtab strtab indirect_symtab sm ->
  perform_rebinding_with_section rebs section slide symtab strtab
                                 indirect_symtab s = Some s' ->
  exists sm',
    Machine.perform_rebinding_with_section ps rebs section slide symtab strtab
                                           indirect_symtab sm = Some sm'
    /\ same_cells s' sm'.
Proof.
  intros HR [Hslots Hout] H.
  assert (Hn : section_slots section < 2 ^ 32).
  { destruct (Z.lt_ge_cases (section_slots section) (2 ^ 32)) as [Hn|Hn];
      [exact Hn|].
    rewrite perform_rebinding_with_section_diverges in H by exact Hn.
    discriminate. }
  unfold perform_rebinding_with_section in H.
  unfold Machine.perform_rebinding_with_section.
  unfold Machine.loop_protection in Hslots, Hout.
  set (c := strcmp_eq (sect_segname section) SEG_DATA_CONST) in *.
  set (vp := if c
             then Machine.protect ps (section_bindings section slide)
                    (size section) (Z.lor PROT_READ PROT_WRITE) (vm_prot sm)
             else vm_prot sm) in *.
  destruct (same_cells_fields _ _ HR) as [Hu Hc].
  match type of H with
  | match for_uint _ _ _ 0 ?a with _ => _ end = _ =>
      match goal with
      | |- exists _, match for_uint _ _ _ 0 ?b with _ => _ end = _ /\ _ =>
          assert (HR1 : side_by_side vp sm a b)
            by (unfold vp; destruct c;
                (split; [split; [apply HR|apply HR]|]);
                (split; [reflexivity|]); split; assumption);
          destruct (for_uint _ _ _ 0 a) as [g|] eqn:Hg; [|discriminate];
          destruct (for_uint_simulation_indexed (side_by_side vp sm)
                      (section_slots section)
                      (slot_body rebs symtab strtab
                         (ptr_add indirect_symtab sizeof_uint32 (reserved1 section))
                         (section_bindings section slide))
                      (Machine.slot_body rebs symtab strtab
                         (ptr_add indirect_symtab sizeof_uint32 (reserved1 section))
                         (section_bindings section slide))
                      Hn
                      (fun j x y g0 Hj HR0 =>
                         machine_slot_body_follows vp sm rebs symtab strtab _ _
                           j x y g0 (Hslots j Hj) Hout HR0)
                      _ 0 _ _ _ (Z.le_refl 0) HR1 Hg) as (h & Hh & Hrel)
      end
  end.
  rewrite Hh. injection H as <-.
  eexists. split; [reflexivity|].
  assert (Hfl : same_cells (flow_state g) (flow_state h))
    by (destruct g, h; cbn in Hrel; try contradiction; apply Hrel).
  destruct c; [|exact Hfl].
  apply (same_cells_trans _ (flow_state g)); [apply same_cells_mprotect|].
  apply (same_cells_trans _ (flow_state h)); [exact Hfl|].
  apply same_cells_sym, same_cells_set_vm_prot.
Qed.

(* ================================================================== *)
(** * A pass of the machine over a section *)

Lemma disjoint_cells_neq (x y : Z) : disjoint_cells x y -> x <> y.
Proof. unfold disjoint_cells, sizeof_pointer. lia. Qed.

Lemma stores_apart_no_alias (rebs : list rebindings_entry) (section : section_t)
      (slide : Z) :
  stores_apart rebs section slide ->
  forall r i, In r (chain_requests rebs) -> 0 <= i < section_slots section ->
              replaced r = NULL
              \/ replaced r <> ptr_add (section_bindings section slide)
                                       sizeof_pointer i.
Proof.
  intros (H & _) r i Hr Hi.
  destruct (H r i Hr Hi) as [E|D]; [left; exact E|right].
  apply disjoint_cells_neq. exact D.
Qed.

(** X6: on the machine, after a pass over a section (well-formed registry,
    slot count below [2^32], tables, output slots and registry clear of each
    other, matched slots and output slots writable while the loop runs), the
    pass returns; every slot whose symbol is matched holds the replacement
    of the first matching request in chain order, and every other slot, the
    ones with a reserved entry included, holds the pointer it held
    before. *)
Theorem machine_pass_installs_first_match
        (ps : Z) (rebs : list rebindings_entry) (section : section_t)
        (slide symtab strtab indirect_symtab : Z) (st : process) :
  Forall wf_entry rebs ->
  section_slots section < 2 ^ 32 ->
  stores_apart rebs section slide ->
  Machine.pass_safe ps rebs section slide symtab strtab indirect_symtab st ->
  exists st',
    Machine.perform_rebinding_with_section ps rebs section slide symtab strtab
                                           indirect_symtab st = Some st'
    /\ forall j, 0 <= j < section_slots section ->
                 ptr_at st' (ptr_add (section_bindings section slide)
                                     sizeof_pointer j)
                 = match slot_match rebs symtab strtab
                                    (ptr_add indirect_symtab sizeof_uint32
                                             (reserved1 section)) j st with
                   | Some r => replacement r
                   | None => ptr_at st (ptr_add (section_bindings section slide)
                                                sizeof_pointer j)
                   end.
Proof.
  intros Hwf Hfit Hapart Hsafe.
  destruct (perform_rebinding_with_section_post rebs section slide symtab strtab
              indirect_symtab st Hwf Hfit (stores_apart_no_alias _ _ _ Hapart))
    as (s' & Hrun & _ & _ & Hslots & _).
  destruct (machine_perform_follows ps rebs section slide symtab strtab
              indirect_symtab st st s' (same_cells_refl st) Hsafe Hrun)
    as (sm' & Hm & [Hp _]).
  exists sm'. split; [exact Hm|]. intros j Hj. rewrite <- Hp.
  apply Hslots. exact Hj.
Qed.

(** X13: what a pass of the machine stores outside the table.  Under the
    conditions of X6 the pass returns, and a cell that overlaps no slot of
    the table and that every non-null output slot either is or does not
    overlap either holds the pointer it held before, or it is the non-null output
    slot of the request matched for some slot of the table and holds the
    pointer that slot held before the pass; that pointer differs from the
    replacement of the request. *)
Theorem machine_pass_output_slots
        (ps : Z) (rebs : list rebindings_entry) (section : section_t)
        (slide symtab strtab indirect_symtab : Z) (st : process) :
  Forall wf_entry rebs ->
  section_slots section < 2 ^ 32 ->
  stores_apart rebs section slide ->
  Machine.pass_safe ps rebs section slide symtab strtab indirect_symtab st ->
  exists st',
    Machine.perform_rebinding_with_section ps rebs section slide symtab strtab
                                           indirect_symtab st = Some st'
    /\ forall a,
        (forall j, 0 <= j < section_slots section ->
                   disjoint_cells a (ptr_add (section_bindings section slide)
                                             sizeof_pointer j)) ->
        (forall r, In r (chain_requests rebs) ->
                   replaced r = NULL \/ replaced r = a
                   \/ disjoint_cells (replaced r) a) ->
        ptr_at st' a = ptr_at st a
        \/ exists j r,
            0 <= j < section_slots section
            /\ slot_match rebs symtab strtab
                          (ptr_add indirect_symtab sizeof_uint32
                                   (reserved1 section)) j st = Some r
            /\ replaced r = a /\ replaced r <> NULL
            /\ ptr_at st' a
               = ptr_at st (ptr_add (section_bindings section slide)
                                    sizeof_pointer j)
            /\ ptr_at st (ptr_add (section_bindings section slide)
                                  sizeof_pointer j) <> replacement r.
Proof.
  intros Hwf Hfit Hapart Hsafe.
  destruct (perform_rebinding_with_section_output_slots rebs section slide symtab
              strtab indirect_symtab st Hwf Hfit
              (stores_apart_no_alias _ _ _ Hapart)) as (s' & Hrun & Hout).
  destruct (machine_perform_follows ps rebs section slide symtab strtab
              indirect_symtab st st s' (same_cells_refl st) Hsafe Hrun)
    as (sm' & Hm & [Hp _]).
  exists sm'. split; [exact Hm|]. intros a Ha _. rewrite <- Hp.
  apply Hout. intros j Hj. apply disjoint_cells_neq. apply Ha. exact Hj.
Qed.

(** The first [mprotect] of a second pass finds the pages as the first
    [mprotect] of the first pass left them. *)
Lemma loop_protection_again (ps : Z) (section : section_t) (slide q : Z)
      (vp : Z -> option Z) (x : Z) :
  Machine.loop_protection ps section slide
    (if strcmp_eq (sect_segname section) SEG_DATA_CONST
     then Machine.protect ps (section_bindings section slide) (size section) q
            (Machine.protect ps (section_bindings section slide) (size section)
               (Z.lor PROT_READ PROT_WRITE) vp)
     else vp) x
  = Machine.loop_protection ps section slide vp x.
Proof.
  unfold Machine.loop_protection.
  destruct (strcmp_eq (sect_segname section) SEG_DATA_CONST); [|reflexivity].
  rewrite !protect_twice. reflexivity.
Qed.

(** A pass that was safe is safe again in the process it left. *)
Lemma pass_safe_again (ps : Z) (rebs : list rebindings_entry)
      (section : section_t) (slide symtab strtab indirect_symtab : Z)
      (st st' : process) :
  Machine.perform_rebinding_with_section ps rebs section slide symtab strtab
                                         indirect_symtab st = Some st' ->
  Machine.pass_safe ps rebs section slide symtab strtab indirect_symtab st ->
  Machine.pass_safe ps rebs section slide symtab strtab indirect_symtab st'.
Proof.
  intros Hrun [Hslots Hout].
  pose proof (machine_perform_protection _ _ _ _ _ _ _ _ _ Hrun) as Hp.
  destruct (env_of_all_fields _ _ (machine_perform_env _ _ _ _ _ _ _ _ _ Hrun))
    as (Hu & Hc & _).
  split.
  - intros i Hi Hm. rewrite Hp, loop_protection_again.
    apply (Hslots i Hi). rewrite <- (slot_match_env _ _ _ _ _ _ _ Hu Hc).
    exact Hm.
  - intros r Hr. rewrite Hp, loop_protection_again. apply (Hout r Hr).
Qed.

(** X7: on the machine a pass is idempotent on pointers.  Under the
    conditions of X6, the pass returns, a second pass over the same section
    with the same registry, run in the process the first pass left, returns
    as well, and it changes no pointer cell: the slots already hold their
    replacements, so no output slot is overwritten with a replacement. *)
Theorem machine_second_pass_changes_no_pointer
        (ps : Z) (rebs : list rebindings_entry) (section : section_t)
        (slide symtab strtab indirect_symtab : Z) (st : process) :
  Forall wf_entry rebs ->
  section_slots section < 2 ^ 32 ->
  stores_apart rebs section slide ->
  Machine.pass_safe ps rebs section slide symtab strtab indirect_symtab st ->
  exists st1 st2,
    Machine.perform_rebinding_with_section ps rebs section slide symtab strtab
                                           indirect_symtab st = Some st1
    /\ Machine.perform_rebinding_with_section ps rebs section slide symtab
                                              strtab indirect_symtab st1
       = Some st2
    /\ forall a, ptr_at st2 a = ptr_at st1 a.
Proof.
  intros Hwf Hfit Hapart Hsafe.
  destruct (perform_rebinding_with_section_again rebs section slide symtab strtab
              indirect_symtab st Hwf Hfit (stores_apart_no_alias _ _ _ Hapart))
    as (s1 & s2 & Hrun1 & Hrun2 & Hsame).
  destruct (machine_perform_follows ps rebs section slide symtab strtab
              indirect_symtab st st s1 (same_cells_refl st) Hsafe Hrun1)
    as (sm1 & Hm1 & HR1).
  destruct (machine_perform_follows ps rebs section slide symtab strtab
              indirect_symtab s1 sm1 s2 HR1
              (pass_safe_again _ _ _ _ _ _ _ _ _ Hm1 Hsafe) Hrun2)
    as (sm2 & Hm2 & HR2).
  exists sm1, sm2. split; [exact Hm1|]. split; [exact Hm2|].
  intros a. destruct HR1 as [Hp1 _]. destruct HR2 as [Hp2 _].
  rewrite <- Hp1, <- Hp2. apply Hsame.
Qed.

(* ================================================================== *)
(** * Protections after a pass of the machine *)

Lemma writable_get_protection (a : Z) (st : process) :
  Machine.writable (vm_prot st a) = true ->
  Z.testbit (restored_protection (get_protection a st)) 1 = true.
Proof.
  unfold Machine.writable, get_protection.
  destruct (vm_prot st a) as [p|]; [|discriminate].
  intros H. rewrite restored_protection_bits, Z.land_spec, H. reflexivity.
Qed.

(** X9: the protection the pages of a table of [__DATA_CONST] are left
    with.  Take a pass of the machine over a section whose segment name is
    [__DATA_CONST], under the conditions of X6, with the node at the head
    of the registry in mapped memory, under protection [p].  When the first
    [mprotect] succeeds (the table starts on a page boundary and its pages
    are mapped), every mapped address of the pages the table touches, also
    beyond the end of the table, carries the read, write and execute bits
    of [p].  Everywhere else, and everywhere when the first [mprotect]
    fails, the protection is as before. *)
Theorem machine_data_const_protection_after_pass
        (ps : Z) (rebs : list rebindings_entry) (section : section_t)
        (slide symtab strtab indirect_symtab : Z) (st : process) (p : Z) :
  Forall wf_entry rebs ->
  section_slots section < 2 ^ 32 ->
  stores_apart rebs section slide ->
  Machine.pass_safe ps rebs section slide symtab strtab indirect_symtab st ->
  sect_segname section = SEG_DATA_CONST ->
  vm_prot st (entry_ptr rebs) = Some p ->
  exists st',
    Machine.perform_rebinding_with_section ps rebs section slide symtab strtab
                                           indirect_symtab st = Some st'
    /\ (Machine.mprotect_ok ps (section_bindings section slide) (size section)
                            (vm_prot st) = true ->
        forall a,
          section_bindings section slide <= a
          < Machine.round_page ps (section_bindings section slide + size section) ->
          vm_prot st a <> None ->
          vm_prot st' a = Some (Z.land p 7))
    /\ (forall a,
           Machine.mprotect_ok ps (section_bindings section slide) (size section)
                               (vm_prot st) = false
           \/ ~ (section_bindings section slide <= a
                 < Machine.round_page ps (section_bindings section slide
                                          + size section)) ->
           vm_prot st' a = vm_prot st a).
Proof.
  intros Hwf Hfit Hapart Hsafe Hseg Hnode.
  destruct (perform_rebinding_with_section_returns rebs section slide symtab
              strtab indirect_symtab st Hwf Hfit) as [s' Hrun].
  destruct (machine_perform_follows ps rebs section slide symtab strtab
              indirect_symtab st st s' (same_cells_refl st) Hsafe Hrun)
    as (sm' & Hm & _).
  exists sm'. split; [exact Hm|].
  rewrite (machine_perform_protection _ _ _ _ _ _ _ _ _ Hm).
  unfold strcmp_eq. rewrite Hseg, String.eqb_refl.
  unfold get_protection. rewrite Hnode.
  split.
  - intros Hok a Ha Hmapped. rewrite protect_twice.
    rewrite (protect_in_range _ _ _ _ _ _ Hok Ha Hmapped).
    rewrite restored_protection_bits. reflexivity.
  - intros a [Hfail|Hout]; rewrite protect_twice.
    + rewrite protect_failed by exact Hfail. reflexivity.
    + apply protect_outside. exact Hout.
Qed.

(* ================================================================== *)
(** * The pass of the machine over an image *)

Lemma machine_passes_app (ps : Z) (rebs : list rebindings_entry)
      (slide symtab strtab indirect_symtab : Z) (l1 l2 : list section_t) :
  forall st,
    Machine.passes ps rebs slide symtab strtab indirect_symtab (l1 ++ l2) st
    = match Machine.passes ps rebs slide symtab strtab indirect_symtab l1 st with
      | Some st' =>
          Machine.passes ps rebs slide symtab strtab indirect_symtab l2 st'
      | None => None
      end.
Proof.
  induction l1 as [|sect l1 IH]; intros st; cbn [app Machine.passes];
    [reflexivity|].
  destruct (Machine.perform_rebinding_with_section _ _ _ _ _ _ _ st);
    [apply IH|reflexivity].
Qed.

Lemma machine_section_body_as_pass (ps : Z) (rebs : list rebindings_entry)
      (slide symtab strtab indirect_symtab : Z) (sect : section_t) (st : process) :
  Machine.section_body ps rebs slide symtab strtab indirect_symtab sect st
  = if is_pointer_section sect
    then Machine.perform_rebinding_with_section ps rebs sect slide symtab strtab
                                                indirect_symtab st
    else Some st.
Proof.
  unfold Machine.section_body, is_pointer_section.
  destruct (Z.land (flags sect) SECTION_TYPE =? S_LAZY_SYMBOL_POINTERS) eqn:E.
  - apply Z.eqb_eq in E. rewrite E.
    change (S_LAZY_SYMBOL_POINTERS =? S_NON_LAZY_SYMBOL_POINTERS) with false.
    cbn [orb].
    destruct (Machine.perform_rebinding_with_section _ _ _ _ _ _ _ st);
      reflexivity.
  - cbn [orb].
    destruct (Z.land (flags sect) SECTION_TYPE =? S_NON_LAZY_SYMBOL_POINTERS);
      reflexivity.
Qed.

Lemma machine_sections_loop_as_passes (ps : Z) (rebs : list rebindings_entry)
      (slide symtab strtab indirect_symtab : Z) (sects : list section_t) :
  forall st,
    Machine.sections_loop ps rebs slide symtab strtab indirect_symtab sects st
    = Machine.passes ps rebs slide symtab strtab indirect_symtab
                     (filter is_pointer_section sects) st.
Proof.
  induction sects as [|sect rest IH]; intros st;
    cbn [Machine.sections_loop filter]; [reflexivity|].
  rewrite machine_section_body_as_pass.
  destruct (is_pointer_section sect); cbn [Machine.passes].
  - destruct (Machine.perform_rebinding_with_section _ _ _ _ _ _ _ st);
      [apply IH|reflexivity].
  - apply IH.
Qed.

Lemma machine_commands_loop_as_passes (ps : Z) (rebs : list rebindings_entry)
      (slide symtab strtab indirect_symtab : Z) (cmds : list load_command) :
  forall st,
    Machine.commands_loop ps rebs slide symtab strtab indirect_symtab cmds st
    = Machine.passes ps rebs slide symtab strtab indirect_symtab
                     (patched_sections cmds) st.
Proof.
  unfold patched_sections.
  induction cmds as [|c rest IH]; intros st;
    cbn [Machine.commands_loop flat_map]; [reflexivity|].
  rewrite machine_passes_app.
  destruct c as [seg|c|c|k]; cbn [Machine.command_body Machine.passes];
    try apply IH.
  unfold is_data_segment.
  destruct (strcmp_eq (segname seg) SEG_DATA);
    destruct (strcmp_eq (segname seg) SEG_DATA_CONST);
    cbn [negb andb orb Machine.passes];
    try apply IH;
    rewrite machine_sections_loop_as_passes;
    destruct (Machine.passes _ _ _ _ _ _ (filter is_pointer_section (sections seg)) st);
    try reflexivity; apply IH.
Qed.

(** For an image with the three commands the pass of the machine is the
    patcher applied to the pointer sections in turn. *)
Lemma machine_image_pass_as_passes (ps : Z) (rebs : list rebindings_entry)
      (header : mach_header) (slide : Z) (st : process)
      (le : segment_command_t) (sc : symtab_command) (dc : dysymtab_command) :
  dladdr st (header_addr header) = true ->
  linkedit_segment (locate (commands header)) = Some le ->
  symtab_cmd (locate (commands header)) = Some sc ->
  dysymtab_cmd (locate (commands header)) = Some dc ->
  wrap32 (nindirectsyms dc) <> 0 ->
  Machine.rebind_symbols_for_image ps rebs header slide st
  = Machine.passes ps rebs slide
                   (symtab_addr (linkedit_base slide le) sc)
                   (strtab_addr (linkedit_base slide le) sc)
                   (indirect_symtab_addr (linkedit_base slide le) dc)
                   (patched_sections (commands header)) st.
Proof.
  intros Hdl Hle Hsc Hdc Hn. unfold Machine.rebind_symbols_for_image.
  rewrite Hdl, Hle, Hsc, Hdc. cbn [negb].
  apply Z.eqb_neq in Hn. rewrite Hn. apply machine_commands_loop_as_passes.
Qed.

Lemma machine_passes_preserves (P : process -> Prop) (ps : Z)
      (rebs : list rebindings_entry)
      (slide symtab strtab indirect_symtab : Z) (sects : list section_t) :
  (forall sect s s',
      In sect sects -> P s ->
      Machine.perform_rebinding_with_section ps rebs sect slide symtab strtab
                                             indirect_symtab s = Some s' ->
      P s') ->
  forall st st',
    P st ->
    Machine.passes ps rebs slide symtab strtab indirect_symtab sects st = Some st' ->
    P st'.
Proof.
  induction sects as [|sect rest IH]; intros Hsect st st' HP H;
    cbn [Machine.passes] in H.
  - inversion H; subst. exact HP.
  - destruct (Machine.perform_rebinding_with_section _ _ _ _ _ _ _ st)
      as [s1|] eqn:H1; [|discriminate].
    apply (IH (fun x s s' Hin => Hsect x s s' (or_intror Hin)) s1 st');
      [|exact H].
    apply (Hsect sect st s1 (or_introl eq_refl) HP H1).
Qed.

(** ** Protections along the passes *)

Lemma protections_kept_refl (st : process) : Machine.protections_kept st st.
Proof. split; intros x; tauto. Qed.

Lemma protections_kept_trans (a b c : process) :
  Machine.protections_kept a b -> Machine.protections_kept b c ->
  Machine.protections_kept a c.
Proof.
  intros [M1 W1] [M2 W2]. split; intros x.
  - rewrite M2. apply M1.
  - intros H. apply W2, W1, H.
Qed.

(** A pass leaves mapped what was mapped, and writable what was writable
    when the node at the head of the registry is writable. *)
Lemma machine_perform_protections_kept (ps : Z) (rebs : list rebindings_entry)
      (section : section_t) (slide symtab strtab indirect_symtab : Z)
      (s s' : process) :
  Machine.writable (vm_prot s (entry_ptr rebs)) = true ->
  Machine.perform_rebinding_with_section ps rebs section slide symtab strtab
                                         indirect_symtab s = Some s' ->
  Machine.protections_kept s s'.
Proof.
  intros Hnode Hrun.
  unfold Machine.protections_kept.
  rewrite (machine_perform_protection _ _ _ _ _ _ _ _ _ Hrun).
  destruct (strcmp_eq (sect_segname section) SEG_DATA_CONST);
    [|split; intros x; tauto].
  split; intros x.
  - rewrite !protect_mapped. tauto.
  - intros H. apply protect_writable; [apply writable_get_protection, Hnode|].
    apply protect_writable; [reflexivity|exact H].
Qed.

Lemma loop_protection_kept (ps : Z) (section : section_t) (slide : Z)
      (st s : process) (x : Z) :
  Machine.protections_kept st s ->
  Machine.writable (Machine.loop_protection ps section slide (vm_prot st) x) = true ->
  Machine.writable (Machine.loop_protection ps section slide (vm_prot s) x) = true.
Proof.
  intros [Hm Hw]. unfold Machine.loop_protection.
  destruct (strcmp_eq (sect_segname section) SEG_DATA_CONST); [|apply Hw].
  destruct (protect_cases ps (section_bindings section slide) (size section)
              (Z.lor PROT_READ PROT_WRITE) (vm_prot st) x)
    as [E|(Hok & Hin & Hmapped & _)].
  - rewrite E. intros H. apply protect_writable; [reflexivity|apply Hw, H].
  - intros _. rewrite (protect_in_range ps _ _ _ (vm_prot s) x);
      [reflexivity| |exact Hin|].
    + rewrite <- Hok. apply mprotect_ok_ext. exact Hm.
    + rewrite Hm. exact Hmapped.
Qed.

Lemma loop_protection_writable (ps : Z) (section : section_t) (slide : Z)
      (vp : Z -> option Z) (x : Z) :
  Machine.writable (vp x) = true ->
  Machine.writable (Machine.loop_protection ps section slide vp x) = true.
Proof.
  intros H. unfold Machine.loop_protection.
  destruct (strcmp_eq (sect_segname section) SEG_DATA_CONST); [|exact H].
  apply protect_writable; [reflexivity|exact H].
Qed.

(** What is safe for the image at the start is safe for each pass when its
    turn comes. *)
Lemma pass_safe_of_image_safe (ps : Z) (rebs : list rebindings_entry)
      (slide symtab strtab indirect_symtab : Z) (sects : list section_t)
      (st s : process) (sect : section_t) :
  Machine.image_safe ps rebs slide symtab strtab indirect_symtab sects st ->
  In sect sects ->
  Machine.protections_kept st s ->
  u32_at s = u32_at st -> cstr_at s = cstr_at st ->
  Machine.pass_safe ps rebs sect slide symtab strtab indirect_symtab s.
Proof.
  intros (_ & Hslots & Hout) Hin Hkept Hu Hc. split.
  - intros i Hi Hm. apply (loop_protection_kept _ _ _ st s _ Hkept).
    apply (Hslots sect i Hin Hi).
    rewrite <- (slot_match_env _ _ _ _ _ _ _ Hu Hc). exact Hm.
  - intros r Hr. destruct (Hout r Hr) as [E|W]; [left; exact E|right].
    apply loop_protection_writable. apply Hkept. exact W.
Qed.

(** The passes of the machine over the sections of an image that is safe
    end with the pointer cells of the passes of the cell model. *)
Lemma machine_passes_follow (ps : Z) (rebs : list rebindings_entry)
      (slide symtab strtab indirect_symtab : Z) (sects : list section_t)
      (st : process) :
  Machine.image_safe ps rebs slide symtab strtab indirect_symtab sects st ->
  forall (l : list section_t) (s sm s' : process),
    incl l sects ->
    same_cells s sm ->
    Machine.protections_kept st sm ->
    u32_at sm = u32_at st -> cstr_at sm = cstr_at st ->
    passes rebs slide symtab strtab indirect_symtab l s = Some s' ->
    exists sm',
      Machine.passes ps rebs slide symtab strtab indirect_symtab l sm = Some sm'
      /\ same_cells s' sm'
      /\ Machine.protections_kept st sm'.
Proof.
  intros Hsafe. induction l as [|sect l IH]; intros s sm s' Hincl HR Hkept Hu Hc H;
    cbn [passes Machine.passes] in *.
  - injection H as <-. exists sm. auto.
  - destruct (perform_rebinding_with_section rebs sect slide symtab strtab
                indirect_symtab s) as [s1|] eqn:H1; [|discriminate].
    assert (Hin : In sect sects) by (apply Hincl; left; reflexivity).
    destruct (machine_perform_follows ps rebs sect slide symtab strtab
                indirect_symtab s sm s1 HR
                (pass_safe_of_image_safe _ _ _ _ _ _ _ _ _ _ Hsafe Hin Hkept Hu Hc)
                H1) as (sm1 & Hm1 & HR1).
    rewrite Hm1.
    destruct (env_of_all_fields _ _ (machine_perform_env _ _ _ _ _ _ _ _ _ Hm1))
      as (Hu1 & Hc1 & _).
    apply (IH s1 sm1 s'); try assumption.
    + intros x Hx. apply Hincl. right. exact Hx.
    + apply (protections_kept_trans _ sm); [exact Hkept|].
      apply (machine_perform_protections_kept _ _ _ _ _ _ _ _ _ ) with (2 := Hm1).
      apply Hkept. apply Hsafe.
    + congruence.
    + congruence.
Qed.

(** The pass of the machine over an image that is safe returns, with the
    pointer cells of the pass of the cell model. *)
Lemma machine_image_pass_follows (ps : Z) (rebs : list rebindings_entry)
      (header : mach_header) (slide : Z) (st : process)
      (le : segment_command_t) (sc : symtab_command) (dc : dysymtab_command) :
  dladdr st (header_addr header) = true ->
  linkedit_segment (locate (commands header)) = Some le ->
  symtab_cmd (locate (commands header)) = Some sc ->
  dysymtab_cmd (locate (commands header)) = Some dc ->
  wrap32 (nindirectsyms dc) <> 0 ->
  Forall wf_entry rebs -> image_fits header ->
  Machine.image_safe ps rebs slide
                     (symtab_addr (linkedit_base slide le) sc)
                     (strtab_addr (linkedit_base slide le) sc)
                     (indirect_symtab_addr (linkedit_base slide le) dc)
                     (patched_sections (commands header)) st ->
  exists s' sm',
    rebind_symbols_for_image rebs header slide st = Some s'
    /\ Machine.rebind_symbols_for_image ps rebs header slide st = Some sm'
    /\ same_cells s' sm'
    /\ Machine.protections_kept st sm'.
Proof.
  intros Hdl Hle Hsc Hdc Hn Hwf Hfit Hsafe.
  destruct (rebind_symbols_for_image_returns rebs header slide st Hwf Hfit)
    as [s' Hs'].
  exists s'.
  rewrite (machine_image_pass_as_passes ps rebs header slide st le sc dc
             Hdl Hle Hsc Hdc Hn).
  pose proof Hs' as Hp. unfold rebind_symbols_for_image in Hp.
  rewrite Hdl, Hle, Hsc, Hdc in Hp. cbn [negb] in Hp.
  rewrite (proj2 (Z.eqb_neq _ _) Hn), commands_loop_as_passes in Hp.
  destruct (machine_passes_follow ps rebs slide _ _ _ _ st Hsafe
              (patched_sections (commands header)) st st s'
              (incl_refl _) (same_cells_refl st) (protections_kept_refl st)
              eq_refl eq_refl Hp) as (sm' & Hm & HR & Hk).
  exists sm'. auto.
Qed.

Lemma machine_image_pass_cases (ps : Z) (rebs : list rebindings_entry)
      (header : mach_header) (slide : Z) (st : process) :
  Machine.rebind_symbols_for_image ps rebs header slide st = Some st
  \/ exists le sc dc,
       dladdr st (header_addr header) = true
       /\ linkedit_segment (locate (commands header)) = Some le
       /\ symtab_cmd (locate (commands header)) = Some sc
       /\ dysymtab_cmd (locate (commands header)) = Some dc
       /\ wrap32 (nindirectsyms dc) <> 0.
Proof.
  unfold Machine.rebind_symbols_for_image.
  destruct (dladdr st (header_addr header)); [|left; reflexivity]. cbn [negb].
  destruct (symtab_cmd _) as [sc|]; [|left; reflexivity].
  destruct (dysymtab_cmd _) as [dc|]; [|left; reflexivity].
  destruct (linkedit_segment _) as [le|]; [|left; reflexivity].
  destruct (wrap32 (nindirectsyms dc) =? 0) eqn:Hn; [left; reflexivity|].
  right. exists le, sc, dc. apply Z.eqb_neq in Hn. auto.
Qed.

(** X10: the pass of the machine over an image changes protections only on
    the pages that the tables of its [__DATA_CONST] sections touch.  For an
    image with the three commands whose pass is safe (well-formed registry,
    slot counts below [2^32], tables, output slots and registry clear of each
    other, writable slots and output slots), the pass returns, and at an
    address outside the pages from the start of the table to the end of its
    last page, for every patched section whose segment name is
    [__DATA_CONST], the protection is as before. *)
Theorem machine_image_pass_protection_frame
        (ps : Z) (rebs : list rebindings_entry) (header : mach_header)
        (slide a : Z) (st : process)
        (le : segment_command_t) (sc : symtab_command) (dc : dysymtab_command) :
  dladdr st (header_addr header) = true ->
  linkedit_segment (locate (commands header)) = Some le ->
  symtab_cmd (locate (commands header)) = Some sc ->
  dysymtab_cmd (locate (commands header)) = Some dc ->
  wrap32 (nindirectsyms dc) <> 0 ->
  Forall wf_entry rebs -> image_fits header ->
  image_stores_apart rebs (patched_sections (commands header)) slide ->
  Machine.image_safe ps rebs slide
                     (symtab_addr (linkedit_base slide le) sc)
                     (strtab_addr (linkedit_base slide le) sc)
                     (indirect_symtab_addr (linkedit_base slide le) dc)
                     (patched_sections (commands header)) st ->
  (forall sect,
      In sect (patched_sections (commands header)) ->
      sect_segname sect = SEG_DATA_CONST ->
      ~ (section_bindings sect slide <= a
         < Machine.round_page ps (section_bindings sect slide + size sect))) ->
  exists st',
    Machine.rebind_symbols_for_image ps rebs header slide st = Some st'
    /\ vm_prot st' a = vm_prot st a.
Proof.
  intros Hdl Hle Hsc Hdc Hn Hwf Hfit _ Hsafe Hout.
  destruct (machine_image_pass_follows ps rebs header slide st le sc dc
              Hdl Hle Hsc Hdc Hn Hwf Hfit Hsafe) as (s' & sm' & _ & Hm & _).
  exists sm'. split; [exact Hm|].
  rewrite (machine_image_pass_as_passes ps rebs header slide st le sc dc
             Hdl Hle Hsc Hdc Hn) in Hm.
  eapply (machine_passes_preserves (fun s => vm_prot s a = vm_prot st a));
    [|reflexivity|exact Hm].
  intros sect s s1 Hin Hs Hrun.
  rewrite (machine_perform_protection _ _ _ _ _ _ _ _ _ Hrun).
  destruct (strcmp_eq (sect_segname sect) SEG_DATA_CONST) eqn:Hseg; [|exact Hs].
  apply String.eqb_eq in Hseg.
  rewrite !protect_outside by (apply (Hout sect Hin Hseg)). exact Hs.
Qed.

(* ================================================================== *)
(** * Where the tables and the slots are *)

Lemma slot_match_spec (rebs : list rebindings_entry)
      (symtab strtab indirect_symtab : Z) (section : section_t) (i : Z)
      (st : process) :
  slot_match rebs symtab strtab
             (ptr_add indirect_symtab sizeof_uint32 (reserved1 section)) i st
  = spec_slot_request rebs symtab strtab indirect_symtab section i st.
Proof.
  unfold slot_match, spec_slot_request, slot_symbol_name, load_u32, ptr_add,
    wrap32, sizeof_uint32, sizeof_nlist.
  rewrite wrap64_add_l. unfold wrap64.
  replace (indirect_symtab + 4 * reserved1 section + 4 * i)
    with (indirect_symtab + 4 * (reserved1 section + i)) by ring.
  rewrite !Z.mul_1_l. reflexivity.
Qed.

(** C9: the base of the link-edit tables is [slide + vmaddr - fileoff] of
    the [__LINKEDIT] segment; the symbol table, the string table and the
    indirect symbol table are at that base plus their offsets; these are the
    addresses the pass over the image hands to the patcher for every pointer
    section; and the patcher treats the [size / 8] pointers from
    [slide + addr] on as the slots of the section, and no other cell: after
    a pass slot [i] holds the replacement of the request found through the
    three tables for index [i], or its old pointer when there is none, and a
    cell that overlaps none of these slots and no output slot holds its old
    pointer.  All sums are taken modulo [2^64], as [uintptr_t] arithmetic
    is. *)
Theorem tables_and_slots_drive_the_patcher
        (ps : Z) (rebs : list rebindings_entry) (header : mach_header)
        (slide : Z) (st : process)
        (le : segment_command_t) (sc : symtab_command) (dc : dysymtab_command) :
  dladdr st (header_addr header) = true ->
  linkedit_segment (locate (commands header)) = Some le ->
  symtab_cmd (locate (commands header)) = Some sc ->
  dysymtab_cmd (locate (commands header)) = Some dc ->
  wrap32 (nindirectsyms dc) <> 0 ->
  let base := (slide + vmaddr le - fileoff le) mod 2 ^ 64 in
  linkedit_base slide le = base
  /\ symtab_addr (linkedit_base slide le) sc = (base + symoff sc) mod 2 ^ 64
  /\ strtab_addr (linkedit_base slide le) sc = (base + stroff sc) mod 2 ^ 64
  /\ indirect_symtab_addr (linkedit_base slide le) dc
     = (base + indirectsymoff dc) mod 2 ^ 64
  /\ Machine.rebind_symbols_for_image ps rebs header slide st
     = Machine.passes ps rebs slide
                      ((base + symoff sc) mod 2 ^ 64)
                      ((base + stroff sc) mod 2 ^ 64)
                      ((base + indirectsymoff dc) mod 2 ^ 64)
                      (patched_sections (commands header)) st
  /\ forall (section : section_t) (symtab strtab indirect_symtab : Z)
            (s : process),
      Forall wf_entry rebs ->
      section_slots section < 2 ^ 32 ->
      stores_apart rebs section slide ->
      Machine.pass_safe ps rebs section slide symtab strtab indirect_symtab s ->
      exists s',
        Machine.perform_rebinding_with_section ps rebs section slide symtab
                                               strtab indirect_symtab s
        = Some s'
        /\ (forall i,
               0 <= i < size section / 8 ->
               ptr_at s' ((slide + addr section + 8 * i) mod 2 ^ 64)
               = match spec_slot_request rebs symtab strtab indirect_symtab
                                         section i s with
                 | Some r => replacement r
                 | None => ptr_at s ((slide + addr section + 8 * i) mod 2 ^ 64)
                 end)
        /\ (forall a,
               (forall i, 0 <= i < size section / 8 ->
                          disjoint_cells a
                            ((slide + addr section + 8 * i) mod 2 ^ 64)) ->
               (forall r, In r (chain_requests rebs) ->
                          replaced r = NULL \/ disjoint_cells (replaced r) a) ->
               ptr_at s' a = ptr_at s a).
Proof.
  intros Hdl Hle Hsc Hdc Hn base.
  assert (Hbase : linkedit_base slide le = base) by apply linkedit_base_eq.
  split; [exact Hbase|].
  split; [rewrite Hbase; reflexivity|].
  split; [rewrite Hbase; reflexivity|].
  split; [rewrite Hbase; reflexivity|].
  split.
  - rewrite (machine_image_pass_as_passes ps rebs header slide st le sc dc
               Hdl Hle Hsc Hdc Hn).
    rewrite Hbase. reflexivity.
  - intros section symtab strtab indirect_symtab s Hwf Hfit Hapart Hsafe.
    destruct (perform_rebinding_with_section_post rebs section slide symtab
                strtab indirect_symtab s Hwf Hfit
                (stores_apart_no_alias _ _ _ Hapart))
      as (s' & Hrun & _ & _ & Hslots & Hframe).
    destruct (machine_perform_follows ps rebs section slide symtab strtab
                indirect_symtab s s s' (same_cells_refl s) Hsafe Hrun)
      as (sm' & Hm & [Hp _]).
    exists sm'. split; [exact Hm|]. rewrite <- Hp. split.
    + intros i Hi. rewrite <- slot_address_eq, <- slot_match_spec.
      apply Hslots. exact Hi.
    + intros a Ha Hr. apply Hframe.
      * intros j Hj. apply disjoint_cells_neq. rewrite slot_address_eq.
        apply Ha. exact Hj.
      * intros r Hin. destruct (Hr r Hin) as [E|D]; [left; exact E|right].
        apply disjoint_cells_neq. exact D.
Qed.

(* ================================================================== *)
(** * One request and the slots it matches *)

(** A property of the pointer cells and the surroundings that every applied
    request keeps is kept by a pass of the cell model. *)
Lemma perform_rebinding_with_section_invariant (P : process -> Prop)
      (rebs : list rebindings_entry) (section : section_t)
      (slide symtab strtab indirect_symtab : Z) (st st' : process) :
  Forall wf_entry rebs ->
  (forall s t, same_cells s t -> P s -> P t) ->
  (forall j s r,
      0 <= j < section_slots section -> P s ->
      slot_match rebs symtab strtab
                 (ptr_add indirect_symtab sizeof_uint32 (reserved1 section)) j s
      = Some r ->
      P (apply_rebinding (ptr_add (section_bindings section slide)
                                  sizeof_pointer j) r s)) ->
  P st ->
  perform_rebinding_with_section rebs section slide symtab strtab
                                 indirect_symtab st = Some st' ->
  P st'.
Proof.
  intros Hwf Hcells Hstep HP H.
  destruct (Z.lt_ge_cases (section_slots section) (2 ^ 32)) as [Hn|Hn];
    [|rewrite perform_rebinding_with_section_diverges in H by exact Hn;
      discriminate].
  unfold perform_rebinding_with_section in H.
  destruct (for_uint _ _ _ _ _) as [f|] eqn:Hf; [|discriminate].
  assert (Hp : P (flow_state f)).
  { match type of Hf with
    | for_uint ?fu ?n ?b 0 ?s0 = _ =>
        apply (for_uint_preserves_indexed n b P Hn) in Hf
    end.
    - exact Hf.
    - intros j s g Hj Hs Hb.
      rewrite (slot_body_match _ _ _ _ _ _ _ Hwf) in Hb.
      injection Hb as <-. cbn [flow_state].
      destruct (slot_match _ _ _ _ j s) as [r|] eqn:Hr; [|exact Hs].
      apply (Hstep j s r Hj Hs Hr).
    - lia.
    - destruct (strcmp_eq (sect_segname section) SEG_DATA_CONST); [|exact HP].
      apply (Hcells st); [|exact HP].
      apply same_cells_sym, same_cells_mprotect. }
  injection H as <-.
  destruct (strcmp_eq (sect_segname section) SEG_DATA_CONST); [|exact Hp].
  apply (Hcells (flow_state f)); [|exact Hp].
  apply same_cells_sym, same_cells_mprotect.
Qed.

Section SingleRequest.
Variable r0 : rebinding.
Variable e : rebindings_entry.
Hypothesis e_rebindings : rebindings e = [r0].
Hypothesis e_nel : rebindings_nel e = 1.
Variables slide symtab strtab indirect_symtab : Z.
Variable sects : list section_t.
Variable F : Z.
Variable st : process.
Hypothesis O_not_null : replaced r0 <> NULL.
Hypothesis F_not_R : F <> replacement r0.
Hypothesis O_no_slot :
  forall sect i,
    In sect sects -> 0 <= i < section_slots sect ->
    replaced r0 <> ptr_add (section_bindings sect slide) sizeof_pointer i.
Hypothesis matched_hold_F :
  forall sect i,
    In sect sects -> 0 <= i < section_slots sect ->
    slot_match [e] symtab strtab
               (ptr_add indirect_symtab sizeof_uint32 (reserved1 sect)) i st
    <> None ->
    ptr_at st (ptr_add (section_bindings sect slide) sizeof_pointer i) = F.

Lemma single_request_wf : Forall wf_entry [e].
Proof.
  constructor; [|constructor]. unfold wf_entry.
  rewrite e_rebindings, e_nel. split; [reflexivity|lia].
Qed.

Lemma single_request_match (indices i : Z) (s : process) (r : rebinding) :
  slot_match [e] symtab strtab indices i s = Some r -> r = r0.
Proof.
  intros H. apply slot_match_some_in in H.
  unfold chain_requests in H. cbn [map concat] in H.
  rewrite e_rebindings in H. destruct H as [H|[]]. symmetry. exact H.
Qed.

Lemma single_request_start :
  single_request_inv r0 e slide symtab strtab indirect_symtab sects F st st.
Proof.
  split; [reflexivity|]. split; [reflexivity|].
  intros sect i Hin Hi Hm. left. apply (matched_hold_F sect i Hin Hi Hm).
Qed.

Lemma single_request_cells (s t : process) :
  same_cells s t ->
  single_request_inv r0 e slide symtab strtab indirect_symtab sects F st s ->
  single_request_inv r0 e slide symtab strtab indirect_symtab sects F st t.
Proof.
  intros HR (Hu & Hc & Hs). destruct (same_cells_fields _ _ HR) as [Hu' Hc'].
  destruct HR as [Hp _].
  split; [congruence|]. split; [congruence|].
  intros sect i Hin Hi Hm. rewrite <- Hp. apply (Hs sect i Hin Hi Hm).
Qed.

(** Applying the request to a slot it matches keeps the invariant, and
    leaves the replacement in a cell that holds it. *)
Lemma single_request_step (sect : section_t) (j : Z) (s : process)
      (r : rebinding) :
  In sect sects -> 0 <= j < section_slots sect ->
  single_request_inv r0 e slide symtab strtab indirect_symtab sects F st s ->
  slot_match [e] symtab strtab
             (ptr_add indirect_symtab sizeof_uint32 (reserved1 sect)) j s
  = Some r ->
  single_request_inv r0 e slide symtab strtab indirect_symtab sects F st
    (apply_rebinding (ptr_add (section_bindings sect slide) sizeof_pointer j)
                     r s)
  /\ forall a, a <> replaced r0 ->
               ptr_at s a = replacement r0 ->
               ptr_at (apply_rebinding
                         (ptr_add (section_bindings sect slide) sizeof_pointer j)
                         r s) a
               = replacement r0.
Proof.
  intros Hin Hj (Hu & Hc & Hs) Hr.
  pose proof (single_request_match _ _ _ _ Hr) as ->.
  rewrite (slot_match_env _ _ _ _ _ _ _ Hu Hc) in Hr.
  set (slot := ptr_add (section_bindings sect slide) sizeof_pointer j) in *.
  assert (Hslot : replaced r0 <> slot) by apply (O_no_slot sect j Hin Hj).
  assert (Hcur : ptr_at s slot = F
                 \/ (ptr_at s slot = replacement r0 /\ ptr_at s (replaced r0) = F)).
  { apply (Hs sect j Hin Hj). rewrite Hr. discriminate. }
  assert (Hout : ptr_at (apply_rebinding slot r0 s) (replaced r0) = F).
  { destruct Hcur as [Hcur|[Hcur HO]].
    - rewrite ptr_at_apply_rebinding_output; [exact Hcur|exact O_not_null| |exact Hslot].
      rewrite Hcur. exact F_not_R.
    - rewrite ptr_at_apply_rebinding_guarded; [exact HO|right; exact Hcur|exact Hslot]. }
  destruct (u32_cstr_apply_rebinding slot r0 s) as [Hu' Hc'].
  split.
  - split; [congruence|]. split; [congruence|].
    intros sect' i' Hin' Hi' Hm'.
    set (a := ptr_add (section_bindings sect' slide) sizeof_pointer i').
    destruct (Z.eq_dec a slot) as [E|E].
    + right. rewrite E, ptr_at_apply_rebinding_slot. auto.
    + assert (Ha : a <> replaced r0)
        by (intros E'; apply (O_no_slot sect' i' Hin' Hi'); symmetry; exact E').
      rewrite (ptr_at_apply_rebinding_other _ _ _ _ E Ha).
      destruct (Hs sect' i' Hin' Hi' Hm') as [Hv|[Hv _]];
        [left; exact Hv|right; auto].
  - intros a Ha Hv. destruct (Z.eq_dec a slot) as [E|E].
    + rewrite E. apply ptr_at_apply_rebinding_slot.
    + rewrite (ptr_at_apply_rebinding_other _ _ _ _ E Ha). exact Hv.
Qed.

(** A pass over one of the sections keeps the invariant and the cells that
    hold the replacement. *)
Lemma single_request_pass (sect : section_t) (a : Z) (B : Prop)
      (s s' : process) :
  In sect sects -> a <> replaced r0 ->
  single_request_inv r0 e slide symtab strtab indirect_symtab sects F st s ->
  (B -> ptr_at s a = replacement r0) ->
  perform_rebinding_with_section [e] sect slide symtab strtab indirect_symtab s
  = Some s' ->
  single_request_inv r0 e slide symtab strtab indirect_symtab sects F st s'
  /\ (B -> ptr_at s' a = replacement r0).
Proof.
  intros Hin Ha Hinv HB Hrun.
  apply (perform_rebinding_with_section_invariant
           (fun x =>
              single_request_inv r0 e slide symtab strtab indirect_symtab
                                 sects F st x
              /\ (B -> ptr_at x a = replacement r0))
           [e] sect slide symtab strtab indirect_symtab s s' single_request_wf);
    [| |split; assumption|exact Hrun].
  - intros x y HR [Hx Hxa]. split; [apply (single_request_cells x y HR Hx)|].
    destruct HR as [Hp _]. rewrite <- Hp. exact Hxa.
  - intros j x r Hj [Hx Hxa] Hr.
    destruct (single_request_step sect j x r Hin Hj Hx Hr) as [Hi Hk].
    split; [exact Hi|]. intros HBt. apply Hk; [exact Ha|apply Hxa, HBt].
Qed.

(** After a pass over a section a slot of this section that the request
    matches holds the replacement. *)
Lemma single_request_pass_target (sect : section_t) (i : Z) (s s' : process) :
  In sect sects -> 0 <= i < section_slots sect ->
  slot_match [e] symtab strtab
             (ptr_add indirect_symtab sizeof_uint32 (reserved1 sect)) i st
  <> None ->
  single_request_inv r0 e slide symtab strtab indirect_symtab sects F st s ->
  perform_rebinding_with_section [e] sect slide symtab strtab indirect_symtab s
  = Some s' ->
  ptr_at s' (ptr_add (section_bindings sect slide) sizeof_pointer i)
  = replacement r0.
Proof.
  intros Hin Hi Hm (Hu & Hc & _) Hrun.
  assert (Hfit : section_slots sect < 2 ^ 32).
  { destruct (Z.lt_ge_cases (section_slots sect) (2 ^ 32)) as [Hn|Hn];
      [exact Hn|].
    rewrite perform_rebinding_with_section_diverges in Hrun by exact Hn.
    discriminate. }
  destruct (perform_rebinding_with_section_post [e] sect slide symtab strtab
              indirect_symtab s single_request_wf Hfit)
    as (s1 & Hrun1 & _ & _ & Hslots & _).
  { intros r j Hr Hj. right.
    unfold chain_requests in Hr. cbn [map concat] in Hr.
    rewrite e_rebindings in Hr. destruct Hr as [<-|[]].
    apply (O_no_slot sect j Hin Hj). }
  rewrite Hrun in Hrun1. injection Hrun1 as <-.
  rewrite (Hslots i Hi). rewrite (slot_match_env _ _ _ _ _ _ _ Hu Hc).
  destruct (slot_match _ _ _ _ i st) as [r|] eqn:Hr; [|contradiction].
  rewrite (single_request_match _ _ _ _ Hr). reflexivity.
Qed.

(** The passes over the sections: once a section with a matched slot has
    had its pass, that slot holds the replacement. *)
Lemma single_request_passes (sect0 : section_t) (i0 : Z) :
  0 <= i0 < section_slots sect0 ->
  slot_match [e] symtab strtab
             (ptr_add indirect_symtab sizeof_uint32 (reserved1 sect0)) i0 st
  <> None ->
  In sect0 sects ->
  forall (l : list section_t) (s s' : process),
    incl l sects ->
    single_request_inv r0 e slide symtab strtab indirect_symtab sects F st s ->
    passes [e] slide symtab strtab indirect_symtab l s = Some s' ->
    single_request_inv r0 e slide symtab strtab indirect_symtab sects F st s'
    /\ (ptr_at s (ptr_add (section_bindings sect0 slide) sizeof_pointer i0)
        = replacement r0
        \/ In sect0 l ->
        ptr_at s' (ptr_add (section_bindings sect0 slide) sizeof_pointer i0)
        = replacement r0).
Proof.
  intros Hi0 Hm0 Hin0.
  assert (Ha0 : ptr_add (section_bindings sect0 slide) sizeof_pointer i0
                <> replaced r0)
    by (intros E; apply (O_no_slot sect0 i0 Hin0 Hi0); symmetry; exact E).
  induction l as [|sect l IH]; intros s s' Hincl Hinv H; cbn [passes] in H.
  - injection H as <-. split; [exact Hinv|]. intros [Hv|[]]. exact Hv.
  - destruct (perform_rebinding_with_section [e] sect slide symtab strtab
                indirect_symtab s) as [s1|] eqn:H1; [|discriminate].
    assert (Hin : In sect sects) by (apply Hincl; left; reflexivity).
    destruct (single_request_pass sect _
                (ptr_at s (ptr_add (section_bindings sect0 slide)
                                   sizeof_pointer i0) = replacement r0)
                s s1 Hin Ha0 Hinv (fun Hv => Hv) H1) as [Hinv1 Hkeep].
    destruct (IH s1 s' (fun x Hx => Hincl x (or_intror Hx)) Hinv1 H)
      as [Hinv' Hfin].
    split; [exact Hinv'|].
    intros [Hv|[<-|Hl]]; apply Hfin.
    + left. apply Hkeep, Hv.
    + left. apply (single_request_pass_target sect i0 s s1 Hin Hi0 Hm0 Hinv H1).
    + right. exact Hl.
Qed.

(** After the passes over all the sections every matched slot holds the
    replacement and the output slot holds [F]. *)
Lemma single_request_image (sect0 : section_t) (i0 : Z) (st' : process) :
  In sect0 sects -> 0 <= i0 < section_slots sect0 ->
  slot_match [e] symtab strtab
             (ptr_add indirect_symtab sizeof_uint32 (reserved1 sect0)) i0 st
  <> None ->
  passes [e] slide symtab strtab indirect_symtab sects st = Some st' ->
  ptr_at st' (ptr_add (section_bindings sect0 slide) sizeof_pointer i0)
  = replacement r0
  /\ ptr_at st' (replaced r0) = F.
Proof.
  intros Hin0 Hi0 Hm0 Hrun.
  destruct (single_request_passes sect0 i0 Hi0 Hm0 Hin0 sects st st'
              (incl_refl _) single_request_start Hrun)
    as [(_ & _ & Hs) Hfin].
  assert (HR : ptr_at st' (ptr_add (section_bindings sect0 slide)
                                   sizeof_pointer i0) = replacement r0)
    by (apply Hfin; right; exact Hin0).
  split; [exact HR|].
  destruct (Hs sect0 i0 Hin0 Hi0 Hm0) as [Hv|[_ HO]]; [|exact HO].
  exfalso. apply F_not_R. congruence.
Qed.
End SingleRequest.

(** C4: scenario A on the machine.  A replacement [R] for the name "open"
    with output slot [O] is registered in an empty registry, and the image
    is patched.  The image has the three commands and slot counts that fit
    the counter; slot [i0] of one of its pointer tables is bound to
    [_open]; every slot of its pointer tables that the request matches holds
    the original function [F] (so when exactly one slot is bound to [_open],
    that slot holds [F]); [F] differs from [R] and [O] is not null; the
    tables, [O] and the registry are clear of each other, and the stores of
    the pass are safe.  Then the pass over the image returns, the slot holds
    [R] and [O] holds [F]. *)
Theorem scenario_open_image_pass
        (ps new_entry new_array R O F : Z) (st0 st : process)
        (chain : list rebindings_entry) (header : mach_header) (slide : Z)
        (le : segment_command_t) (sc : symtab_command) (dc : dysymtab_command)
        (section : section_t) (i0 : Z) :
  prepend_rebindings new_entry new_array [] [mkRebinding "open" R O] 1 st0
  = (0, chain, st) ->
  dladdr st (header_addr header) = true ->
  linkedit_segment (locate (commands header)) = Some le ->
  symtab_cmd (locate (commands header)) = Some sc ->
  dysymtab_cmd (locate (commands header)) = Some dc ->
  wrap32 (nindirectsyms dc) <> 0 ->
  image_fits header ->
  In section (patched_sections (commands header)) ->
  0 <= i0 < section_slots section ->
  let symtab := symtab_addr (linkedit_base slide le) sc in
  let strtab := strtab_addr (linkedit_base slide le) sc in
  let indirect_symtab := indirect_symtab_addr (linkedit_base slide le) dc in
  let symtab_index :=
    load_u32 st (ptr_add (ptr_add indirect_symtab sizeof_uint32
                                  (reserved1 section)) sizeof_uint32 i0) in
  is_sentinel symtab_index = false ->
  slot_symbol_name symtab strtab symtab_index st = "_open"%string ->
  (forall sect i,
      In sect (patched_sections (commands header)) ->
      0 <= i < section_slots sect ->
      slot_match chain symtab strtab
                 (ptr_add indirect_symtab sizeof_uint32 (reserved1 sect)) i st
      <> None ->
      ptr_at st (ptr_add (section_bindings sect slide) sizeof_pointer i) = F) ->
  F <> R -> O <> NULL ->
  image_stores_apart chain (patched_sections (commands header)) slide ->
  Machine.image_safe ps chain slide symtab strtab indirect_symtab
                     (patched_sections (commands header)) st ->
  exists st',
    Machine.rebind_symbols_for_image ps chain header slide st = Some st'
    /\ ptr_at st' (ptr_add (section_bindings section slide) sizeof_pointer i0) = R
    /\ ptr_at st' O = F.
Proof.
  intros Hreg Hdl Hle Hsc Hdc Hn Hfit Hin Hi0 symtab strtab indirect_symtab
         symtab_index Hsent Hname HF HFR HO Hapart Hsafe.
  unfold prepend_rebindings in Hreg.
  destruct (new_entry =? NULL); [discriminate|].
  destruct (new_array =? NULL); [discriminate|].
  injection Hreg as Hchain Hst.
  subst chain.
  set (r0 := mkRebinding "open" R O) in *.
  set (e := mkEntry new_entry new_array [r0] 1) in *.
  assert (Hwf : Forall wf_entry [e])
    by (apply (single_request_wf r0 e eq_refl eq_refl)).
  destruct (machine_image_pass_follows ps [e] header slide st le sc dc
              Hdl Hle Hsc Hdc Hn Hwf Hfit Hsafe)
    as (s' & sm' & Hs' & Hm & [Hp _] & _).
  exists sm'. split; [exact Hm|]. rewrite <- Hp.
  unfold rebind_symbols_for_image in Hs'.
  rewrite Hdl, Hle, Hsc, Hdc in Hs'. cbn [negb] in Hs'.
  rewrite (proj2 (Z.eqb_neq _ _) Hn), commands_loop_as_passes in Hs'.
  assert (Hnoslot : forall sect i,
             In sect (patched_sections (commands header)) ->
             0 <= i < section_slots sect ->
             replaced r0 <> ptr_add (section_bindings sect slide) sizeof_pointer i).
  { intros sect i Hs Hi.
    destruct (Hapart sect Hs) as (Hslots & _).
    destruct (Hslots r0 i (or_introl eq_refl) Hi) as [E|D];
      [contradiction|].
    apply disjoint_cells_neq. exact D. }
  assert (Hm0 : slot_match [e] symtab strtab
                           (ptr_add indirect_symtab sizeof_uint32
                                    (reserved1 section)) i0 st <> None).
  { unfold slot_match. fold symtab_index. rewrite Hsent, Hname.
    discriminate. }
  apply (single_request_image r0 e eq_refl eq_refl slide symtab strtab
           indirect_symtab (patched_sections (commands header)) F st
           HO HFR Hnoslot HF section i0 s' Hin Hi0 Hm0 Hs').
Qed.

(* ================================================================== *)
(** * The sample process on a machine with pages of [0x4000] bytes *)

Lemma sample_got_apart : stores_apart sample_chain Sample.got Sample.slide.
Proof.
  split; [|split].
  - intros r i [<-|[]] Hi. right.
    change (section_slots Sample.got) with 2 in Hi.
    assert (E : i = 0 \/ i = 1) by lia.
    destruct E as [->| ->]; right; vm_compute; discriminate.
  - intros r [<-|[]]. right. far_from_registry.
  - intros i Hi. change (section_slots Sample.got) with 2 in Hi.
    assert (E : i = 0 \/ i = 1) by lia.
    destruct E as [->| ->]; far_from_registry.
Qed.

Lemma sample_la_apart :
  stores_apart sample_chain Sample.la_symbol_ptr Sample.slide.
Proof.
  split; [|split].
  - intros r i [<-|[]] Hi. right.
    change (section_slots Sample.la_symbol_ptr) with 3 in Hi.
    assert (E : i = 0 \/ i = 1 \/ i = 2) by lia.
    destruct E as [->|[->| ->]]; right; vm_compute; discriminate.
  - intros r [<-|[]]. right. far_from_registry.
  - intros i Hi. change (section_slots Sample.la_symbol_ptr) with 3 in Hi.
    assert (E : i = 0 \/ i = 1 \/ i = 2) by lia.
    destruct E as [->|[->| ->]]; far_from_registry.
Qed.

Lemma sample_image_apart :
  image_stores_apart sample_chain (patched_sections (commands Sample.header))
                     Sample.slide.
Proof.
  intros sect [<-|[<-|[]]]; [apply sample_got_apart|apply sample_la_apart].
Qed.

Lemma sample_got_safe :
  Machine.pass_safe 0x4000 sample_chain Sample.got Sample.slide
                    0x100010100 0x100010300 0x100010200 Sample.process0.
Proof.
  split.
  - intros i Hi _. change (section_slots Sample.got) with 2 in Hi.
    assert (E : i = 0 \/ i = 1) by lia.
    destruct E as [->| ->]; vm_compute; reflexivity.
  - intros r [<-|[]]. right. vm_compute. reflexivity.
Qed.

Lemma sample_image_safe :
  Machine.image_safe 0x4000 sample_chain Sample.slide
                     0x100010100 0x100010300 0x100010200
                     (patched_sections (commands Sample.header)) Sample.process0.
Proof.
  split; [vm_compute; reflexivity|]. split.
  - intros sect i [<-|[<-|[]]] Hi _.
    + change (section_slots Sample.got) with 2 in Hi.
      assert (E : i = 0 \/ i = 1) by lia.
      destruct E as [->| ->]; vm_compute; reflexivity.
    + change (section_slots Sample.la_symbol_ptr) with 3 in Hi.
      assert (E : i = 0 \/ i = 1 \/ i = 2) by lia.
      destruct E as [->|[->| ->]]; vm_compute; reflexivity.
  - intros r [<-|[]]. right. vm_compute. reflexivity.
Qed.

(** Safety looks at the protections and the tables only. *)
Lemma image_safe_same_view (ps : Z) (rebs : list rebindings_entry)
      (slide symtab strtab indirect_symtab : Z) (sects : list section_t)
      (st st' : process) :
  vm_prot st' = vm_prot st -> u32_at st' = u32_at st -> cstr_at st' = cstr_at st ->
  Machine.image_safe ps rebs slide symtab strtab indirect_symtab sects st ->
  Machine.image_safe ps rebs slide symtab strtab indirect_symtab sects st'.
Proof.
  intros Hp Hu Hc (Hnode & Hslots & Hout). unfold Machine.image_safe.
  rewrite Hp. split; [exact Hnode|]. split; [|exact Hout].
  intros sect i Hin Hi Hm. apply (Hslots sect i Hin Hi).
  rewrite <- (slot_match_env _ _ _ _ _ _ _ Hu Hc). exact Hm.
Qed.

Lemma machine_pass_installs_first_match_witness :
  exists st',
    Machine.perform_rebinding_with_section
      0x4000 sample_chain Sample.got Sample.slide
      0x100010100 0x100010300 0x100010200 Sample.process0 = Some st'
    /\ ptr_at st' (Sample.got_slot 0) = Sample.F_close
    /\ ptr_at st' (Sample.got_slot 1) = Sample.R1.
Proof.
  destruct (machine_pass_installs_first_match
              0x4000 sample_chain Sample.got Sample.slide
              0x100010100 0x100010300 0x100010200 Sample.process0
              sample_chain_wf eq_refl sample_got_apart sample_got_safe)
    as (st' & Hrun & Hslots).
  exists st'. split; [exact Hrun|].
  split; [exact (Hslots 0 (conj (Z.le_refl 0) eq_refl))|].
  apply (Hslots 1); split; [discriminate|reflexivity].
Defined.

Lemma machine_pass_output_slots_witness :
  exists st',
    Machine.perform_rebinding_with_section
      0x4000 sample_chain Sample.got Sample.slide
      0x100010100 0x100010300 0x100010200 Sample.process0 = Some st'
    /\ (ptr_at st' Sample.O1 = ptr_at Sample.process0 Sample.O1
        \/ exists j r,
            0 <= j < section_slots Sample.got
            /\ slot_match sample_chain 0x100010100 0x100010300
                          (ptr_add 0x100010200 sizeof_uint32
                                   (reserved1 Sample.got)) j
                          Sample.process0 = Some r
            /\ replaced r = Sample.O1 /\ replaced r <> NULL
            /\ ptr_at st' Sample.O1
               = ptr_at Sample.process0
                        (ptr_add (section_bindings Sample.got Sample.slide)
                                 sizeof_pointer j)
            /\ ptr_at Sample.process0
                      (ptr_add (section_bindings Sample.got Sample.slide)
                               sizeof_pointer j) <> replacement r).
Proof.
  destruct (machine_pass_output_slots
              0x4000 sample_chain Sample.got Sample.slide
              0x100010100 0x100010300 0x100010200 Sample.process0
              sample_chain_wf eq_refl sample_got_apart sample_got_safe)
    as (st' & Hrun & Hout).
  exists st'. split; [exact Hrun|].
  apply (Hout Sample.O1).
  - intros j Hj. change (section_slots Sample.got) with 2 in Hj.
    assert (E : j = 0 \/ j = 1) by lia.
    destruct E as [->| ->]; right; vm_compute; discriminate.
  - intros r [<-|[]]. right. left. reflexivity.
Defined.

Lemma machine_second_pass_changes_no_pointer_witness :
  exists st1 st2,
    Machine.perform_rebinding_with_section
      0x4000 sample_chain Sample.got Sample.slide
      0x100010100 0x100010300 0x100010200 Sample.process0 = Some st1
    /\ Machine.perform_rebinding_with_section
         0x4000 sample_chain Sample.got Sample.slide
         0x100010100 0x100010300 0x100010200 st1 = Some st2
    /\ forall a, ptr_at st2 a = ptr_at st1 a.
Proof.
  apply (machine_second_pass_changes_no_pointer
           0x4000 sample_chain Sample.got Sample.slide
           0x100010100 0x100010300 0x100010200 Sample.process0
           sample_chain_wf eq_refl sample_got_apart sample_got_safe).
Defined.

Lemma machine_data_const_protection_after_pass_witness :
  exists st',
    Machine.perform_rebinding_with_section
      0x4000 sample_chain Sample.got Sample.slide
      0x100010100 0x100010300 0x100010200 Sample.process0 = Some st'
    /\ vm_prot st' (Sample.got_slot 0) = Some 3
    /\ vm_prot st' 0x100008010 = Some 3
    /\ vm_prot st' 0x100004000 = Some 5.
Proof.
  destruct (machine_data_const_protection_after_pass
              0x4000 sample_chain Sample.got Sample.slide
              0x100010100 0x100010300 0x100010200 Sample.process0
              3 sample_chain_wf eq_refl sample_got_apart sample_got_safe
              eq_refl eq_refl)
    as (st' & Hrun & Hin & Hout).
  exists st'. split; [exact Hrun|].
  split; [|split].
  - apply (Hin eq_refl (Sample.got_slot 0)).
    + split; [vm_compute; discriminate|reflexivity].
    + vm_compute. discriminate.
  - apply (Hin eq_refl 0x100008010).
    + split; [vm_compute; discriminate|reflexivity].
    + vm_compute. discriminate.
  - apply (Hout 0x100004000). right. intros [Hlo _]. revert Hlo.
    vm_compute. intros H. apply H. reflexivity.
Defined.

Lemma machine_image_pass_protection_frame_witness :
  exists st',
    Machine.rebind_symbols_for_image 0x4000 sample_chain Sample.header
                                     Sample.slide Sample.process0 = Some st'
    /\ vm_prot st' (Sample.la_slot 0) = vm_prot Sample.process0 (Sample.la_slot 0).
Proof.
  apply (machine_image_pass_protection_frame
           0x4000 sample_chain Sample.header Sample.slide (Sample.la_slot 0)
           Sample.process0 Sample.linkedit_seg Sample.symtab_c Sample.dysymtab_c
           eq_refl eq_refl eq_refl eq_refl);
    [discriminate|exact sample_chain_wf|exact sample_header_fits
     |exact sample_image_apart|exact sample_image_safe|].
  intros sect [<-|[<-|[]]] Hseg [Hlo Hhi].
  - revert Hhi. vm_compute. discriminate.
  - discriminate Hseg.
Defined.

Lemma tables_and_slots_drive_the_patcher_witness :
  linkedit_base Sample.slide Sample.linkedit_seg = 0x100004000
  /\ symtab_addr (linkedit_base Sample.slide Sample.linkedit_seg) Sample.symtab_c
     = 0x100010100
  /\ strtab_addr (linkedit_base Sample.slide Sample.linkedit_seg) Sample.symtab_c
     = 0x100010300
  /\ indirect_symtab_addr (linkedit_base Sample.slide Sample.linkedit_seg)
                          Sample.dysymtab_c
     = 0x100010200
  /\ Machine.rebind_symbols_for_image 0x4000 sample_chain Sample.header
                                      Sample.slide Sample.process0
     = Machine.passes 0x4000 sample_chain Sample.slide
                      0x100010100 0x100010300 0x100010200
                      [Sample.got; Sample.la_symbol_ptr] Sample.process0
  /\ exists s',
      Machine.perform_rebinding_with_section
        0x4000 sample_chain Sample.got Sample.slide
        0x100010100 0x100010300 0x100010200 Sample.process0 = Some s'
      /\ ptr_at s' 0x100008000 = Sample.F_close
      /\ ptr_at s' 0x100008008 = Sample.R1
      /\ ptr_at s' 0x100008010 = ptr_at Sample.process0 0x100008010.
Proof.
  destruct (tables_and_slots_drive_the_patcher
              0x4000 sample_chain Sample.header Sample.slide Sample.process0
              Sample.linkedit_seg Sample.symtab_c Sample.dysymtab_c
              eq_refl eq_refl eq_refl eq_refl)
    as (K1 & K2 & K3 & K4 & K5 & K6); [discriminate|].
  split; [exact K1|]. split; [exact K2|]. split; [exact K3|].
  split; [exact K4|]. split; [exact K5|].
  destruct (K6 Sample.got 0x100010100 0x100010300 0x100010200 Sample.process0
               sample_chain_wf eq_refl sample_got_apart sample_got_safe)
    as (s' & Hrun & Hslots & Hframe).
  exists s'. split; [exact Hrun|].
  split; [exact (Hslots 0 (conj (Z.le_refl 0) eq_refl))|].
  split; [apply (Hslots 1); split; [discriminate|reflexivity]|].
  apply (Hframe 0x100008010).
  - intros i Hi. change (size Sample.got / 8) with 2 in Hi.
    assert (E : i = 0 \/ i = 1) by lia.
    destruct E as [->| ->]; right; vm_compute; discriminate.
  - intros r [<-|[]]. right. right. vm_compute. discriminate.
Defined.

Lemma scenario_open_image_pass_witness :
  exists st',
    Machine.rebind_symbols_for_image
      0x4000 sample_chain Sample.header Sample.slide
      (malloc_returns Sample.array1
                      (malloc_returns Sample.node1 Sample.process0))
    = Some st'
    /\ ptr_at st' (Sample.got_slot 1) = Sample.R1
    /\ ptr_at st' Sample.O1 = Sample.F_open.
Proof.
  apply (scenario_open_image_pass
           0x4000 Sample.node1 Sample.array1 Sample.R1 Sample.O1 Sample.F_open
           Sample.process0
           (malloc_returns Sample.array1
                           (malloc_returns Sample.node1 Sample.process0))
           sample_chain Sample.header Sample.slide
           Sample.linkedit_seg Sample.symtab_c Sample.dysymtab_c
           Sample.got 1
           eq_refl eq_refl eq_refl eq_refl eq_refl);
    [discriminate|exact sample_header_fits|left; reflexivity
     |split; [discriminate|reflexivity]|reflexivity|reflexivity
     | |discriminate|discriminate|exact sample_image_apart|].
  - intros sect i [<-|[<-|[]]] Hi Hm.
    + change (section_slots Sample.got) with 2 in Hi.
      assert (E : i = 0 \/ i = 1) by lia.
      destruct E as [->| ->]; [|reflexivity].
      exfalso. apply Hm. reflexivity.
    + change (section_slots Sample.la_symbol_ptr) with 3 in Hi.
      assert (E : i = 0 \/ i = 1 \/ i = 2) by lia.
      destruct E as [->|[->| ->]]; [reflexivity| |];
        exfalso; apply Hm; reflexivity.
  - apply (image_safe_same_view _ _ _ _ _ _ _ Sample.process0);
      [reflexivity|reflexivity|reflexivity|exact sample_image_safe].
Defined.


(** A table of [__DATA_CONST] off a page boundary, mapped read-only, with a
    slot the registry matches: both calls of [mprotect] fail, the store into
    the slot is refused, and the pass of the machine does not return, where
    the pass of the cell model does. *)
Example machine_unaligned_table_faults :
  Machine.mprotect_ok 0x4000 (section_bindings sample_got_unaligned Sample.slide)
                      (size sample_got_unaligned) (vm_prot Sample.process0)
  = false
  /\ completes (Machine.perform_rebinding_with_section
                  0x4000 sample_chain sample_got_unaligned Sample.slide
                  0x100010100 0x100010300 0x100010200 Sample.process0)
     = false
  /\ completes (perform_rebinding_with_section
                  sample_chain sample_got_unaligned Sample.slide
                  0x100010100 0x100010300 0x100010200 Sample.process0)
     = true.
Proof. repeat split; vm_compute; reflexivity. Qed.
